(** * ffmpeg-gif-backend: a shallow embedding of [src/server.js]

    The server is a single Express application.  Its own logic is the
    normalisation of four numeric form fields, the quoting of paths for a
    shell command line, the supervision of an [ffmpeg] child process
    (deadline, classification of the diagnostic text, checks on the output
    file), the deletion of the temporary files, and the mining of the
    diagnostic text for video metadata.

    Conventions of the embedding.
    - A JavaScript string is the list of its UTF-16 code units ([jsstring]).
    - [parseInt] yields [option Z] ([None] is [NaN]); the integer is exact,
      where JavaScript rounds above 2^53.  The form fields are clamped to a
      small range afterwards, and rounding is monotone, so the clamped
      results coincide; the fields of a duration have two digits and those of
      a resolution at most four; the bitrate, whose run of digits has no
      bound, is passed through the range of binary64 ([ofParsed]).
    - [parseFloat] yields a [number]: an infinity when the decimal value of
      the literal lies beyond the range of binary64, 0 when it lies below the
      smallest double, and otherwise the exact decimal value as a rational,
      which stands for the double nearest to it.  Rounding inside the range
      is not modelled; it changes neither the sign of a value nor whether it
      is 0.
    - The file system is a finite map from paths to file sizes; unlinking a
      file that exists succeeds.
    - [req.body] is undefined when the form has no text field, and otherwise
      an object whose four fields may each be absent.
    - A child process is represented by how it ended, what it printed and
      what it wrote.  The probe of [/video-info], whose command ends in
      [2>&1], has the texts of ffmpeg and the text of the shell apart: only
      the latter reaches the [stderr] argument of the callback.
    - The transmission of the output file ends with the [end] or the [error]
      event of the read stream, or with neither when the client has gone.
    - The HTTP response object is the list of replies the handler issued, in
      order, with the [headersSent] flag the handler reads. *)

From Stdlib Require Import ZArith NArith QArith Qabs Qpower List String Ascii Bool Lia.
From Stdlib Require Import DecimalString DecimalN.
From stdpp Require Import gmap.
Import ListNotations.

Local Open Scope Z_scope.

(** ** JavaScript strings *)

Module JS.

Definition char := N.
Definition jsstring := list char.

(** An ASCII literal of the source as code units. *)
Definition lit (s : string) : jsstring :=
  List.map N_of_ascii (list_ascii_of_string s).

Definition str_eqb (a b : jsstring) : bool :=
  if decide (a = b) then true else false.

(** [s.startsWith(p)] *)
Fixpoint startsWith (p s : jsstring) : bool :=
  match p, s with
  | [], _ => true
  | _ :: _, [] => false
  | a :: p', b :: s' => N.eqb a b && startsWith p' s'
  end.

(** [s.includes(needle)]: the needle occurs at some position of [s]. *)
Fixpoint includes (needle s : jsstring) : bool :=
  startsWith needle s ||
  match s with
  | [] => false
  | _ :: s' => includes needle s'
  end.


End JS.
Import JS.

(** ** Failure classification of the [/gif] exec callback (lines 119-127) *)

Inductive failure_kind :=
| InvalidInput       (* "Invalid or corrupted video file" *)
| NotFound           (* "File not found or access denied" *)
| PermissionDenied   (* "Permission denied accessing file" *)
| Generic.           (* "FFmpeg processing failed" *)

Definition classify (stderr : jsstring) : failure_kind :=
  if includes (lit "Invalid data found") stderr then InvalidInput
  else if includes (lit "No such file") stderr then NotFound
  else if includes (lit "Permission denied") stderr then PermissionDenied
  else Generic.

Definition errorMessage (k : failure_kind) : jsstring :=
  match k with
  | InvalidInput => lit "Invalid or corrupted video file"
  | NotFound => lit "File not found or access denied"
  | PermissionDenied => lit "Permission denied accessing file"
  | Generic => lit "FFmpeg processing failed"
  end.


(** ** Numbers: [parseInt], [parseFloat], [||], [Math.max] *)

Module Num.

(** StrWhiteSpaceChar; the regular-expression class [\s] is the same set. *)
Definition isWhiteSpace (c : char) : bool :=
  (if decide (c ∈ [9; 10; 11; 12; 13; 32; 160; 5760; 8232; 8233; 8239; 8287;
                   12288; 65279]%N) then true else false)
  || ((8192 <=? c)%N && (c <=? 8202)%N).

Definition isDigit (c : char) : bool := ((48 <=? c)%N && (c <=? 57)%N).

Definition digit10 (c : char) : option Z :=
  if isDigit c then Some (Z.of_N c - 48) else None.

Definition digit16 (c : char) : option Z :=
  if isDigit c then Some (Z.of_N c - 48)
  else if ((97 <=? c)%N && (c <=? 102)%N) then Some (Z.of_N c - 87)
  else if ((65 <=? c)%N && (c <=? 70)%N) then Some (Z.of_N c - 55)
  else None.

Fixpoint trimStart (s : jsstring) : jsstring :=
  match s with
  | c :: s' => if isWhiteSpace c then trimStart s' else s
  | [] => []
  end.

(** The value of the longest prefix of digits; [acc] is [None] until a digit
    has been read. *)
Fixpoint digits (radix : Z) (digit : char -> option Z) (s : jsstring)
    (acc : option Z) : option Z :=
  match s with
  | c :: s' =>
      match digit c with
      | Some d =>
          digits radix digit s'
            (Some (match acc with Some a => a * radix + d | None => d end))
      | None => acc
      end
  | [] => acc
  end.

Definition MINUS : char := 45%N.
Definition PLUS : char := 43%N.
Definition DOT : char := 46%N.

(** An optional sign: [(negative, rest)]. *)
Definition sign (s : jsstring) : bool * jsstring :=
  match s with
  | c :: r =>
      if (c =? MINUS)%N then (true, r)
      else if (c =? PLUS)%N then (false, r)
      else (false, s)
  | [] => (false, [])
  end.

(** [parseInt(s)] with no radix argument; [None] is [NaN]. *)
Definition parseInt (input : jsstring) : option Z :=
  let '(neg, s1) := sign (trimStart input) in
  let '(radix, digit, s2) :=
    if startsWith (lit "0x") s1 || startsWith (lit "0X") s1
    then (16, digit16, skipn 2 s1)
    else (10, digit10, s1) in
  match digits radix digit s2 None with
  | Some v => Some (if neg then - v else v)
  | None => None
  end.

(** [parseInt(x) || d] *)
Definition orZ (v : option Z) (d : Z) : Z :=
  match v with
  | Some 0 | None => d
  | Some z => z
  end.

Inductive number :=
| NaN
| Infinity (neg : bool)
| Fin (q : Q).

(** The range of binary64, without its rounding: a value of magnitude at
    least 2^1024 - 2^970 is read as an infinity and one of magnitude at most
    2^-1075 as 0 (round to nearest, ties to even). *)
Definition overflowFrom : Q := inject_Z (2 ^ 1024 - 2 ^ 970).
Definition underflowTo : Q := Qinv (inject_Z (2 ^ 1075)).

Definition toNumber (q : Q) : number :=
  if Qle_bool overflowFrom (Qabs q) then Infinity (negb (Qle_bool 0 q))
  else if Qle_bool (Qabs q) underflowTo then Fin 0
  else Fin q.

(** An integer read by [parseInt], as a number. *)
Definition ofParsed (v : option Z) : number :=
  match v with
  | Some z => toNumber (inject_Z z)
  | None => NaN
  end.

(** The digits of a maximal run, and what follows it. *)
Fixpoint spanDigits (s : jsstring) : jsstring * jsstring :=
  match s with
  | c :: s' =>
      if isDigit c then let '(d, r) := spanDigits s' in (c :: d, r) else ([], s)
  | [] => ([], [])
  end.

Definition decimalValue (ds : jsstring) : Z :=
  match digits 10 digit10 ds None with Some v => v | None => 0 end.

(** ExponentPart: [e] or [E], an optional sign, at least one digit; 0 when
    the text does not continue with a complete exponent. *)
Definition exponent (s : jsstring) : Z :=
  match s with
  | c :: r =>
      if (c =? 101)%N || (c =? 69)%N then
        let '(neg, r1) := sign r in
        match spanDigits r1 with
        | ([], _) => 0
        | (ds, _) => if neg then - decimalValue ds else decimalValue ds
        end
      else 0
  | [] => 0
  end.

(** [parseFloat(s)]: the longest prefix that is a StrDecimalLiteral. *)
Definition parseFloat (input : jsstring) : number :=
  let '(neg, s1) := sign (trimStart input) in
  if startsWith (lit "Infinity") s1 then Infinity neg
  else
    let '(ip, s2) := spanDigits s1 in
    let '(fp, s3) :=
      match s2 with
      | c :: r => if (c =? DOT)%N then spanDigits r else ([], s2)
      | [] => ([], s2)
      end in
    match ip, fp with
    | [], [] => NaN
    | _, _ =>
        let m := decimalValue (ip ++ fp) in
        let e := exponent s3 - Z.of_nat (length fp) in
        toNumber (Qmult (inject_Z (if neg then - m else m)) (Qpower (inject_Z 10) e))
    end.

Definition truthy (n : number) : bool :=
  match n with
  | NaN => false
  | Infinity _ => true
  | Fin q => negb (Qeq_bool q 0)
  end.

(** [a || b] on numbers *)
Definition or (a b : number) : number := if truthy a then a else b.

Definition leb (a b : number) : bool :=
  match a, b with
  | NaN, _ | _, NaN => false
  | Infinity true, _ => true
  | _, Infinity false => true
  | Infinity false, _ => false
  | _, Infinity true => false
  | Fin x, Fin y => Qle_bool x y
  end.

(** [Math.max(a, b)] *)
Definition max (a b : number) : number :=
  match a, b with
  | NaN, _ | _, NaN => NaN
  | _, _ => if leb a b then b else a
  end.

Definition ofZ (z : Z) : number := Fin (inject_Z z).

(** [0 <= n], false for [NaN]. *)
Definition nonneg (n : number) : Prop := leb (ofZ 0) n = true.

(** The same number: finite values are compared as rationals. *)
Definition same (a b : number) : Prop :=
  match a, b with
  | NaN, NaN => True
  | Infinity x, Infinity y => x = y
  | Fin x, Fin y => Qeq x y
  | _, _ => False
  end.

End Num.

(** ** Form fields *)

(** A field of [req.body]: absent, a string, or (the field repeated in the
    form) an array of strings. *)
Inductive field :=
| Undefined
| Str (s : jsstring)
| Arr (l : list jsstring).

Fixpoint join (sep : jsstring) (l : list jsstring) : jsstring :=
  match l with
  | [] => []
  | [x] => x
  | x :: r => x ++ sep ++ join sep r
  end.

(** ToString, as [parseInt] and [parseFloat] apply it to their argument. *)
Definition toString (f : field) : jsstring :=
  match f with
  | Undefined => lit "undefined"
  | Str s => s
  | Arr l => join (lit ",") l
  end.

Record body := {
  body_fps : field;
  body_scale : field;
  body_startTime : field;
  body_duration : field
}.

Record settings := {
  fps : Z;
  scale : Z;
  startTime : Num.number;
  duration : Num.number
}.

(** Lines 67-73, for a [req.body] that is an object. *)
Definition normalize (b : body) : settings :=
  {| fps := Z.max 5 (Z.min 30 (Num.orZ (Num.parseInt (toString (body_fps b))) 15));
     scale := Z.max 240 (Z.min 1920 (Num.orZ (Num.parseInt (toString (body_scale b))) 480));
     startTime := Num.max (Num.ofZ 0) (Num.or (Num.parseFloat (toString (body_startTime b))) (Num.ofZ 0));
     duration := Num.max (Num.ofZ 0) (Num.or (Num.parseFloat (toString (body_duration b))) (Num.ofZ 0)) |}.

(** Lines 67-73 as the handler runs them: reading a field of an undefined
    [req.body] raises a TypeError ([None]), which the [catch] block of the
    handler turns into a 500. *)
Definition settingsOf (form : option body) : option settings :=
  option_map normalize form.

(** The normaliser as the specification words it: parse, substitute the
    default only when the parse fails, clamp. *)
Module SpecNormalize.

Definition clampZ (lo hi : Z) (v : Z) : Z := Z.max lo (Z.min hi v).

Definition defaulted (v : option Z) (d : Z) : Z :=
  match v with Some z => z | None => d end.

Definition fps (f : field) : Z :=
  clampZ 5 30 (defaulted (Num.parseInt (toString f)) 15).

Definition scale (f : field) : Z :=
  clampZ 240 1920 (defaulted (Num.parseInt (toString f)) 480).

Definition seconds (f : field) : Num.number :=
  Num.max (Num.ofZ 0)
    (match Num.parseFloat (toString f) with
     | Num.NaN => Num.ofZ 0
     | v => v
     end).

End SpecNormalize.

(** ** PathSafety (lines 24-41) *)

Definition DQUOTE : char := 34%N.
Definition BACKSLASH : char := 92%N.
Definition SLASH : char := 47%N.

(** [filePath.replace(/"/g, '\\"')]: every double quote gets a backslash
    in front of it; nothing else changes. *)
Fixpoint escapeQuotes (filePath : jsstring) : jsstring :=
  match filePath with
  | [] => []
  | c :: r =>
      if (c =? DQUOTE)%N then BACKSLASH :: DQUOTE :: escapeQuotes r
      else c :: escapeQuotes r
  end.

Definition escapeShellPath (filePath : jsstring) : jsstring :=
  [DQUOTE] ++ escapeQuotes filePath ++ [DQUOTE].

(** [path.extname] of a POSIX path: trailing slashes are dropped, the last
    segment is the base name, and the extension runs from the last dot of the
    base name to its end; it is empty when there is no dot, when the last dot
    opens the base name, and for the base name [..]. *)
Fixpoint dropTrailing (p : jsstring) : jsstring :=
  match p with
  | [] => []
  | c :: r =>
      match dropTrailing r with
      | [] => if (c =? SLASH)%N then [] else [c]
      | r' => c :: r'
      end
  end.

Fixpoint lastSegment (p : jsstring) (seg : jsstring) : jsstring :=
  match p with
  | [] => seg
  | c :: r => if (c =? SLASH)%N then lastSegment r [] else lastSegment r (seg ++ [c])
  end.

(** The suffix starting at the last dot, and whether something precedes it. *)
Fixpoint lastDot (s : jsstring) (first : bool) : option (jsstring * bool) :=
  match s with
  | [] => None
  | c :: r =>
      match lastDot r false with
      | Some e => Some e
      | None => if (c =? Num.DOT)%N then Some (s, negb first) else None
      end
  end.

Definition extname (p : jsstring) : jsstring :=
  let base := lastSegment (dropTrailing p) [] in
  if str_eqb base (lit "..") then []
  else match lastDot base true with
       | Some (e, true) => e
       | _ => []
       end.

(** [toLowerCase], as far as it can produce an ASCII letter: the capitals A-Z
    and the Kelvin sign U+212A.  No other code unit lowercases to ASCII text,
    so membership in the ASCII allow-list below is decided as in JavaScript. *)
Definition lowerChar (c : char) : char :=
  if ((65 <=? c)%N && (c <=? 90)%N) then (c + 32)%N
  else if (c =? 8490)%N then 107%N
  else c.

Definition toLowerCase (s : jsstring) : jsstring := List.map lowerChar s.

Definition validExtensions : list jsstring :=
  [lit ".mp4"; lit ".avi"; lit ".mov"; lit ".mkv"; lit ".wmv"; lit ".flv"; lit ".webm"].

Definition isValidVideoFile (filename : jsstring) : bool :=
  existsb (str_eqb (toLowerCase (extname filename))) validExtensions.

(** ** Temporary paths (lines 61-64 and 239-240) *)

(** The template text of a timestamp: [Date.now()] is a non-negative integer
    of milliseconds, printed in decimal. *)
Definition show (t : N) : jsstring := lit (NilEmpty.string_of_uint (N.to_uint t)).

(** [path.join(tempDir, file)] on a POSIX host, for a directory already in
    normal form without a trailing slash (what [os.tmpdir()] returns) and a
    [file] that is a single path segment.  Segments containing [/] are
    outside this model: [path.join] would normalise them. *)
Definition path_join (tempDir file : jsstring) : jsstring :=
  tempDir ++ [SLASH] ++ file.

Definition gifInputPath (tempDir : jsstring) (timestamp : N) (name : jsstring) : jsstring :=
  path_join tempDir (lit "input-" ++ show timestamp ++ lit "-" ++ name).

Definition gifOutputPath (tempDir : jsstring) (timestamp : N) : jsstring :=
  path_join tempDir (lit "gif-" ++ show timestamp ++ lit ".gif").

Definition infoInputPath (tempDir : jsstring) (timestamp : N) (name : jsstring) : jsstring :=
  path_join tempDir (lit "info-" ++ show timestamp ++ lit "-" ++ name).

(** The temporary paths a job owns. *)
Inductive job_kind := GifJob | InfoJob.

Record job := {
  request_id : nat;       (* which request the job serves; no path depends on it *)
  kind : job_kind;
  timestamp : N;          (* Date.now() when the handler ran *)
  uploadName : jsstring   (* video.name *)
}.

Definition tempPaths (tempDir : jsstring) (j : job) : list jsstring :=
  match kind j with
  | GifJob => [gifInputPath tempDir (timestamp j) (uploadName j);
               gifOutputPath tempDir (timestamp j)]
  | InfoJob => [infoInputPath tempDir (timestamp j) (uploadName j)]
  end.

Definition disjointPaths (a b : list jsstring) : Prop :=
  forall p, In p a -> In p b -> False.

(** Two jobs named alike: the same millisecond, and two conversions, or two
    probes of uploads of the same name. *)
Definition namedAlike (j1 j2 : job) : Prop :=
  timestamp j1 = timestamp j2 /\
  match kind j1, kind j2 with
  | GifJob, GifJob => True
  | InfoJob, InfoJob => uploadName j1 = uploadName j2
  | _, _ => False
  end.

(** ** Regular expressions of the metadata parser *)

Module Regex.

(** The fragment the server uses: literals, greedy repetition of a character
    class with bounds, sequence, a greedy optional part, capturing groups. *)
Inductive re :=
| Lit (s : jsstring)
| Rep (p : char -> bool) (lo : nat) (hi : option nat)
| Seq (a b : re)
| Opt (a : re)
| Grp (a : re).

Definition captures := list jsstring.

(** Greedy repetition with backtracking: take one more character when the
    class and the upper bound allow it, and fall back to stopping here (legal
    once the lower bound is reached) when the rest cannot match. *)
Fixpoint rep {A} (p : char -> bool) (lo : nat) (hi : option nat) (s : jsstring)
    (k : jsstring -> option A) : option A :=
  let stop := match lo with O => k s | S _ => None end in
  match s with
  | c :: s' =>
      if p c && match hi with Some O => false | _ => true end
      then match rep p (Nat.pred lo) (option_map Nat.pred hi) s' k with
           | Some r => Some r
           | None => stop
           end
      else stop
  | [] => stop
  end.

(** A backtracking matcher in continuation-passing style; a group appends
    the text it consumed to the captures. *)
Fixpoint rmatch (r : re) (s : jsstring) (caps : captures)
    (k : jsstring -> captures -> option captures) : option captures :=
  match r with
  | Lit l => if startsWith l s then k (skipn (length l) s) caps else None
  | Rep p lo hi => rep p lo hi s (fun rest => k rest caps)
  | Seq a b => rmatch a s caps (fun rest caps' => rmatch b rest caps' k)
  | Opt a =>
      match rmatch a s caps k with
      | Some c => Some c
      | None => k s caps
      end
  | Grp a =>
      rmatch a s caps
        (fun rest caps' => k rest (caps' ++ [firstn (length s - length rest) s]))
  end.

Definition matchAt (r : re) (s : jsstring) : option captures :=
  rmatch r s [] (fun _ caps => Some caps).

(** [s.match(r)] without the [g] flag: the leftmost match; the result lists
    the captured groups 1, 2, ... *)
Fixpoint search (r : re) (s : jsstring) : option captures :=
  match matchAt r s with
  | Some c => Some c
  | None =>
      match s with
      | [] => None
      | _ :: s' => search r s'
      end
  end.

Definition seq (l : list re) : re :=
  match l with
  | [] => Lit []
  | r :: rs => fold_left Seq rs r
  end.

Definition d (lo : nat) (hi : option nat) : re := Rep Num.isDigit lo hi.

(** [/Duration: (\d{2}):(\d{2}):(\d{2})\.(\d{2})/] *)
Definition durationRe : re :=
  seq [Lit (lit "Duration: "); Grp (d 2 (Some 2)); Lit (lit ":");
       Grp (d 2 (Some 2)); Lit (lit ":"); Grp (d 2 (Some 2)); Lit (lit ".");
       Grp (d 2 (Some 2))]%nat.

(** [/(\d{3,4})x(\d{3,4})/] *)
Definition resolutionRe : re :=
  seq [Grp (d 3 (Some 4)); Lit (lit "x"); Grp (d 3 (Some 4))]%nat.

(** [/(\d+(?:\.\d+)?)\s*fps/] *)
Definition fpsRe : re :=
  seq [Grp (Seq (d 1 None) (Opt (Seq (Lit (lit ".")) (d 1 None))));
       Rep Num.isWhiteSpace 0 None; Lit (lit "fps")]%nat.

(** [/bitrate: (\d+)\s*kb\/s/] *)
Definition bitrateRe : re :=
  seq [Lit (lit "bitrate: "); Grp (d 1 None); Rep Num.isWhiteSpace 0 None;
       Lit (lit "kb/s")]%nat.

(** [m[i]] for a capture index [i >= 1]. *)
Definition group (m : captures) (i : nat) : jsstring := nth (i - 1) m [].

End Regex.

(** ** The metadata parser (lines 254-285) *)

Record metadata := {
  md_duration : Num.number;
  md_width : option (option Z);     (* [None] is JSON null; [Some None] is NaN *)
  md_height : option (option Z);
  md_fps : option Num.number;
  md_bitrate : option Num.number;
  md_filename : jsstring;
  md_fileSize : N
}.

(** [hours * 3600 + minutes * 60 + seconds + milliseconds / 100], NaN as soon
    as one operand is. *)
Definition totalSeconds (hours minutes seconds milliseconds : option Z) : Num.number :=
  match hours, minutes, seconds, milliseconds with
  | Some h, Some m, Some s, Some c =>
      Num.Fin (Qplus (inject_Z (h * 3600 + m * 60 + s)) (Qdiv (inject_Z c) (inject_Z 100)))
  | _, _, _, _ => Num.NaN
  end.

(** The body of [if (stderr) { ... }]: [None] when the duration pattern does
    not match. *)
Definition parseInfo (stderr name : jsstring) (size : N) : option metadata :=
  let durationMatch := Regex.search Regex.durationRe stderr in
  let resolutionMatch := Regex.search Regex.resolutionRe stderr in
  let fpsMatch := Regex.search Regex.fpsRe stderr in
  let bitrateMatch := Regex.search Regex.bitrateRe stderr in
  match durationMatch with
  | Some m =>
      let hours := Num.parseInt (Regex.group m 1) in
      let minutes := Num.parseInt (Regex.group m 2) in
      let seconds := Num.parseInt (Regex.group m 3) in
      let milliseconds := Num.parseInt (Regex.group m 4) in
      Some {| md_duration := totalSeconds hours minutes seconds milliseconds;
              md_width := option_map (fun r => Num.parseInt (Regex.group r 1)) resolutionMatch;
              md_height := option_map (fun r => Num.parseInt (Regex.group r 2)) resolutionMatch;
              md_fps := option_map (fun r => Num.parseFloat (Regex.group r 1)) fpsMatch;
              md_bitrate := option_map (fun r => Num.ofParsed (Num.parseInt (Regex.group r 1)))
                              bitrateMatch;
              md_filename := name;
              md_fileSize := size |}
  | None => None
  end.

(** What the duration pattern stands for, read off the specification:
    [Duration: hh:mm:ss.cc] with four fields of two decimal digits. *)
Definition durationText (h m s c : jsstring) : jsstring :=
  lit "Duration: " ++ h ++ lit ":" ++ m ++ lit ":" ++ s ++ lit "." ++ c.

(** [x] is two decimal digits that denote [v]. *)
Definition twoDigits (x : jsstring) (v : Z) : Prop :=
  exists a b : char,
    x = [a; b] /\ Num.isDigit a = true /\ Num.isDigit b = true /\
    v = 10 * (Z.of_N a - 48) + (Z.of_N b - 48).

(** After [pre], [text] goes on with a duration of [H] hours, [M] minutes,
    [S] seconds and [C] hundredths. *)
Definition durationAt (text pre : jsstring) (H M S C : Z) : Prop :=
  exists h m s c post,
    text = pre ++ durationText h m s c ++ post /\
    twoDigits h H /\ twoDigits m M /\ twoDigits s S /\ twoDigits c C.

Definition hasDuration (text : jsstring) : Prop :=
  exists pre H M S C, durationAt text pre H M S C.

(** The leftmost duration of [text]. *)
Definition firstDuration (text : jsstring) (H M S C : Z) : Prop :=
  exists pre,
    durationAt text pre H M S C /\
    forall pre' H' M' S' C',
      durationAt text pre' H' M' S' C' -> (length pre <= length pre')%nat.

(** ** The file system, the response and the handlers *)

(** What the handler hands to Express.  The [details] member, present in
    development mode only, is left out. *)
Inductive reply :=
| Json (status : Z) (error : jsstring)         (* res.status(s).json({error}) *)
| Info (md : metadata)                         (* res.json({duration, ...}) *)
| Gif (disposition : jsstring) (contentLength : N).
                                               (* the three headers and the piped file *)

Record state := {
  fs : gmap jsstring N;        (* existing files and their sizes *)
  headersSent : bool;          (* res.headersSent *)
  replies : list reply;        (* every reply issued, oldest first *)
  unlinks : list jsstring      (* every fs.unlinkSync call made, oldest first *)
}.

Definition existsSync (p : jsstring) (st : state) : bool :=
  match fs st !! p with Some _ => true | None => false end.

(** [fs.unlinkSync(p)]; [None] is the exception for a missing file. *)
Definition unlinkSync (p : jsstring) (st : state) : option state :=
  match fs st !! p with
  | Some _ =>
      Some {| fs := delete p (fs st); headersSent := headersSent st;
              replies := replies st; unlinks := unlinks st ++ [p] |}
  | None => None
  end.

(** [res.status(status).json({ error })].  A reply issued once the headers
    have gone out reaches nobody (Express raises on it); it is recorded all
    the same, as what the handler tried to report. *)
Definition json (status : Z) (error : jsstring) (st : state) : state :=
  {| fs := fs st; headersSent := true;
     replies := replies st ++ [Json status error]; unlinks := unlinks st |}.

Definition withFs (f : gmap jsstring N) (st : state) : state :=
  {| fs := f; headersSent := headersSent st; replies := replies st;
     unlinks := unlinks st |}.

Definition withHeadersSent (b : bool) (st : state) : state :=
  {| fs := fs st; headersSent := b; replies := replies st; unlinks := unlinks st |}.

(** The fresh response and bookkeeping of a request arriving on [files]. *)
Definition arrive (files : gmap jsstring N) : state :=
  {| fs := files; headersSent := false; replies := []; unlinks := [] |}.

(** [if (p && fs.existsSync(p)) fs.unlinkSync(p)] for a variable that is
    [null] until the paths are computed. *)
Definition unlinkIfExists (p : option jsstring) (st : state) : option state :=
  match p with
  | Some p => if existsSync p st then unlinkSync p st else Some st
  | None => Some st
  end.

(** Lines 207-220; an exception leaves the [try] block where it is raised. *)
Definition cleanup (inputPath outputPath : option jsstring) (st : state) : state :=
  match unlinkIfExists inputPath st with
  | Some st1 =>
      match unlinkIfExists outputPath st1 with
      | Some st2 => st2
      | None => st1
      end
  | None => st
  end.

Record upload := {
  name : jsstring;            (* video.name *)
  size : N;                   (* video.size *)
  tempFilePath : jsstring;    (* where the upload middleware stored the bytes *)
  moveRejects : bool          (* the operating system refuses to move the stored
                                 file to its destination (a name too long, a
                                 full disk): video.mv rejects and the stored
                                 file stays where it is *)
}.

Record request := {
  video : option upload;      (* req.files && req.files.video *)
  form : option body          (* req.body; undefined when the form has no
                                 text field *)
}.

(** [await video.mv(dest)]: the stored upload is renamed to [dest]; [None]
    when the move rejects, because the stored file is missing or because the
    operating system refuses; nothing has changed then. *)
Definition mv (u : upload) (dest : jsstring) (st : state) : option state :=
  if moveRejects u then None
  else
    match fs st !! tempFilePath u with
    | Some sz => Some (withFs (<[dest := sz]> (delete (tempFilePath u) (fs st))) st)
    | None => None
    end.

(** How the child process ended, as the [exit] event reports it: an exit
    code, or the name of the signal that ended it.  When the [timeout] option
    of [exec] expires, Node sends the child [SIGTERM]; a child that dies of it
    is [Signaled SIGTERM]. *)
Inductive proc_end :=
| Exited (code : Z)
| Signaled (signal : jsstring).

Definition SIGTERM : jsstring := lit "SIGTERM".

(** The [err] argument of the exec callback is null exactly for exit code 0. *)
Definition execError (e : proc_end) : bool :=
  match e with
  | Exited 0 => false
  | _ => true
  end.

(** How the transmission of the output file ended: the read stream emitted
    [end], or [error] ([flushed]: the response headers had gone out when it
    failed), or neither, the client having closed the connection before the
    file was read to its end. *)
Inductive stream_end :=
| StreamEnd
| StreamError (flushed : bool)
| StreamAborted.

(** One run of the child process and what followed, as the handler sees it. *)
Record run := {
  ending : proc_end;
  stderr : jsstring;
  written : option N;        (* the output file ffmpeg left behind, if any *)
  stream : stream_end
}.

Record gif_job := {
  inputPath : jsstring;
  outputPath : jsstring;
  stamp : N;
  params : settings
}.

(** Lines 186-196: the [exit] listener. *)
Definition onExit (j : gif_job) (e : proc_end) (st : state) : state :=
  match e with
  | Signaled sig =>
      if str_eqb sig SIGTERM then
        let st1 := cleanup (Some (inputPath j)) (Some (outputPath j)) st in
        if negb (headersSent st1)
        then json 500 (lit "Processing timed out - video may be too large or complex") st1
        else st1
      else st
  | Exited _ => st
  end.

(** Lines 114-183: the exec callback up to the start of the transmission;
    the flag tells whether the file is being streamed. *)
Definition execCallback (j : gif_job) (e : proc_end) (stderr : jsstring)
    (st : state) : state * bool :=
  if execError e then
    (json 500 (errorMessage (classify stderr)) st, false)
  else
    match fs st !! outputPath j with
    | None =>
        (json 500 (lit "GIF generation failed - no output file created") st, false)
    | Some sz =>
        if (sz =? 0)%N then
          (json 500 (lit "GIF generation failed - empty output file") st, false)
        else
          ({| fs := fs st; headersSent := headersSent st;
              replies := replies st ++
                [Gif (lit "attachment; filename=" ++ [DQUOTE] ++ lit "converted-"
                        ++ show (stamp j) ++ lit ".gif" ++ [DQUOTE]) sz];
              unlinks := unlinks st |}, true)
    end.

(** Lines 171-182: the listeners of the read stream. *)
Definition onStream (j : gif_job) (s : stream_end) (st : state) : state :=
  match s with
  | StreamEnd =>
      cleanup (Some (inputPath j)) (Some (outputPath j)) (withHeadersSent true st)
  | StreamError flushed =>
      let st1 := cleanup (Some (inputPath j)) (Some (outputPath j))
                   (withHeadersSent (headersSent st || flushed) st) in
      if negb (headersSent st1) then json 500 (lit "Failed to send GIF file") st1
      else st1
  | StreamAborted => st      (* no listener runs *)
  end.

(** The child process writes its output file; then the [exit] listener runs,
    then the exec callback (Node emits [exit] before [close], on which the
    callback is called), then the stream listeners. *)
Definition afterChild (j : gif_job) (r : run) (st : state) : state :=
  match written r with
  | Some sz => withFs (<[outputPath j := sz]> (fs st)) st
  | None => st
  end.

Definition gifAsync (j : gif_job) (r : run) (st : state) : state :=
  let st1 := onExit j (ending r) (afterChild j r st) in
  let '(st2, streaming) := execCallback j (ending r) (stderr r) st1 in
  if streaming then onStream j (stream r) st2 else st2.

(** Lines 44-113 and 197-204: the synchronous part of the [/gif] handler,
    up to the launch of the child process. *)
Definition gifSync (tempDir : jsstring) (now : N) (req : request) (st : state)
    : state * option gif_job :=
  match video req with
  | None => (json 400 (lit "No video uploaded") st, None)
  | Some v =>
      if negb (isValidVideoFile (name v)) then
        (json 400 (lit "Invalid video file format") st, None)
      else
        let inp := gifInputPath tempDir now (name v) in
        let out := gifOutputPath tempDir now in
        let caught st' :=
          (json 500 (lit "Internal server error") (cleanup (Some inp) (Some out) st'), None) in
        match settingsOf (form req) with
        | None => caught st      (* line 67: req.body is undefined, a TypeError *)
        | Some p =>
            match mv v inp st with
            | None => caught st
            | Some st1 =>
                match fs st1 !! inp with
                | None => caught st1
                | Some sz =>
                    if (sz =? 0)%N then caught st1
                    else (st1, Some {| inputPath := inp; outputPath := out; stamp := now;
                                       params := p |})
                end
            end
        end
  end.

Definition gifHandler (tempDir : jsstring) (now : N) (req : request) (r : run)
    (st : state) : state :=
  match gifSync tempDir now req st with
  | (st1, Some j) => gifAsync j r st1
  | (st1, None) => st1
  end.

(** ** Two requests in the one process

    Each request has its own response; the files are those of the host. *)

(** The listeners of a job, from the [exit] event of its child on. *)
Definition gifListeners (j : gif_job) (r : run) (st : state) : state :=
  let st1 := onExit j (ending r) st in
  let '(st2, streaming) := execCallback j (ending r) (stderr r) st1 in
  if streaming then onStream j (stream r) st2 else st2.

(** Two [/gif] requests A and B for which [Date.now()] returns the same
    [now], in this order of events: the synchronous part of A, then that of
    B; the child of B creates its output file; the child of A writes its
    own and ends, A is answered and its listeners run to the end; then the
    child of B ends and the listeners of B run.  [None] when one of the
    uploads is refused before a child is launched. *)
Definition overlapped (tempDir : jsstring) (now : N) (reqA reqB : request)
    (runA runB : run) (files : gmap jsstring N) : option (state * state) :=
  match gifSync tempDir now reqA (arrive files) with
  | (a1, Some jA) =>
      match gifSync tempDir now reqB (arrive (fs a1)) with
      | (b1, Some jB) =>
          let b2 := afterChild jB runB b1 in
          let a2 := gifAsync jA runA (withFs (fs b2) a1) in
          let b3 := gifListeners jB runB (withFs (fs a2) b2) in
          Some (a2, b3)
      | _ => None
      end
  | _ => None
  end.

(** Lines 248-290: the exec callback of [/video-info]. *)
Definition infoCallback (inp : jsstring) (v : upload) (e : proc_end)
    (stderr : jsstring) (st : state) : state :=
  match unlinkIfExists (Some inp) st with
  | None => st      (* the exception leaves the callback *)
  | Some st1 =>
      match stderr with
      | [] => json 500 (lit "FFmpeg info extraction failed") st1
      | _ :: _ =>
          match parseInfo stderr (name v) (size v) with
          | Some md =>
              {| fs := fs st1; headersSent := true;
                 replies := replies st1 ++ [Info md]; unlinks := unlinks st1 |}
          | None => json 500 (lit "Could not extract video information") st1
          end
      end
  end.

(** Lines 224-308, given the [err] and [stderr] that [exec] hands to its
    callback.  What these are for a run of the probe is [execStderr] below:
    the text ffmpeg prints is not among them. *)
Definition infoHandler (tempDir : jsstring) (now : N) (req : request)
    (e : proc_end) (stderr : jsstring) (st : state) : state :=
  match video req with
  | None => json 400 (lit "No video uploaded") st
  | Some v =>
      if negb (isValidVideoFile (name v)) then
        json 400 (lit "Invalid video file format") st
      else
        let inp := infoInputPath tempDir now (name v) in
        match mv v inp st with
        | None =>
            let st1 := match unlinkIfExists (Some inp) st with
                       | Some s => s
                       | None => st
                       end in
            json 500 (lit "Internal server error ") st1
        | Some st1 => infoCallback inp v e stderr st1
        end
  end.

(** What the child process of the probe did.  The command of [/video-info]
    ends in [2>&1] (line 246): the shell points the error stream of ffmpeg at
    its standard output, so the diagnostic text of ffmpeg reaches the callback
    in [stdout], and [stderr] holds only what the shell itself wrote on its
    own error stream. *)
Record probe_run := {
  probeEnding : proc_end;
  ffmpegOutput : jsstring;        (* written by ffmpeg on its standard output *)
  ffmpegDiagnostics : jsstring;   (* written by ffmpeg on its error stream *)
  shellComplaint : jsstring       (* written by the shell on its own error stream *)
}.

(** The [stdout] and [stderr] arguments of the callback.  The two texts of
    ffmpeg share one pipe; the callback does not read [stdout]. *)
Definition execStdout (p : probe_run) : jsstring :=
  ffmpegOutput p ++ ffmpegDiagnostics p.

Definition execStderr (p : probe_run) : jsstring := shellComplaint p.

(** The [/video-info] endpoint on a run of its probe. *)
Definition infoEndpoint (tempDir : jsstring) (now : N) (req : request)
    (p : probe_run) (st : state) : state :=
  infoHandler tempDir now req (probeEnding p) (execStderr p) st.

(** ** How [/bin/sh -c] splits a command line into arguments

    [exec] hands the command string to the shell.  This is the part of the
    POSIX quoting rules (Shell Command Language, 2.2) that decides what a
    quoted path becomes: blanks separate words; between double quotes
    everything is literal except the dollar sign and the backquote, which
    start an expansion, and the backslash, which escapes only [$], the
    backquote, the double quote, the backslash and the newline; between single
    quotes everything is literal; outside quotes a backslash makes the next
    character literal. *)

Module Shell.

Inductive result :=
| Args (argv : list jsstring)   (* the words passed to the program, all literal *)
| Expansion                     (* the shell substitutes a parameter or a command *)
| Unterminated                  (* a quote is left open: the shell rejects the line *)
| Operator.                     (* an unquoted operator, glob or comment character *)

Inductive mode := Plain | PlainEsc | Double | DoubleEsc | Single.

Definition DOLLAR : char := 36%N.
Definition BACKQUOTE : char := 96%N.
Definition SQUOTE : char := 39%N.
Definition NEWLINE : char := 10%N.

Definition isBlank (c : char) : bool := (c =? 32)%N || (c =? 9)%N.

(** [|], [&], [;], [<], [>], [(], [)], newline, and the characters that
    start a pattern, a comment or a tilde expansion. *)
Definition isOperator (c : char) : bool :=
  if decide (c ∈ [124; 38; 59; 60; 62; 40; 41; 10; 42; 63; 91; 35; 126]%N)
  then true else false.

Definition push (cur : option jsstring) (c : char) : option jsstring :=
  Some (match cur with Some w => w ++ [c] | None => [c] end).

Definition start (cur : option jsstring) : option jsstring :=
  Some (match cur with Some w => w | None => [] end).

Definition flush (cur : option jsstring) (acc : list jsstring) : list jsstring :=
  match cur with Some w => acc ++ [w] | None => acc end.

(** [cur] is the word being read ([None] between words), [acc] the words
    already complete. *)
Fixpoint lex (m : mode) (cur : option jsstring) (acc : list jsstring)
    (s : jsstring) : result :=
  match s with
  | [] =>
      match m with
      | Plain => Args (flush cur acc)
      | PlainEsc => Args (flush (push cur BACKSLASH) acc)
      | Double | DoubleEsc | Single => Unterminated
      end
  | c :: r =>
      match m with
      | Plain =>
          if isBlank c then lex Plain None (flush cur acc) r
          else if (c =? DQUOTE)%N then lex Double (start cur) acc r
          else if (c =? SQUOTE)%N then lex Single (start cur) acc r
          else if (c =? BACKSLASH)%N then lex PlainEsc cur acc r
          else if (c =? DOLLAR)%N || (c =? BACKQUOTE)%N then Expansion
          else if isOperator c then Operator
          else lex Plain (push cur c) acc r
      | PlainEsc =>
          if (c =? NEWLINE)%N then lex Plain cur acc r
          else lex Plain (push cur c) acc r
      | Double =>
          if (c =? DQUOTE)%N then lex Plain cur acc r
          else if (c =? BACKSLASH)%N then lex DoubleEsc cur acc r
          else if (c =? DOLLAR)%N || (c =? BACKQUOTE)%N then Expansion
          else lex Double (push cur c) acc r
      | DoubleEsc =>
          if (c =? DOLLAR)%N || (c =? BACKQUOTE)%N || (c =? DQUOTE)%N
             || (c =? BACKSLASH)%N
          then lex Double (push cur c) acc r
          else if (c =? NEWLINE)%N then lex Double cur acc r
          else lex Double (push (push cur BACKSLASH) c) acc r
      | Single =>
          if (c =? SQUOTE)%N then lex Plain cur acc r
          else lex Single (push cur c) acc r
      end
  end.

Definition words (command : jsstring) : result := lex Plain None [] command.

(** Characters that keep a meaning of their own between double quotes once
    the double quote itself is escaped. *)
Definition plainInQuotes (c : char) : bool :=
  negb ((c =? BACKSLASH)%N || (c =? DOLLAR)%N || (c =? BACKQUOTE)%N).

End Shell.

(** ** CommandBuilder (lines 88-109) *)

(** The template text of an integer. *)
Definition showZ (z : Z) : jsstring :=
  if z <? 0 then Num.MINUS :: show (Z.to_N (- z)) else show (Z.to_N z).

(** [n > 0] on numbers. *)
Definition isPositive (n : Num.number) : bool :=
  match n with
  | Num.NaN => false
  | Num.Infinity neg => negb neg
  | Num.Fin q => negb (Qle_bool q 0)
  end.

(** Line 105. *)
Definition filterComplex (fps scale : Z) : jsstring :=
  lit "fps=" ++ showZ fps ++ lit ",scale=" ++ showZ scale
  ++ lit ":-1:flags=lanczos,split[s0][s1];[s0]palettegen=max_colors=256:reserve_transparent=0:stats_mode=single[p];[s1][p]paletteuse=dither=floyd_steinberg:diff_mode=rectangle".

Section Command.

(** The template text of a number that need not be an integer
    ([Number.prototype.toString]); the embedding does not define it. *)
Variable numberToString : Num.number -> jsstring.

Definition gifCommand (ffmpegPath : jsstring) (j : gif_job) : jsstring :=
  escapeShellPath ffmpegPath
  ++ (if isPositive (startTime (params j))
      then lit " -ss " ++ numberToString (startTime (params j)) else [])
  ++ lit " -i " ++ escapeShellPath (inputPath j)
  ++ (if isPositive (duration (params j))
      then lit " -t " ++ numberToString (duration (params j)) else [])
  ++ lit " -filter_complex " ++ [DQUOTE]
  ++ filterComplex (fps (params j)) (scale (params j)) ++ [DQUOTE]
  ++ lit " -y"
  ++ lit " " ++ escapeShellPath (outputPath j).

(** The argument vector the command is meant to be. *)
Definition gifArgv (ffmpegPath : jsstring) (j : gif_job) : list jsstring :=
  [ffmpegPath]
  ++ (if isPositive (startTime (params j))
      then [lit "-ss"; numberToString (startTime (params j))] else [])
  ++ [lit "-i"; inputPath j]
  ++ (if isPositive (duration (params j))
      then [lit "-t"; numberToString (duration (params j))] else [])
  ++ [lit "-filter_complex"; filterComplex (fps (params j)) (scale (params j));
      lit "-y"; outputPath j].

End Command.

(** A character the shell takes literally outside quotes. *)
Definition isBare (c : char) : bool :=
  negb (Shell.isBlank c || (c =? DQUOTE)%N || (c =? Shell.SQUOTE)%N
        || (c =? BACKSLASH)%N || (c =? Shell.DOLLAR)%N
        || (c =? Shell.BACKQUOTE)%N || Shell.isOperator c).

(** A command line written word by word: a word is typed bare or between
    double quotes. *)
Inductive token :=
| Bare (w : jsstring)
| Quoted (p : jsstring).

Definition tokenText (t : token) : jsstring :=
  match t with
  | Bare w => w
  | Quoted p => escapeShellPath p
  end.

Definition tokenValue (t : token) : jsstring :=
  match t with
  | Bare w => w
  | Quoted p => p
  end.

(** The words joined by single spaces. *)
Fixpoint render (l : list token) : jsstring :=
  match l with
  | [] => []
  | [t] => tokenText t
  | t :: r => tokenText t ++ 32%N :: render r
  end.

Definition wellTyped (t : token) : Prop :=
  match t with
  | Bare w => w <> [] /\ forallb isBare w = true
  | Quoted p => forallb Shell.plainInQuotes p = true
  end.

(** A character that may stand between double quotes as it is. *)
Definition quotable (c : char) : bool :=
  Shell.plainInQuotes c && negb (c =? DQUOTE)%N.

(** The command of the [/gif] handler, word by word. *)
Definition gifTokens (numberToString : Num.number -> jsstring)
    (ffmpegPath : jsstring) (j : gif_job) : list token :=
  [Quoted ffmpegPath]
  ++ (if isPositive (startTime (params j))
      then [Bare (lit "-ss"); Bare (numberToString (startTime (params j)))] else [])
  ++ [Bare (lit "-i"); Quoted (inputPath j)]
  ++ (if isPositive (duration (params j))
      then [Bare (lit "-t"); Bare (numberToString (duration (params j)))] else [])
  ++ [Bare (lit "-filter_complex");
      Quoted (filterComplex (fps (params j)) (scale (params j)));
      Bare (lit "-y"); Quoted (outputPath j)].

(** ** The version probe (lines 321-337 and 363-371) *)

(** [/ffmpeg version ([^\s]+)/] *)
Definition versionRe : Regex.re :=
  Regex.seq [Regex.Lit (lit "ffmpeg version ");
             Regex.Grp (Regex.Rep (fun c => negb (Num.isWhiteSpace c)) 1 None)].

(** [versionMatch ? versionMatch[1] : unknown] *)
Definition versionOr (unknown stdout : jsstring) : jsstring :=
  match Regex.search versionRe stdout with
  | Some m => Regex.group m 1
  | None => unknown
  end.

Inductive test_reply :=
| NotWorking (details : jsstring)             (* 500 "FFmpeg not working" *)
| Working (version path : jsstring).          (* "FFmpeg is working" *)

(** The exec callback of [/test-ffmpeg]; [err] is [err.message] when the
    command failed. *)
Definition testFfmpeg (ffmpegPath : jsstring) (err : option jsstring)
    (stdout : jsstring) : test_reply :=
  match err with
  | Some message => NotWorking message
  | None => Working (versionOr (lit "Unknown") stdout) ffmpegPath
  end.

(** ** What a pattern can consume *)

(** The texts a pattern stands for, captures aside. *)
Fixpoint lang (r : Regex.re) (w : jsstring) : Prop :=
  match r with
  | Regex.Lit l => w = l
  | Regex.Rep p lo hi =>
      Forall (fun c => p c = true) w /\ (lo <= length w)%nat /\
      match hi with Some h => (length w <= h)%nat | None => True end
  | Regex.Seq a b => exists u v, w = u ++ v /\ lang a u /\ lang b v
  | Regex.Opt a => w = [] \/ lang a w
  | Regex.Grp a => lang a w
  end.

Fixpoint groupless (r : Regex.re) : bool :=
  match r with
  | Regex.Lit _ | Regex.Rep _ _ _ => true
  | Regex.Seq a b => groupless a && groupless b
  | Regex.Opt a => groupless a
  | Regex.Grp _ => false
  end.

(** A text made of decimal digits only, at least one. *)
Definition allDigits (ds : jsstring) : Prop :=
  ds <> [] /\ Forall (fun c => Num.isDigit c = true) ds.

(** [pre ++ ext ++ slashes] ends in [ext] up to trailing slashes. *)
Definition endsWithExt (filename ext : jsstring) : Prop :=
  exists pre slashes,
    filename = pre ++ ext ++ slashes /\ Forall (fun c => c = SLASH) slashes.

(** The longest prefix of [s] whose characters all satisfy [p], and what
    follows it. *)
Fixpoint leadingRun (p : char -> bool) (s : jsstring) : jsstring :=
  match s with
  | c :: r => if p c then c :: leadingRun p r else []
  | [] => []
  end.

Fixpoint afterRun (p : char -> bool) (s : jsstring) : jsstring :=
  match s with
  | c :: r => if p c then afterRun p r else s
  | [] => []
  end.

Definition notSpace (c : char) : bool := negb (Num.isWhiteSpace c).

(** ** What the optional fields of the metadata are read from *)

(** The number a run of decimal digits denotes. *)
Definition numeral (ds : jsstring) : Z :=
  fold_left (fun a c => a * 10 + (Z.of_N c - 48)) ds 0.

(** Between [lo] and [hi] decimal digits. *)
Definition digitRun (lo hi : nat) (w : jsstring) : Prop :=
  Forall (fun c => Num.isDigit c = true) w /\ (lo <= length w <= hi)%nat.

(** [t] does not go on with a character of the class [p]. *)
Definition stopsAt (p : char -> bool) (t : jsstring) : Prop :=
  match t with
  | c :: _ => p c = false
  | [] => True
  end.

Definition blank (ws : jsstring) : Prop :=
  Forall (fun c => Num.isWhiteSpace c = true) ws.

(** The leftmost place of [text] where a shape starts, and what starts
    there; a text in which the shape starts nowhere. *)
Definition leftmost {X} (shape : X -> jsstring -> Prop) (text : jsstring) (x : X) : Prop :=
  exists pre rest,
    text = pre ++ rest /\ shape x rest /\
    forall pre' rest' x',
      text = pre' ++ rest' -> shape x' rest' -> (length pre <= length pre')%nat.

Definition nowhere {X} (shape : X -> jsstring -> Prop) (text : jsstring) : Prop :=
  forall pre rest x, text = pre ++ rest -> ~ shape x rest.

(** [t] starts with a resolution: three or four digits, an [x], and three
    or four digits, four when there are four. *)
Definition resolutionStarts (wh : jsstring * jsstring) (t : jsstring) : Prop :=
  exists post,
    t = fst wh ++ lit "x" ++ snd wh ++ post /\
    digitRun 3 4 (fst wh) /\ digitRun 3 4 (snd wh) /\
    (length (snd wh) = 4%nat \/ stopsAt Num.isDigit post).

(** The text of a decimal number with integer part [ip] and fraction [fp],
    the fraction being empty when there is no point. *)
Definition decimalText (ip fp : jsstring) : jsstring :=
  ip ++ match fp with [] => [] | _ => lit "." ++ fp end.

(** [t] starts with a frame rate: a decimal number, blanks if any, and
    [fps]. *)
Definition frameRateStarts (n : jsstring * jsstring) (t : jsstring) : Prop :=
  exists ws post,
    t = decimalText (fst n) (snd n) ++ ws ++ lit "fps" ++ post /\
    allDigits (fst n) /\ Forall (fun c => Num.isDigit c = true) (snd n) /\ blank ws.

(** [t] starts with a bitrate: [bitrate: ], digits, blanks if any, and
    [kb/s]. *)
Definition bitrateStarts (ds : jsstring) (t : jsstring) : Prop :=
  exists ws post,
    t = lit "bitrate: " ++ ds ++ ws ++ lit "kb/s" ++ post /\
    allDigits ds /\ blank ws.

(** The number the decimal [ip.fp] denotes, in the range of binary64. *)
Definition decimalNumber (ip fp : jsstring) : Num.number :=
  Num.toNumber (Qmult (inject_Z (numeral (ip ++ fp)))
                      (Qpower (inject_Z 10) (- Z.of_nat (length fp)))).

(** ** What [parseInt] is documented to read

    ECMAScript, [parseInt(string)] without a radix: white space at the start
    is skipped; a sign may follow; [0x] or [0X] then selects radix 16, and
    radix 10 is used otherwise; the result is the number that the longest run
    of digits of the radix denotes, negated after a minus sign, and NaN when
    no digit is there. *)

Definition isSign (c : char) : bool := (c =? Num.MINUS)%N || (c =? Num.PLUS)%N.

Definition isHexDigit (c : char) : bool :=
  Num.isDigit c || ((97 <=? c)%N && (c <=? 102)%N) || ((65 <=? c)%N && (c <=? 70)%N).

Definition hexValue (c : char) : Z :=
  if Num.isDigit c then Z.of_N c - 48
  else if (97 <=? c)%N then Z.of_N c - 87
  else Z.of_N c - 55.

(** The number a run of hexadecimal digits denotes. *)
Definition hexNumeral (hs : jsstring) : Z :=
  fold_left (fun a c => a * 16 + hexValue c) hs 0.

(** [t] is blanks, then a sign if there is one, then [u]. *)
Inductive signedText : jsstring -> bool -> jsstring -> Prop :=
| unsigned_text (ws u : jsstring) :
    blank ws -> stopsAt Num.isWhiteSpace u -> stopsAt isSign u ->
    signedText (ws ++ u) false u
| plus_text (ws u : jsstring) :
    blank ws -> signedText (ws ++ Num.PLUS :: u) false u
| minus_text (ws u : jsstring) :
    blank ws -> signedText (ws ++ Num.MINUS :: u) true u.

(** [u] starts with [0x] or [0X]. *)
Definition hexPrefixed (u : jsstring) : Prop :=
  exists x rest, u = 48%N :: x :: rest /\ (x = 120%N \/ x = 88%N).

(** The number at the start of [u], if there is one. *)
Inductive magnitude : jsstring -> option Z -> Prop :=
| hex_magnitude (x : char) (hs rest : jsstring) :
    x = 120%N \/ x = 88%N ->
    hs <> [] -> Forall (fun c => isHexDigit c = true) hs -> stopsAt isHexDigit rest ->
    magnitude (48%N :: x :: hs ++ rest) (Some (hexNumeral hs))
| hex_nothing (x : char) (rest : jsstring) :
    x = 120%N \/ x = 88%N -> stopsAt isHexDigit rest ->
    magnitude (48%N :: x :: rest) None
| decimal_magnitude (ds rest : jsstring) :
    allDigits ds -> stopsAt Num.isDigit rest -> ~ hexPrefixed (ds ++ rest) ->
    magnitude (ds ++ rest) (Some (numeral ds))
| no_magnitude (u : jsstring) :
    stopsAt Num.isDigit u -> magnitude u None.

(** [parseInt(t)] is documented to return [v]; [None] is NaN. *)
Definition integerRead (t : jsstring) (v : option Z) : Prop :=
  exists neg u m,
    signedText t neg u /\ magnitude u m /\
    v = option_map (fun z => if neg then - z else z) m.

(** The amended reading of an integer field [f] with default [d] and range
    [lo..hi]: the default when the field is absent, when no number is read
    and when the number read is 0; the number read, clamped, otherwise. *)
Definition integerField (f : field) (d lo hi : Z) (x : Z) : Prop :=
  (f = Undefined -> x = d) /\
  forall v, integerRead (toString f) v ->
    x = match v with
        | Some z => if z =? 0 then d else SpecNormalize.clampZ lo hi z
        | None => d
        end.

(** The reading of a field of seconds [f], as specified: what the
    normaliser of the specification gives; in particular 0 when the field is
    absent, the number itself for a plain decimal number, and 0 for a
    negative one. *)
Definition secondsField (f : field) (x : Num.number) : Prop :=
  Num.same x (SpecNormalize.seconds f) /\
  (f = Undefined -> x = Num.ofZ 0) /\
  (forall ip fp,
      allDigits ip -> Forall (fun c => Num.isDigit c = true) fp ->
      (f = Str (decimalText ip fp) -> Num.same x (decimalNumber ip fp)) /\
      (f = Str (Num.MINUS :: decimalText ip fp) -> Num.same x (Num.ofZ 0))).

(** ** Vocabulary for the handlers' replies *)

(** The request is turned away by the validation at the top of a handler:
    no file was uploaded, or its name has no allowed extension. *)
Definition rejected (req : request) : Prop :=
  video req = None \/
  exists v, video req = Some v /\ isValidVideoFile (name v) = false.

(** A reply other than a 400. *)
Definition not400 (x : reply) : Prop :=
  match x with
  | Json status _ => status <> 400
  | _ => True
  end.

(** ** Concrete requests used in the examples below *)

Module Sample.

Definition jobA : job :=
  {| request_id := 1; kind := GifJob; timestamp := 1700000000000%N;
     uploadName := lit "a.mp4" |}.

(** Another request, served in the same millisecond. *)
Definition jobB : job :=
  {| request_id := 2; kind := GifJob; timestamp := 1700000000000%N;
     uploadName := lit "b.mp4" |}.

(** A request served one millisecond later, with the same upload name. *)
Definition jobLater : job :=
  {| request_id := 3; kind := GifJob; timestamp := 1700000000001%N;
     uploadName := lit "a.mp4" |}.

(** The form [fps=0&scale=0]. *)
Definition zeroForm : body :=
  {| body_fps := Str (lit "0"); body_scale := Str (lit "0");
     body_startTime := Undefined; body_duration := Undefined |}.

(** An upload name with a double quote and a command substitution; its
    extension is on the allow-list. *)
Definition hostileName : jsstring := lit "a" ++ [DQUOTE] ++ lit "$(id).mp4".

Definition hostilePath : jsstring :=
  gifInputPath (lit "/tmp") 1700000000000%N hostileName.

(** A path with a backslash in front of a double quote. *)
Definition backslashPath : jsstring :=
  lit "/tmp/a" ++ [BACKSLASH; DQUOTE] ++ lit "b.mp4".

(** A path with a space and a double quote only. *)
Definition quotedPath : jsstring :=
  lit "/tmp/my clip" ++ [DQUOTE] ++ lit ".mp4".

Definition clip : upload :=
  {| name := lit "clip.mp4"; size := 2048%N;
     tempFilePath := lit "/tmp/tmp-1-1700000000000"; moveRejects := false |}.

(** The same upload when the operating system refuses to move it. *)
Definition stuckClip : upload :=
  {| name := lit "clip.mp4"; size := 2048%N;
     tempFilePath := lit "/tmp/tmp-1-1700000000000"; moveRejects := true |}.

Definition files : gmap jsstring N := {[ tempFilePath clip := 2048%N ]}.

(** A second upload, stored beside the first. *)
Definition otherClip : upload :=
  {| name := lit "other.mp4"; size := 4096%N;
     tempFilePath := lit "/tmp/tmp-2-1700000000000"; moveRejects := false |}.

Definition bothFiles : gmap jsstring N :=
  {[ tempFilePath clip := 2048%N; tempFilePath otherClip := 4096%N ]}.

Definition postForm : body :=
  {| body_fps := Str (lit "12"); body_scale := Str (lit "320");
     body_startTime := Undefined; body_duration := Undefined |}.

Definition post : request := {| video := Some clip; form := Some postForm |}.

Definition otherPost : request := {| video := Some otherClip; form := Some postForm |}.

(** The same upload with no text field in the form. *)
Definition bareForm : request := {| video := Some clip; form := None |}.

Definition clipInput : jsstring :=
  gifInputPath (lit "/tmp") 1700000000000%N (lit "clip.mp4").

Definition clipOutput : jsstring := gifOutputPath (lit "/tmp") 1700000000000%N.

(** ffmpeg rejects the file and exits with status 1. *)
Definition failedRun : run :=
  {| ending := Exited 1;
     stderr := lit "clip.mp4: Invalid data found when processing input";
     written := None; stream := StreamEnd |}.

(** ffmpeg exits with status 0 and leaves no output file. *)
Definition missingRun : run :=
  {| ending := Exited 0; stderr := []; written := None; stream := StreamEnd |}.

(** ffmpeg exits with status 0 and leaves an empty output file. *)
Definition emptyRun : run :=
  {| ending := Exited 0; stderr := []; written := Some 0%N; stream := StreamEnd |}.

(** The 120 s deadline expires: the child is sent SIGTERM; it had written
    part of the output. *)
Definition timeoutRun : run :=
  {| ending := Signaled SIGTERM; stderr := lit "frame=  100 fps= 25";
     written := Some 100%N; stream := StreamEnd |}.

(** A conversion that succeeds and is sent in full. *)
Definition goodRun : run :=
  {| ending := Exited 0; stderr := lit "frame=  120 fps= 25";
     written := Some 4096%N; stream := StreamEnd |}.

(** A conversion that succeeds, and a client that closes the connection
    while the file is being sent. *)
Definition abortedRun : run :=
  {| ending := Exited 0; stderr := lit "frame=  120 fps= 25";
     written := Some 4096%N; stream := StreamAborted |}.

Definition handle (r : run) : state :=
  gifHandler (lit "/tmp") 1700000000000%N post r (arrive files).

Definition clipInfoInput : jsstring :=
  infoInputPath (lit "/tmp") 1700000000000%N (lit "clip.mp4").

(** The probe of [/video-info] ended as [e], the callback being handed
    [text] as its [stderr] argument. *)
Definition probe (e : proc_end) (text : jsstring) : state :=
  infoHandler (lit "/tmp") 1700000000000%N post e text (arrive files).

(** The probe ended as [e]; ffmpeg printed [text] as its diagnostics and the
    shell had nothing to say. *)
Definition probeRun (e : proc_end) (text : jsstring) : state :=
  infoEndpoint (lit "/tmp") 1700000000000%N post
    {| probeEnding := e; ffmpegOutput := []; ffmpegDiagnostics := text;
       shellComplaint := [] |}
    (arrive files).

Definition durationLine : jsstring :=
  durationText (lit "00") (lit "01") (lit "05") (lit "50")
    ++ lit ", start: 0.000000, bitrate: 1205 kb/s".

Definition NEWLINE : char := 10%N.

(** The lines of ffmpeg about the container and its video stream. *)
Definition streamText : jsstring :=
  durationLine ++ [NEWLINE]
    ++ lit "  Stream #0:0: Video: h264, yuv420p, 1280x720, 1100 kb/s, 25 fps, 25 tbr".

(** A duration line whose bitrate is a run of 400 digits. *)
Definition longBitrate : jsstring :=
  lit "  Duration: 00:01:05.50, start: 0.000000, bitrate: "
    ++ repeat 57%N 400 ++ lit " kb/s".

End Sample.

(** * Properties *)

(** ** Lemmas on strings *)

Lemma startsWith_spec (p s : jsstring) :
  startsWith p s = true <-> exists post, s = p ++ post.
Proof.
  revert s. induction p as [|a p IH]; intros s; simpl.
  - split; [intros _; exists s; reflexivity | reflexivity].
  - destruct s as [|b s].
    + split; [discriminate | intros [post H]; discriminate].
    + rewrite andb_true_iff, N.eqb_eq, IH. split.
      * intros [-> [post ->]]. exists post. reflexivity.
      * intros [post H]. injection H as -> ->. eauto.
Qed.





(** ** ParameterNormalizer *)

Lemma orZ_cases (v : option Z) (d : Z) :
  Num.orZ v d = match v with
                | Some z => if z =? 0 then d else z
                | None => d
                end.
Proof. destruct v as [[| |]|]; reflexivity. Qed.

Lemma max_zero_nonneg (n : Num.number) :
  n <> Num.NaN -> Num.nonneg (Num.max (Num.ofZ 0) n).
Proof.
  intros Hn. destruct n as [|[|]|q]; try congruence; try reflexivity.
  unfold Num.nonneg, Num.max, Num.ofZ. cbn [Num.leb].
  destruct (Qle_bool (inject_Z 0) q) eqn:E; cbn [Num.leb].
  - exact E.
  - reflexivity.
Qed.

Lemma or_zero_not_NaN (n : Num.number) : Num.or n (Num.ofZ 0) <> Num.NaN.
Proof. destruct n as [|b|q]; unfold Num.or; simpl; try discriminate.
  destruct (Qeq_bool q 0); discriminate. Qed.

(** Whatever the four fields of a form hold (absent, a string of any
    content, a repeated field), the settings read from it have fps in
    [5,30], scale in [240,1920], and a start offset and a duration that are
    numbers not below 0. *)
Lemma normalize_in_range (b : body) :
  5 <= fps (normalize b) <= 30 /\
  240 <= scale (normalize b) <= 1920 /\
  Num.nonneg (startTime (normalize b)) /\
  Num.nonneg (duration (normalize b)).
Proof.
  unfold normalize; cbn [fps scale startTime duration].
  repeat split; try lia; apply max_zero_nonneg, or_zero_not_NaN.
Qed.

(** ** Temporary paths *)

Lemma lit_inj (a b : string) : lit a = lit b -> a = b.
Proof.
  unfold lit. intros H.
  rewrite <- (string_of_list_ascii_of_string a), <- (string_of_list_ascii_of_string b).
  f_equal. revert H. generalize (list_ascii_of_string b).
  induction (list_ascii_of_string a) as [|x xs IH]; intros [|y ys] H;
    simpl in H; try discriminate; [reflexivity|].
  injection H as Hx Hxs. f_equal.
  - rewrite <- (ascii_N_embedding x), <- (ascii_N_embedding y). congruence.
  - apply IH; exact Hxs.
Qed.

Lemma show_inj (a b : N) : show a = show b -> a = b.
Proof.
  unfold show. intros H. apply lit_inj in H.
  assert (E : Some (N.to_uint a) = Some (N.to_uint b)).
  { rewrite <- !NilEmpty.usu. congruence. }
  injection E as E.
  rewrite <- (Unsigned.of_to a), <- (Unsigned.of_to b). congruence.
Qed.

Lemma show_digits (t : N) : Forall (fun c => Num.isDigit c = true) (show t).
Proof.
  unfold show. induction (N.to_uint t); cbn; constructor; try reflexivity; assumption.
Qed.

(** Two texts made of a run of digits and then a character that is no digit
    agree on the run when they are equal. *)
Lemma digits_then_stop (ds1 ds2 : jsstring) (x y : char) (r1 r2 : jsstring) :
  Forall (fun c => Num.isDigit c = true) ds1 ->
  Forall (fun c => Num.isDigit c = true) ds2 ->
  Num.isDigit x = false -> Num.isDigit y = false ->
  ds1 ++ x :: r1 = ds2 ++ y :: r2 -> ds1 = ds2 /\ r1 = r2.
Proof.
  intros H1. revert ds2. induction H1 as [|c ds1 Hc _ IH]; intros ds2 H2 Hx Hy E.
  - destruct H2 as [|d ds2 Hd _]; simpl in E.
    + injection E as _ E. auto.
    + injection E as E _. congruence.
  - destruct H2 as [|d ds2 Hd H2]; simpl in E.
    + injection E as E _. congruence.
    + injection E as -> E. destruct (IH ds2 H2 Hx Hy E) as [-> ->]. auto.
Qed.

Lemma gifOutputPath_inj (dir : jsstring) (t1 t2 : N) :
  gifOutputPath dir t1 = gifOutputPath dir t2 -> t1 = t2.
Proof.
  unfold gifOutputPath, path_join. intros H.
  apply app_inv_head in H. injection H as H.
  apply show_inj.
  change (lit ".gif") with (Num.DOT :: lit "gif") in H.
  eapply digits_then_stop in H; try apply show_digits; try reflexivity.
  apply H.
Qed.

Lemma stamped_name_inj (pre : jsstring) (dir : jsstring) (t1 t2 : N) (n1 n2 : jsstring) :
  path_join dir (pre ++ show t1 ++ lit "-" ++ n1)
  = path_join dir (pre ++ show t2 ++ lit "-" ++ n2) ->
  t1 = t2 /\ n1 = n2.
Proof.
  unfold path_join. intros H.
  apply app_inv_head in H. injection H as H. apply app_inv_head in H.
  change (lit "-") with [Num.MINUS] in H. simpl in H.
  eapply digits_then_stop in H; try apply show_digits; try reflexivity.
  destruct H as [H ->]. split; [apply show_inj; exact H | reflexivity].
Qed.

(** Which jobs share a temporary path: exactly those named alike.  The
    millisecond of [Date.now()] is the only token in the names; the request
    a job serves is in none of them. *)
Lemma tempPaths_meet (tempDir : jsstring) (j1 j2 : job) :
  disjointPaths (tempPaths tempDir j1) (tempPaths tempDir j2) <-> ~ namedAlike j1 j2.
Proof.
  unfold namedAlike, tempPaths. split.
  - intros D [Ht K]. destruct (kind j1), (kind j2); try contradiction.
    + apply (D (gifOutputPath tempDir (timestamp j1))).
      * right; left; reflexivity.
      * right; left. rewrite Ht. reflexivity.
    + apply (D (infoInputPath tempDir (timestamp j1) (uploadName j1))).
      * left; reflexivity.
      * left. rewrite Ht, K. reflexivity.
  - intros N p H1 H2. apply N. clear N.
    destruct (kind j1), (kind j2); simpl in H1, H2;
      repeat match goal with
      | H : _ \/ _ |- _ => destruct H
      | H : False |- _ => destruct H
      end; subst p;
      unfold gifInputPath, gifOutputPath, infoInputPath in *;
      match goal with
      | H : path_join _ (lit ?a ++ _) = path_join _ (lit ?a ++ show _ ++ lit "-" ++ _) |- _ =>
          apply stamped_name_inj in H; destruct H;
          split; [congruence | first [exact I | congruence]]
      | H : path_join _ (lit "gif-" ++ _) = path_join _ (lit "gif-" ++ _) |- _ =>
          apply gifOutputPath_inj in H; split; [congruence | exact I]
      | H : path_join _ _ = path_join _ _ |- _ =>
          unfold path_join in H; apply app_inv_head in H; cbn in H; discriminate
      end.
Qed.

(** C9. Two conversions for which [Date.now()] returns the same millisecond
    share their output path, whatever the requests and the upload names are.
    One of two such requests then fails: when the first has been answered,
    its cleanup unlinks the file of both, and the callback of the second,
    whose child exited with status 0, finds no output file.  The second
    request is answered 500 and its input file stays. *)
Theorem same_millisecond_jobs_collide (tempDir : jsstring) (j1 j2 : job) :
  kind j1 = GifJob -> kind j2 = GifJob -> timestamp j1 = timestamp j2 ->
  (In (gifOutputPath tempDir (timestamp j1)) (tempPaths tempDir j1) /\
   In (gifOutputPath tempDir (timestamp j1)) (tempPaths tempDir j2) /\
   ~ disjointPaths (tempPaths tempDir j1) (tempPaths tempDir j2)) /\
  exists a b,
    overlapped (lit "/tmp") 1700000000000 Sample.post Sample.otherPost
      Sample.goodRun Sample.goodRun Sample.bothFiles = Some (a, b) /\
    (exists disposition, replies a = [Gif disposition 4096%N]) /\
    replies b = [Json 500 (lit "GIF generation failed - no output file created")] /\
    unlinks b = [] /\
    fs b !! gifInputPath (lit "/tmp") 1700000000000 (lit "other.mp4") = Some 4096%N.
Proof.
  intros K1 K2 Ht. split.
  - unfold tempPaths. rewrite K1, K2, Ht.
    assert (In (gifOutputPath tempDir (timestamp j2))
              [gifInputPath tempDir (timestamp j2) (uploadName j1);
               gifOutputPath tempDir (timestamp j2)]) by (right; left; reflexivity).
    assert (In (gifOutputPath tempDir (timestamp j2))
              [gifInputPath tempDir (timestamp j2) (uploadName j2);
               gifOutputPath tempDir (timestamp j2)]) by (right; left; reflexivity).
    repeat split; try assumption. intros D. eapply D; eassumption.
  - do 2 eexists. split; [vm_compute; reflexivity|].
    split; [eexists; reflexivity|]. cbn [replies unlinks fs].
    split; [reflexivity|]. split; [reflexivity|]. vm_compute. reflexivity.
Qed.

Lemma same_millisecond_jobs_collide_witness :
  Sample.jobA <> Sample.jobB /\
  ~ disjointPaths (tempPaths (lit "/tmp") Sample.jobA) (tempPaths (lit "/tmp") Sample.jobB).
Proof.
  split; [discriminate|].
  exact (proj2 (proj2 (proj1 (same_millisecond_jobs_collide (lit "/tmp") Sample.jobA
                                Sample.jobB eq_refl eq_refl eq_refl)))).
Defined.

(** ** PathSafety *)

(** Between double quotes, an escaped path without backslash, dollar sign or
    backquote is read back as itself. *)
Lemma lex_escapeQuotes (p : jsstring) :
  forallb Shell.plainInQuotes p = true ->
  forall (w : jsstring) (acc : list jsstring) (rest : jsstring),
    Shell.lex Shell.Double (Some w) acc (escapeQuotes p ++ rest)
    = Shell.lex Shell.Double (Some (w ++ p)) acc rest.
Proof.
  induction p as [|c p IH]; intros Hp w acc rest.
  - simpl. rewrite app_nil_r. reflexivity.
  - simpl in Hp. apply andb_true_iff in Hp as [Hc Hp].
    unfold Shell.plainInQuotes in Hc. apply negb_true_iff in Hc.
    apply orb_false_iff in Hc as [Hc Hq]. apply orb_false_iff in Hc as [Hb Hd].
    cbn [escapeQuotes]. destruct (N.eqb_spec c DQUOTE) as [->|Hne].
    + cbn. unfold Shell.push. rewrite (IH Hp). rewrite <- app_assoc. reflexivity.
    + cbn [app Shell.lex]. apply N.eqb_neq in Hne. rewrite Hne, Hb, Hd, Hq.
      cbn [orb]. unfold Shell.push. rewrite (IH Hp). rewrite <- app_assoc. reflexivity.
Qed.

(** A path whose only special characters are spaces and quotes reaches the
    program as one argument, unchanged. *)
Lemma escapeShellPath_plain (p : jsstring) :
  forallb Shell.plainInQuotes p = true ->
  Shell.words (escapeShellPath p) = Shell.Args [p].
Proof.
  intros Hp. unfold Shell.words, escapeShellPath.
  cbn [app Shell.lex Shell.isBlank]. cbn. unfold Shell.start.
  rewrite (lex_escapeQuotes p Hp). reflexivity.
Qed.

Example escapeShellPath_quotedPath :
  Shell.words (escapeShellPath Sample.quotedPath) = Shell.Args [Sample.quotedPath].
Proof. apply escapeShellPath_plain. reflexivity. Qed.

(** C3. On a path that holds a double quote and a dollar sign, the quoted
    text makes the shell run a substitution instead of passing the name; on a
    path with a backslash before a double quote, the quoted text ends early
    and leaves a quote open.  In both cases the program does not receive the
    path as one literal argument.  The first path is the input path of an
    upload whose name passes the extension check. *)
Theorem escapeShellPath_misses_shell_characters :
  isValidVideoFile Sample.hostileName = true /\
  In DQUOTE Sample.hostilePath /\
  Shell.words (escapeShellPath Sample.hostilePath) = Shell.Expansion /\
  Shell.words (escapeShellPath Sample.hostilePath) <> Shell.Args [Sample.hostilePath] /\
  In DQUOTE Sample.backslashPath /\
  Shell.words (escapeShellPath Sample.backslashPath) = Shell.Unterminated /\
  Shell.words (escapeShellPath Sample.backslashPath) <> Shell.Args [Sample.backslashPath].
Proof.
  repeat split; try (vm_compute; congruence).
  - vm_compute. tauto.
  - vm_compute. tauto.
Qed.

(** ** ResourceJanitor and JobSupervisor *)

Lemma unlinkIfExists_response (p : option jsstring) (st st' : state) :
  unlinkIfExists p st = Some st' ->
  replies st' = replies st /\ headersSent st' = headersSent st.
Proof.
  unfold unlinkIfExists, unlinkSync, existsSync. intros H.
  destruct p as [p|]; [|injection H as <-; auto].
  destruct (fs st !! p); injection H as <-; auto.
Qed.

Lemma unlinkIfExists_total (p : option jsstring) (st : state) :
  exists st', unlinkIfExists p st = Some st'.
Proof.
  unfold unlinkIfExists, unlinkSync, existsSync.
  destruct p as [p|]; [|eauto]. destruct (fs st !! p); eauto.
Qed.

Lemma cleanup_response (i o : option jsstring) (st : state) :
  replies (cleanup i o st) = replies st /\
  headersSent (cleanup i o st) = headersSent st.
Proof.
  unfold cleanup.
  destruct (unlinkIfExists i st) as [st1|] eqn:E1; [|auto].
  apply unlinkIfExists_response in E1 as [R1 S1].
  destruct (unlinkIfExists o st1) as [st2|] eqn:E2; [|auto].
  apply unlinkIfExists_response in E2 as [R2 S2]. split; congruence.
Qed.

(** What the guarded unlink does, in one equation. *)
Lemma unlinkIfExists_eq (p : jsstring) (st : state) :
  unlinkIfExists (Some p) st
  = Some {| fs := delete p (fs st); headersSent := headersSent st;
            replies := replies st;
            unlinks := unlinks st ++ (if existsSync p st then [p] else []) |}.
Proof.
  unfold unlinkIfExists, existsSync, unlinkSync.
  destruct (fs st !! p) eqn:E; [reflexivity|].
  rewrite (delete_id _ _ E), app_nil_r. destruct st; reflexivity.
Qed.

Lemma cleanup_eq (i o : jsstring) (st : state) :
  cleanup (Some i) (Some o) st
  = {| fs := delete o (delete i (fs st)); headersSent := headersSent st;
       replies := replies st;
       unlinks := (unlinks st ++ (if existsSync i st then [i] else []))
                  ++ (match delete i (fs st) !! o with Some _ => [o] | None => [] end) |}.
Proof.
  unfold cleanup. rewrite unlinkIfExists_eq, unlinkIfExists_eq.
  cbn [fs headersSent replies unlinks]. do 2 f_equal.
  unfold existsSync. cbn [fs].
  destruct (delete i (fs st) !! o); reflexivity.
Qed.

Lemma cleanup_lookup (i o p : jsstring) (st : state) :
  fs (cleanup (Some i) (Some o) st) !! p
  = if decide (p = i \/ p = o) then None else fs st !! p.
Proof.
  rewrite cleanup_eq. cbn [fs].
  destruct (decide (p = i \/ p = o)) as [[->| ->]|N].
  - destruct (decide (i = o)) as [->|Hne].
    + apply lookup_delete_eq.
    + rewrite lookup_delete_ne by congruence. apply lookup_delete_eq.
  - apply lookup_delete_eq.
  - rewrite !lookup_delete_ne by (intros ->; tauto). reflexivity.
Qed.

(** Whatever the nonzero exit status and the diagnostic text, the error
    branch of the exec callback replies and returns: no file is unlinked. *)
Lemma failure_branch_skips_cleanup (j : gif_job) (r : run) (st : state) (c : Z) :
  ending r = Exited c -> c <> 0 ->
  gifAsync j r st = json 500 (errorMessage (classify (stderr r))) (afterChild j r st).
Proof.
  intros E Hc. unfold gifAsync. rewrite E. cbn [onExit].
  unfold execCallback. destruct c; [congruence | reflexivity | reflexivity].
Qed.

(** C1. A request whose conversion fails keeps its temporary files: when
    ffmpeg exits with status 1, when it exits with status 0 without an output
    file, and when it leaves an empty output file, the handler replies 500
    and never calls [unlinkSync]; the input file (and the empty output file)
    is still there when the request is over. *)
Theorem gif_error_branches_leave_files :
  (replies (Sample.handle Sample.failedRun)
     = [Json 500 (lit "Invalid or corrupted video file")] /\
   unlinks (Sample.handle Sample.failedRun) = [] /\
   fs (Sample.handle Sample.failedRun) !! Sample.clipInput = Some 2048%N) /\
  (replies (Sample.handle Sample.missingRun)
     = [Json 500 (lit "GIF generation failed - no output file created")] /\
   unlinks (Sample.handle Sample.missingRun) = [] /\
   fs (Sample.handle Sample.missingRun) !! Sample.clipInput = Some 2048%N) /\
  (replies (Sample.handle Sample.emptyRun)
     = [Json 500 (lit "GIF generation failed - empty output file")] /\
   unlinks (Sample.handle Sample.emptyRun) = [] /\
   fs (Sample.handle Sample.emptyRun) !! Sample.clipInput = Some 2048%N /\
   fs (Sample.handle Sample.emptyRun) !! Sample.clipOutput = Some 0%N).
Proof. vm_compute. repeat split. Qed.

(** The sibling paths do clean up: after a timeout and after a transmission
    that ended, both files were unlinked once and nothing is left. *)
Example gif_cleanup_on_timeout_and_success :
  unlinks (Sample.handle Sample.timeoutRun) = [Sample.clipInput; Sample.clipOutput] /\
  fs (Sample.handle Sample.timeoutRun) !! Sample.clipInput = None /\
  fs (Sample.handle Sample.timeoutRun) !! Sample.clipOutput = None /\
  unlinks (Sample.handle Sample.goodRun) = [Sample.clipInput; Sample.clipOutput] /\
  fs (Sample.handle Sample.goodRun) !! Sample.clipInput = None /\
  fs (Sample.handle Sample.goodRun) !! Sample.clipOutput = None.
Proof. vm_compute. repeat split. Qed.

(** A child ended by SIGTERM is reported twice on [/gif]: the exit listener
    issues the timeout reply, then the exec callback, whose error argument is
    set, issues the reply of a failed process. *)
Lemma deadline_reported_twice (j : gif_job) (text : jsstring) (st : state) :
  headersSent st = false ->
  replies (fst (execCallback j (Signaled SIGTERM) text
                  (onExit j (Signaled SIGTERM) st)))
  = replies st ++
      [Json 500 (lit "Processing timed out - video may be too large or complex");
       Json 500 (errorMessage (classify text))].
Proof.
  intros Hs. unfold onExit.
  replace (str_eqb SIGTERM SIGTERM) with true by reflexivity.
  destruct (cleanup_response (Some (inputPath j)) (Some (outputPath j)) st) as [R S].
  rewrite S, Hs. cbn [negb]. unfold execCallback. cbn [execError fst json replies].
  rewrite R, <- app_assoc. reflexivity.
Qed.

(** C2. When the 120 s deadline ends the conversion, the handler issues the
    timeout reply and then also the reply of a failed process.  When the 30 s
    deadline ends the probe, no timeout is reported at all: the reply is the
    extraction failure, for an empty diagnostic text and, the diagnostics of
    ffmpeg being sent to its standard output, whatever ffmpeg had printed. *)
Theorem deadline_is_not_only_a_timeout :
  replies (Sample.handle Sample.timeoutRun)
    = [Json 500 (lit "Processing timed out - video may be too large or complex");
       Json 500 (lit "FFmpeg processing failed")] /\
  replies (Sample.probe (Signaled SIGTERM) [])
    = [Json 500 (lit "FFmpeg info extraction failed")] /\
  forall text : jsstring,
    replies (Sample.probeRun (Signaled SIGTERM) text)
    = [Json 500 (lit "FFmpeg info extraction failed")].
Proof.
  split; [vm_compute; reflexivity|]. split; [vm_compute; reflexivity|].
  intros text. vm_compute. reflexivity.
Qed.

(** C5. When the child exits with status 0, the callback looks at the output
    path before it answers: without a file there the reply is "no output
    file created", with a file of zero bytes it is "empty output file", and
    only for a file with content are the GIF headers (with its size as
    Content-Length) issued and the file streamed. *)
Theorem exit_zero_checks_output (j : gif_job) (r : run) (st : state) :
  ending r = Exited 0 ->
  match fs (afterChild j r st) !! outputPath j with
  | None =>
      gifAsync j r st
      = json 500 (lit "GIF generation failed - no output file created") (afterChild j r st)
  | Some sz =>
      if (sz =? 0)%N then
        gifAsync j r st
        = json 500 (lit "GIF generation failed - empty output file") (afterChild j r st)
      else
        exists disposition later,
          replies (gifAsync j r st) = replies st ++ Gif disposition sz :: later
  end.
Proof.
  intros E. unfold gifAsync. rewrite E. cbn [onExit].
  unfold execCallback. cbn [execError].
  assert (R0 : replies (afterChild j r st) = replies st).
  { unfold afterChild. destruct (written r); reflexivity. }
  destruct (fs (afterChild j r st) !! outputPath j) as [sz|] eqn:F; [|reflexivity].
  destruct (sz =? 0)%N eqn:Z; [reflexivity|].
  eexists. unfold onStream. destruct (stream r) as [|flushed|].
  - exists [].
    match goal with |- context [cleanup ?i ?o ?s] =>
      destruct (cleanup_response i o s) as [R _] end.
    rewrite R. cbn [replies withHeadersSent]. rewrite R0. reflexivity.
  - match goal with |- context [cleanup ?i ?o ?s] =>
      destruct (cleanup_response i o s) as [R S]; destruct (headersSent (cleanup i o s))
    end; cbn [negb].
    + exists []. rewrite R. cbn [replies withHeadersSent]. rewrite R0. reflexivity.
    + eexists [_]. cbn [json replies]. rewrite R. cbn [replies withHeadersSent].
      rewrite R0, <- app_assoc. reflexivity.
  - exists []. cbn [replies]. rewrite R0. reflexivity.
Qed.

Lemma exit_zero_checks_output_witness :
  exists disposition later,
    replies (gifAsync
               {| inputPath := Sample.clipInput; outputPath := Sample.clipOutput;
                  stamp := 1700000000000%N; params := normalize Sample.postForm |}
               Sample.goodRun (arrive Sample.files))
    = [] ++ Gif disposition 4096%N :: later.
Proof.
  exact (exit_zero_checks_output
           {| inputPath := Sample.clipInput; outputPath := Sample.clipOutput;
              stamp := 1700000000000%N; params := normalize Sample.postForm |}
           Sample.goodRun (arrive Sample.files) eq_refl).
Defined.

(** C7. The normaliser throws on absent input.  When the form carries no
    text field, [req.body] is undefined and reading its [fps] member (line
    67) raises a TypeError: no settings are produced.  For an accepted
    upload the [catch] block then answers 500 "Internal server error"; no
    child process is launched and the stored upload is not moved. *)
Theorem settings_of_a_bare_form_throw (dir : jsstring) (now : N) (req : request)
    (r : run) (st : state) (v : upload) :
  video req = Some v -> isValidVideoFile (name v) = true -> form req = None ->
  settingsOf (form req) = None /\
  snd (gifSync dir now req st) = None /\
  replies (gifHandler dir now req r st)
  = replies st ++ [Json 500 (lit "Internal server error")] /\
  (tempFilePath v <> gifInputPath dir now (name v) ->
   tempFilePath v <> gifOutputPath dir now ->
   fs (gifHandler dir now req r st) !! tempFilePath v = fs st !! tempFilePath v).
Proof.
  intros V I F. unfold gifHandler, gifSync. rewrite V, I, F.
  cbn [negb settingsOf option_map snd json replies fs].
  match goal with |- context [cleanup ?i ?o ?s] =>
    destruct (cleanup_response i o s) as [R _] end.
  rewrite R. repeat split.
  intros N1 N2. rewrite cleanup_lookup.
  destruct (decide _) as [[X|X]|_]; [contradiction | contradiction | reflexivity].
Qed.

Lemma settings_of_a_bare_form_throw_witness :
  settingsOf (form Sample.bareForm) = None /\
  replies (gifHandler (lit "/tmp") 1700000000000 Sample.bareForm Sample.goodRun
             (arrive Sample.files))
  = [] ++ [Json 500 (lit "Internal server error")].
Proof.
  destruct (settings_of_a_bare_form_throw (lit "/tmp") 1700000000000 Sample.bareForm
              Sample.goodRun (arrive Sample.files) Sample.clip
              eq_refl eq_refl eq_refl) as (A & _ & B & _).
  split; [exact A | exact B].
Defined.

(** ** MetadataParser *)

Section Search.

Variable r : Regex.re.

(** [search] returns the match at the leftmost position that has one. *)
Lemma search_leftmost (s : jsstring) (caps : Regex.captures) :
  Regex.search r s = Some caps <->
  exists pre rest,
    s = pre ++ rest /\ Regex.matchAt r rest = Some caps /\
    forall pre' rest', s = pre' ++ rest' -> (length pre' < length pre)%nat ->
                       Regex.matchAt r rest' = None.
Proof.
  induction s as [|c s IH].
  - cbn [Regex.search]. split.
    + intros H. destruct (Regex.matchAt r []) eqn:E; [|discriminate].
      exists [], []. repeat split; [congruence|]. simpl. lia.
    + intros (pre & rest & E & M & _).
      symmetry in E. apply app_eq_nil in E as [-> ->]. rewrite M. reflexivity.
  - cbn [Regex.search]. destruct (Regex.matchAt r (c :: s)) as [caps0|] eqn:E.
    + split.
      * intros H. exists [], (c :: s). repeat split; [congruence|]. simpl. lia.
      * intros (pre & rest & Es & M & Hmin). destruct pre as [|c' pre].
        -- simpl in Es. subst rest. congruence.
        -- specialize (Hmin [] (c :: s) eq_refl). simpl in Hmin.
           rewrite Hmin in E by lia. discriminate.
    + rewrite IH. split.
      * intros (pre & rest & Es & M & Hmin). exists (c :: pre), rest.
        repeat split; [simpl; congruence | exact M |].
        intros pre' rest' E' Hlt. destruct pre' as [|c'' pre'].
        -- simpl in E'. subst rest'. exact E.
        -- simpl in E'. injection E' as _ E'. apply (Hmin pre' rest' E').
           simpl in Hlt. lia.
      * intros (pre & rest & Es & M & Hmin). destruct pre as [|c' pre].
        -- simpl in Es. subst rest. congruence.
        -- simpl in Es. injection Es as _ Es. exists pre, rest.
           repeat split; [exact Es | exact M |].
           intros pre' rest' E' Hlt. apply (Hmin (c :: pre') rest').
           ++ simpl. congruence.
           ++ simpl. lia.
Qed.

Lemma search_none (s : jsstring) :
  Regex.search r s = None <->
  forall pre rest, s = pre ++ rest -> Regex.matchAt r rest = None.
Proof.
  induction s as [|c s IH]; cbn [Regex.search].
  - split.
    + intros H pre rest E. symmetry in E. apply app_eq_nil in E as [-> ->].
      destruct (Regex.matchAt r []); congruence.
    + intros H. rewrite (H [] [] eq_refl). reflexivity.
  - split.
    + intros H pre rest E. destruct (Regex.matchAt r (c :: s)) eqn:M; [discriminate|].
      destruct pre as [|c' pre]; simpl in E.
      * subst rest. exact M.
      * injection E as _ E. apply (proj1 IH H pre rest E).
    + intros H. rewrite (H [] (c :: s) eq_refl). apply IH.
      intros pre rest E. apply (H (c :: pre) rest). simpl. congruence.
Qed.

End Search.

Lemma rep_two {A} (p : char -> bool) (s : jsstring) (k : jsstring -> option A) :
  Regex.rep p 2 (Some 2%nat) s k =
  match s with
  | a :: b :: rest => if p a && p b then k rest else None
  | _ => None
  end.
Proof.
  destruct s as [|a [|b rest]]; cbn; try reflexivity.
  - destruct (p a); reflexivity.
  - destruct (p a), (p b); cbn; try reflexivity.
    destruct rest as [|c rest]; cbn.
    + destruct (k []); reflexivity.
    + rewrite andb_false_r. destruct (k (c :: rest)); reflexivity.
Qed.

(** A group of exactly two digits. *)
Lemma grp_two (s : jsstring) (caps : Regex.captures)
    (k : jsstring -> Regex.captures -> option Regex.captures) :
  Regex.rmatch (Regex.Grp (Regex.d 2 (Some 2%nat))) s caps k =
  match s with
  | a :: b :: rest =>
      if Num.isDigit a && Num.isDigit b then k rest (caps ++ [[a; b]]) else None
  | _ => None
  end.
Proof.
  cbn [Regex.rmatch Regex.d]. rewrite rep_two.
  destruct s as [|a [|b rest]]; try reflexivity.
  destruct (Num.isDigit a && Num.isDigit b); [|reflexivity].
  replace (length (a :: b :: rest) - length rest)%nat with 2%nat
    by (cbn [length]; lia).
  reflexivity.
Qed.

Lemma rmatch_Lit (l s : jsstring) (caps : Regex.captures)
    (k : jsstring -> Regex.captures -> option Regex.captures) :
  Regex.rmatch (Regex.Lit l) s caps k =
  if startsWith l s then k (skipn (length l) s) caps else None.
Proof. reflexivity. Qed.

Lemma rmatch_Seq (a b : Regex.re) (s : jsstring) (caps : Regex.captures)
    (k : jsstring -> Regex.captures -> option Regex.captures) :
  Regex.rmatch (Regex.Seq a b) s caps k =
  Regex.rmatch a s caps (fun rest caps' => Regex.rmatch b rest caps' k).
Proof. reflexivity. Qed.

Lemma skipn_literal (l rest : jsstring) : skipn (length l) (l ++ rest) = rest.
Proof. induction l; simpl; auto. Qed.

Lemma startsWith_app (l rest : jsstring) : startsWith l (l ++ rest) = true.
Proof. apply startsWith_spec. eauto. Qed.

(** The duration pattern matches at the start of a text exactly when the
    text starts with [Duration: hh:mm:ss.cc]; the groups are the four
    fields. *)
Lemma matchAt_duration (t : jsstring) (caps : Regex.captures) :
  Regex.matchAt Regex.durationRe t = Some caps <->
  exists a1 a2 b1 b2 c1 c2 d1 d2 post,
    t = durationText [a1; a2] [b1; b2] [c1; c2] [d1; d2] ++ post /\
    caps = [[a1; a2]; [b1; b2]; [c1; c2]; [d1; d2]] /\
    Forall (fun x => Num.isDigit x = true) [a1; a2; b1; b2; c1; c2; d1; d2].
Proof.
  unfold Regex.matchAt, Regex.durationRe, Regex.seq. cbn [fold_left].
  rewrite !rmatch_Seq. split.
  - intros H.
    rewrite rmatch_Lit in H.
    destruct (startsWith (lit "Duration: ") t) eqn:E; [|discriminate].
    apply startsWith_spec in E as [t1 ->]. rewrite skipn_literal in H.
    rewrite grp_two in H. destruct t1 as [|a1 [|a2 t2]]; try discriminate.
    destruct (Num.isDigit a1 && Num.isDigit a2) eqn:A; [|discriminate].
    rewrite rmatch_Lit in H.
    destruct (startsWith (lit ":") t2) eqn:E; [|discriminate].
    apply startsWith_spec in E as [t3 ->]. rewrite skipn_literal in H.
    rewrite grp_two in H. destruct t3 as [|b1 [|b2 t4]]; try discriminate.
    destruct (Num.isDigit b1 && Num.isDigit b2) eqn:B; [|discriminate].
    rewrite rmatch_Lit in H.
    destruct (startsWith (lit ":") t4) eqn:E; [|discriminate].
    apply startsWith_spec in E as [t5 ->]. rewrite skipn_literal in H.
    rewrite grp_two in H. destruct t5 as [|c1 [|c2 t6]]; try discriminate.
    destruct (Num.isDigit c1 && Num.isDigit c2) eqn:C; [|discriminate].
    rewrite rmatch_Lit in H.
    destruct (startsWith (lit ".") t6) eqn:E; [|discriminate].
    apply startsWith_spec in E as [t7 ->]. rewrite skipn_literal in H.
    rewrite grp_two in H. destruct t7 as [|d1 [|d2 post]]; try discriminate.
    destruct (Num.isDigit d1 && Num.isDigit d2) eqn:D; [|discriminate].
    apply andb_true_iff in A as [? ?], B as [? ?], C as [? ?], D as [? ?].
    exists a1, a2, b1, b2, c1, c2, d1, d2, post.
    split; [reflexivity|]. split; [cbn in H; injection H as <-; reflexivity|].
    repeat constructor; assumption.
  - intros (a1 & a2 & b1 & b2 & c1 & c2 & d1 & d2 & post & -> & -> & F).
    repeat match goal with
           | H : Forall _ (_ :: _) |- _ => inversion_clear H
           end.
    unfold durationText. rewrite <- !app_assoc.
    repeat (rewrite rmatch_Lit, startsWith_app, skipn_literal;
            cbn [app]; rewrite grp_two;
            repeat match goal with
                   | H : Num.isDigit ?x = true |- context [Num.isDigit ?x] => rewrite H
                   end;
            cbn [andb]).
    reflexivity.
Qed.

Lemma isDigit_cases (a : char) :
  Num.isDigit a = true ->
  (a = 48 \/ a = 49 \/ a = 50 \/ a = 51 \/ a = 52 \/ a = 53 \/ a = 54 \/ a = 55
   \/ a = 56 \/ a = 57)%N.
Proof.
  unfold Num.isDigit. rewrite andb_true_iff, !N.leb_le. lia.
Qed.

(** [parseInt] reads a field of two digits as the number it denotes. *)
Lemma parseInt_twoDigits (x : jsstring) (v : Z) :
  twoDigits x v -> Num.parseInt x = Some v.
Proof.
  intros (a & b & -> & Ha & Hb & ->).
  apply isDigit_cases in Ha, Hb.
  repeat match goal with H : _ \/ _ |- _ => destruct H end; subst; reflexivity.
Qed.

Lemma twoDigits_intro (a b : char) :
  Num.isDigit a = true -> Num.isDigit b = true ->
  twoDigits [a; b] (10 * (Z.of_N a - 48) + (Z.of_N b - 48)).
Proof. intros Ha Hb. exists a, b. auto. Qed.

(** A duration after [pre] is a match of the duration pattern there. *)
Lemma durationAt_matchAt (text pre : jsstring) (H M S C : Z) :
  durationAt text pre H M S C ->
  exists h m s c rest,
    text = pre ++ rest /\
    Regex.matchAt Regex.durationRe rest = Some [h; m; s; c] /\
    twoDigits h H /\ twoDigits m M /\ twoDigits s S /\ twoDigits c C.
Proof.
  intros (h & m & s & c & post & -> & Hh & Hm & Hs & Hc).
  exists h, m, s, c, (durationText h m s c ++ post).
  split; [reflexivity|]. split; [|auto].
  destruct Hh as (a1 & a2 & -> & ? & ? & _), Hm as (b1 & b2 & -> & ? & ? & _),
           Hs as (c1 & c2 & -> & ? & ? & _), Hc as (d1 & d2 & -> & ? & ? & _).
  apply matchAt_duration.
  exists a1, a2, b1, b2, c1, c2, d1, d2, post.
  repeat split. repeat constructor; assumption.
Qed.

Lemma matchAt_durationAt (pre rest : jsstring) (caps : Regex.captures) :
  Regex.matchAt Regex.durationRe rest = Some caps ->
  exists H M S C, durationAt (pre ++ rest) pre H M S C.
Proof.
  intros Hm. apply matchAt_duration in Hm
    as (a1 & a2 & b1 & b2 & c1 & c2 & d1 & d2 & post & -> & _ & F).
  repeat match goal with
         | H : Forall _ (_ :: _) |- _ => inversion_clear H
         end.
  do 4 eexists. exists [a1; a2], [b1; b2], [c1; c2], [d1; d2], post.
  split; [reflexivity|]. repeat split; apply twoDigits_intro; assumption.
Qed.

Lemma hasDuration_search (text : jsstring) :
  hasDuration text <-> Regex.search Regex.durationRe text <> None.
Proof.
  split.
  - intros (pre & H & M & S & C & D) N.
    apply durationAt_matchAt in D as (h & m & s & c & rest & E & Hm & _).
    rewrite (proj1 (search_none _ _) N pre rest E) in Hm. discriminate.
  - intros N. destruct (Regex.search Regex.durationRe text) as [caps|] eqn:E;
      [|congruence].
    apply search_leftmost in E as (pre & rest & -> & Hm & _).
    destruct (matchAt_durationAt pre rest caps Hm) as (H & M & S & C & D).
    exists pre, H, M, S, C. exact D.
Qed.

Lemma firstDuration_search (text : jsstring) (H M S C : Z) :
  firstDuration text H M S C ->
  exists h m s c,
    Regex.search Regex.durationRe text = Some [h; m; s; c] /\
    twoDigits h H /\ twoDigits m M /\ twoDigits s S /\ twoDigits c C.
Proof.
  intros (pre & D & Hmin).
  apply durationAt_matchAt in D as (h & m & s & c & rest & E & Hm & Hd).
  exists h, m, s, c. split; [|exact Hd].
  apply search_leftmost. exists pre, rest. repeat split; [exact E | exact Hm |].
  intros pre' rest' E' Hlt.
  destruct (Regex.matchAt Regex.durationRe rest') as [caps|] eqn:M'; [|reflexivity].
  destruct (matchAt_durationAt pre' rest' caps M') as (H' & M0 & S' & C' & D').
  rewrite <- E' in D'. apply Hmin in D'. lia.
Qed.

Lemma parseInfo_without_duration (text name : jsstring) (size : N) :
  ~ hasDuration text -> parseInfo text name size = None.
Proof.
  intros N. unfold parseInfo.
  destruct (Regex.search Regex.durationRe text) eqn:E; [|reflexivity].
  exfalso. apply N, hasDuration_search. congruence.
Qed.

(** ** What the patterns capture *)

Lemma rep_sound {A} (p : char -> bool) (s : jsstring) :
  forall (lo : nat) (hi : option nat) (k : jsstring -> option A) (res : A),
    Regex.rep p lo hi s k = Some res ->
    exists w rest,
      s = w ++ rest /\ lang (Regex.Rep p lo hi) w /\ k rest = Some res.
Proof.
  induction s as [|c s IH]; intros lo hi k res H.
  - cbn in H. destruct lo; [|discriminate].
    exists [], []. cbn. repeat split; auto. destruct hi; lia.
  - cbn [Regex.rep] in H.
    assert (Stop : match lo with O => k (c :: s) | S _ => None end = Some res ->
                   exists w rest, c :: s = w ++ rest /\
                                  lang (Regex.Rep p lo hi) w /\ k rest = Some res).
    { intros X. destruct lo; [|discriminate].
      exists [], (c :: s). cbn. repeat split; auto. destruct hi; lia. }
    destruct (p c) eqn:Pc; cbn [andb] in H; [|auto].
    destruct hi as [[|h]|]; [auto| |].
    + destruct (Regex.rep p (Nat.pred lo) (option_map Nat.pred (Some (S h))) s k)
        as [r|] eqn:R; [|auto].
      injection H as <-. apply IH in R as (w & rest & -> & (F & L & U) & K).
      exists (c :: w), rest. cbn in *. repeat split; auto; lia.
    + destruct (Regex.rep p (Nat.pred lo) (option_map Nat.pred None) s k)
        as [r|] eqn:R; [|auto].
      injection H as <-. apply IH in R as (w & rest & -> & (F & L & U) & K).
      exists (c :: w), rest. cbn in *. repeat split; auto; lia.
Qed.

Lemma firstn_consumed (w rest : jsstring) :
  firstn (length (w ++ rest) - length rest) (w ++ rest) = w.
Proof.
  rewrite length_app.
  replace (length w + length rest - length rest)%nat with (length w + 0)%nat by lia.
  rewrite firstn_app_2. cbn. apply app_nil_r.
Qed.

(** Whenever the matcher succeeds, it has consumed a text of the pattern
    and handed the remainder to its continuation; a pattern without groups
    leaves the captures as they were. *)
Lemma rmatch_sound (r : Regex.re) :
  forall (s : jsstring) (caps : Regex.captures)
         (k : jsstring -> Regex.captures -> option Regex.captures)
         (res : Regex.captures),
    Regex.rmatch r s caps k = Some res ->
    exists w rest caps',
      s = w ++ rest /\ lang r w /\ k rest caps' = Some res /\
      (groupless r = true -> caps' = caps).
Proof.
  induction r as [l|p lo hi|a IHa b IHb|a IHa|a IHa]; intros s caps k res H;
    cbn [Regex.rmatch] in H.
  - destruct (startsWith l s) eqn:E; [|discriminate].
    apply startsWith_spec in E as [post ->]. rewrite skipn_literal in H.
    exists l, post, caps. cbn. auto.
  - apply rep_sound in H as (w & rest & -> & L & K).
    exists w, rest, caps. auto.
  - apply IHa in H as (u & rest1 & caps1 & -> & La & H & Ga).
    apply IHb in H as (v & rest & caps2 & -> & Lb & K & Gb).
    exists (u ++ v), rest, caps2. rewrite <- app_assoc.
    repeat split; auto.
    + cbn. eauto.
    + cbn. intros G. apply andb_true_iff in G as [G1 G2].
      rewrite (Gb G2), (Ga G1). reflexivity.
  - destruct (Regex.rmatch a s caps k) as [c|] eqn:R.
    + injection H as <-. apply IHa in R as (w & rest & caps' & -> & L & K & G).
      exists w, rest, caps'. cbn. auto.
    + exists [], s, caps. cbn. auto.
  - apply IHa in H as (w & rest & caps1 & -> & L & K & G).
    rewrite firstn_consumed in K.
    exists w, rest, (caps1 ++ [w]). cbn. repeat split; auto. discriminate.
Qed.

(** A group around a pattern without groups adds the text it consumed. *)
Lemma group_sound (a : Regex.re) (s : jsstring) (caps : Regex.captures)
    (k : jsstring -> Regex.captures -> option Regex.captures)
    (res : Regex.captures) :
  groupless a = true ->
  Regex.rmatch (Regex.Grp a) s caps k = Some res ->
  exists w rest, s = w ++ rest /\ lang a w /\ k rest (caps ++ [w]) = Some res.
Proof.
  intros G H. cbn [Regex.rmatch] in H.
  apply rmatch_sound in H as (w & rest & caps1 & -> & L & K & Gc).
  rewrite firstn_consumed, (Gc G) in K. eauto.
Qed.

Lemma search_found (r : Regex.re) (s : jsstring) (caps : Regex.captures) :
  Regex.search r s = Some caps ->
  exists pre rest, s = pre ++ rest /\ Regex.matchAt r rest = Some caps.
Proof.
  intros H. apply search_leftmost in H as (pre & rest & E & M & _). eauto.
Qed.

(** ** Numbers read from digits *)

Lemma isDigit_not_space (c : char) : Num.isDigit c = true -> Num.isWhiteSpace c = false.
Proof.
  intros H. apply isDigit_cases in H. repeat destruct H as [H|H]; subst; reflexivity.
Qed.

Lemma digit10_range (c : char) :
  Num.isDigit c = true -> exists v, Num.digit10 c = Some v /\ 0 <= v <= 9.
Proof.
  intros H. unfold Num.digit10. rewrite H. eexists. split; [reflexivity|].
  unfold Num.isDigit in H. apply andb_true_iff in H as [A B].
  apply N.leb_le in A, B. lia.
Qed.

Lemma digits_value (ds : jsstring) :
  Forall (fun c => Num.isDigit c = true) ds ->
  forall a, 0 <= a ->
    exists v, Num.digits 10 Num.digit10 ds (Some a) = Some v /\
              a * 10 ^ Z.of_nat (length ds) <= v
              < (a + 1) * 10 ^ Z.of_nat (length ds).
Proof.
  induction 1 as [|c ds Hc _ IH]; intros a Ha.
  - exists a. cbn. split; [reflexivity | lia].
  - destruct (digit10_range c Hc) as (d & Ed & Hd).
    cbn [Num.digits]. rewrite Ed.
    destruct (IH (a * 10 + d) ltac:(lia)) as (v & Ev & Hv).
    exists v. split; [exact Ev|].
    cbn [length]. rewrite Nat2Z.inj_succ, Z.pow_succ_r by lia.
    assert (P : 0 < 10 ^ Z.of_nat (length ds)) by (apply Z.pow_pos_nonneg; lia).
    nia.
Qed.

(** [parseInt] reads a text made of digits as the number it denotes: never
    [NaN], not negative, below 10 to the number of digits. *)
Lemma parseInt_allDigits (ds : jsstring) :
  allDigits ds ->
  exists z, Num.parseInt ds = Some z /\ 0 <= z < 10 ^ Z.of_nat (length ds).
Proof.
  intros [Hne F]. destruct ds as [|c ds]; [congruence|].
  inversion F as [|? ? Hc Fds]; subst.
  unfold Num.parseInt. cbn [Num.trimStart]. rewrite (isDigit_not_space c Hc).
  assert (S : Num.sign (c :: ds) = (false, c :: ds)).
  { apply isDigit_cases in Hc. repeat destruct Hc as [Hc|Hc]; subst; reflexivity. }
  rewrite S.
  assert (X : startsWith (lit "0x") (c :: ds) || startsWith (lit "0X") (c :: ds) = false).
  { destruct ds as [|d ds].
    - apply isDigit_cases in Hc. repeat destruct Hc as [Hc|Hc]; subst; reflexivity.
    - inversion Fds as [|? ? Hd _]; subst.
      apply isDigit_cases in Hc, Hd.
      repeat destruct Hc as [Hc|Hc]; subst; try reflexivity;
        repeat destruct Hd as [Hd|Hd]; subst; reflexivity. }
  rewrite X.
  destruct (digit10_range c Hc) as (d & Ed & Hd).
  cbn [Num.digits]. rewrite Ed.
  destruct (digits_value ds Fds d ltac:(lia)) as (v & Ev & Hv).
  rewrite Ev. exists v. split; [reflexivity|].
  cbn [length]. rewrite Nat2Z.inj_succ, Z.pow_succ_r by lia.
  assert (P : 0 < 10 ^ Z.of_nat (length ds)) by (apply Z.pow_pos_nonneg; lia).
  nia.
Qed.

Lemma digits_nonneg (s : jsstring) :
  forall acc, match acc with Some a => 0 <= a | None => True end ->
    match Num.digits 10 Num.digit10 s acc with Some v => 0 <= v | None => True end.
Proof.
  induction s as [|c s IH]; intros acc Ha; cbn [Num.digits]; [exact Ha|].
  unfold Num.digit10 at 1. destruct (Num.isDigit c) eqn:D; [|exact Ha].
  apply IH. unfold Num.isDigit in D. apply andb_true_iff in D as [A B].
  apply N.leb_le in A, B. destruct acc; lia.
Qed.

Lemma decimalValue_nonneg (s : jsstring) : 0 <= Num.decimalValue s.
Proof.
  unfold Num.decimalValue. pose proof (digits_nonneg s None I) as H.
  destruct (Num.digits 10 Num.digit10 s None); lia.
Qed.

(** A value that is not negative is read as a number that is not negative:
    it may be too large for binary64, never NaN. *)
Lemma toNumber_nonneg (q : Q) :
  Qle 0 q ->
  Num.toNumber q = Num.Infinity false \/
  exists r, Num.toNumber q = Num.Fin r /\ Qle 0 r.
Proof.
  intros H. unfold Num.toNumber.
  destruct (Qle_bool Num.overflowFrom (Qabs q)).
  - left. apply Qle_bool_iff in H. rewrite H. reflexivity.
  - right. destruct (Qle_bool (Qabs q) Num.underflowTo).
    + exists 0%Q. split; [reflexivity | apply Qle_refl].
    + exists q. auto.
Qed.

Lemma toNumber_natural (z : Z) :
  0 <= z ->
  Num.toNumber (inject_Z z) = Num.Infinity false \/
  exists n, Num.toNumber (inject_Z z) = Num.Fin (inject_Z n) /\ 0 <= n.
Proof.
  intros H. unfold Num.toNumber.
  destruct (Qle_bool Num.overflowFrom (Qabs (inject_Z z))).
  - left. replace (Qle_bool 0 (inject_Z z)) with true; [reflexivity|].
    symmetry. apply Qle_bool_iff. change 0%Q with (inject_Z 0).
    rewrite <- Zle_Qle. exact H.
  - right. destruct (Qle_bool (Qabs (inject_Z z)) Num.underflowTo).
    + exists 0. split; [reflexivity | lia].
    + exists z. auto.
Qed.

(** [parseFloat] reads a text that starts with a digit as a number that is
    not negative: finite, or the positive infinity. *)
Lemma parseFloat_digit_first (c : char) (s : jsstring) :
  Num.isDigit c = true ->
  Num.parseFloat (c :: s) = Num.Infinity false \/
  exists q, Num.parseFloat (c :: s) = Num.Fin q /\ Qle 0 q.
Proof.
  intros Hc. unfold Num.parseFloat. cbn [Num.trimStart].
  rewrite (isDigit_not_space c Hc).
  assert (S : Num.sign (c :: s) = (false, c :: s)).
  { apply isDigit_cases in Hc. repeat destruct Hc as [Hc|Hc]; subst; reflexivity. }
  rewrite S.
  assert (X : startsWith (lit "Infinity") (c :: s) = false).
  { apply isDigit_cases in Hc. repeat destruct Hc as [Hc|Hc]; subst; reflexivity. }
  rewrite X. cbn [Num.spanDigits]. rewrite Hc.
  destruct (Num.spanDigits s) as [ip s2].
  match goal with
  | |- context [let '(fp, s3) := ?e in _] => destruct e as [fp s3]
  end.
  apply toNumber_nonneg.
  apply Qmult_le_0_compat.
  - change 0%Q with (inject_Z 0). rewrite <- Zle_Qle. apply decimalValue_nonneg.
  - apply Qpower_0_le. discriminate.
Qed.

Lemma run_split (p : char -> bool) (s : jsstring) :
  s = leadingRun p s ++ afterRun p s.
Proof.
  induction s as [|c s IH]; [reflexivity|]. cbn.
  destruct (p c); [cbn; f_equal; exact IH | reflexivity].
Qed.

Lemma firstn_run (p : char -> bool) (s : jsstring) :
  firstn (length s - length (afterRun p s)) s = leadingRun p s.
Proof.
  pose proof (run_split p s) as E.
  remember (leadingRun p s) as r. remember (afterRun p s) as a.
  rewrite E. apply firstn_consumed.
Qed.

(** A greedy repetition without upper bound in front of a continuation that
    always succeeds takes the whole leading run. *)
Lemma rep_greedy {A} (p : char -> bool) (f : jsstring -> A) (s : jsstring) :
  forall lo,
    Regex.rep p lo None s (fun rest => Some (f rest))
    = if (lo <=? length (leadingRun p s))%nat then Some (f (afterRun p s)) else None.
Proof.
  induction s as [|c s IH]; intros lo.
  - cbn. destruct lo; reflexivity.
  - cbn [Regex.rep leadingRun afterRun option_map]. destruct (p c); cbn [andb].
    + rewrite IH. cbn [length].
      destruct lo as [|lo]; cbn [Nat.pred Nat.leb]; [reflexivity|].
      destruct (lo <=? length (leadingRun p s))%nat; reflexivity.
    + cbn [length]. destruct lo; reflexivity.
Qed.

(** ** The fields of the metadata *)

Lemma parseInt_as_digits (ds : jsstring) :
  allDigits ds -> Num.parseInt ds = Num.digits 10 Num.digit10 ds None.
Proof.
  intros [Hne F]. destruct ds as [|c ds]; [congruence|].
  inversion F as [|? ? Hc Fds]; subst.
  unfold Num.parseInt. cbn [Num.trimStart]. rewrite (isDigit_not_space c Hc).
  assert (S : Num.sign (c :: ds) = (false, c :: ds)).
  { apply isDigit_cases in Hc. repeat destruct Hc as [Hc|Hc]; subst; reflexivity. }
  rewrite S.
  assert (X : startsWith (lit "0x") (c :: ds) || startsWith (lit "0X") (c :: ds) = false).
  { destruct ds as [|d ds].
    - apply isDigit_cases in Hc. repeat destruct Hc as [Hc|Hc]; subst; reflexivity.
    - inversion Fds as [|? ? Hd _]; subst.
      apply isDigit_cases in Hc, Hd.
      repeat destruct Hc as [Hc|Hc]; subst; try reflexivity;
        repeat destruct Hd as [Hd|Hd]; subst; reflexivity. }
  rewrite X. destruct (Num.digits 10 Num.digit10 (c :: ds) None); reflexivity.
Qed.

(** Printing a number and parsing the text gives the number back. *)
(** ** How the repetitions of the patterns end *)

Lemma leadingRun_forall (p : char -> bool) (s : jsstring) :
  Forall (fun c => p c = true) (leadingRun p s).
Proof.
  induction s as [|c s IH]; cbn; [constructor|].
  destruct (p c) eqn:E; constructor; assumption.
Qed.

Lemma afterRun_stops (p : char -> bool) (s : jsstring) : stopsAt p (afterRun p s).
Proof.
  induction s as [|c s IH]; cbn; [exact I|].
  destruct (p c) eqn:E; [exact IH | exact E].
Qed.

Lemma run_app (p : char -> bool) (w rest : jsstring) :
  Forall (fun c => p c = true) w ->
  leadingRun p (w ++ rest) = w ++ leadingRun p rest /\
  afterRun p (w ++ rest) = afterRun p rest.
Proof.
  induction 1 as [|c w Hc _ IH]; [split; reflexivity|].
  cbn. rewrite Hc. destruct IH as [-> ->]. split; reflexivity.
Qed.

Lemma run_stopped (p : char -> bool) (rest : jsstring) :
  stopsAt p rest -> leadingRun p rest = [] /\ afterRun p rest = rest.
Proof.
  destruct rest as [|c r]; cbn; [split; reflexivity|].
  intros ->. split; reflexivity.
Qed.

Lemma run_exact (p : char -> bool) (w rest : jsstring) :
  Forall (fun c => p c = true) w -> stopsAt p rest ->
  leadingRun p (w ++ rest) = w /\ afterRun p (w ++ rest) = rest.
Proof.
  intros F S. destruct (run_app p w rest F) as [-> ->].
  destruct (run_stopped p rest S) as [-> ->]. rewrite app_nil_r. split; reflexivity.
Qed.

(** A repetition in front of a continuation that refuses every text that
    goes on with a character of the class takes the whole run, or fails. *)
Lemma rep_strict {A} (p : char -> bool) (k : jsstring -> option A) :
  (forall c t, p c = true -> k (c :: t) = None) ->
  forall (s : jsstring) (lo : nat) (hi : option nat),
    Regex.rep p lo hi s k
    = if (lo <=? length (leadingRun p s))%nat
         && match hi with
            | Some h => (length (leadingRun p s) <=? h)%nat
            | None => true
            end
      then k (afterRun p s) else None.
Proof.
  intros K. induction s as [|c s IH]; intros lo hi.
  - cbn. destruct lo, hi; reflexivity.
  - cbn [Regex.rep leadingRun afterRun]. destruct (p c) eqn:Pc; cbn [andb].
    + destruct hi as [[|h]|]; cbn [option_map Nat.pred length].
      * rewrite (K c s Pc). rewrite andb_false_r. destruct lo; reflexivity.
      * rewrite IH, (K c s Pc). cbn [Nat.leb].
        destruct lo as [|lo]; cbn [Nat.pred Nat.leb];
          match goal with |- context [if ?b then _ else _] => destruct b end;
          try reflexivity; destruct (k (afterRun p s)); reflexivity.
      * rewrite IH, (K c s Pc).
        destruct lo as [|lo]; cbn [Nat.pred Nat.leb];
          match goal with |- context [if ?b then _ else _] => destruct b end;
          try reflexivity; destruct (k (afterRun p s)); reflexivity.
    + cbn [length]. destruct lo, hi; reflexivity.
Qed.

(** A bounded repetition in front of a continuation that accepts every text
    takes as much of the run as the bound allows. *)
Lemma rep_greedy_upto {A} (p : char -> bool) (f : jsstring -> A) (s : jsstring) :
  forall (lo h : nat),
    Regex.rep p lo (Some h) s (fun rest => Some (f rest))
    = if (lo <=? Nat.min (length (leadingRun p s)) h)%nat
      then Some (f (skipn (Nat.min (length (leadingRun p s)) h) s)) else None.
Proof.
  induction s as [|c s IH]; intros lo h.
  - cbn. destruct lo; reflexivity.
  - cbn [Regex.rep leadingRun]. destruct (p c) eqn:Pc; cbn [andb].
    + destruct h as [|h]; cbn [option_map Nat.pred length].
      * cbn. destruct lo; reflexivity.
      * rewrite IH. cbn [Nat.min skipn].
        destruct lo as [|lo]; cbn [Nat.pred Nat.leb]; [reflexivity|].
        match goal with |- context [if ?b then _ else _] => destruct b end;
          reflexivity.
    + cbn. destruct lo; reflexivity.
Qed.

(** ** Where a shape starts and where its pattern matches *)

Section Shapes.

Context {X : Type} (r : Regex.re) (shape : X -> jsstring -> Prop)
        (enc : X -> Regex.captures).

Hypothesis matches :
  forall t caps,
    Regex.matchAt r t = Some caps <-> exists x, shape x t /\ caps = enc x.

Lemma leftmost_search (text : jsstring) (x : X) :
  leftmost shape text x -> Regex.search r text = Some (enc x).
Proof.
  intros (pre & rest & E & S & Hmin).
  apply search_leftmost. exists pre, rest. split; [exact E|]. split.
  - apply matches. eauto.
  - intros pre' rest' E' Hlt.
    destruct (Regex.matchAt r rest') as [caps|] eqn:M; [|reflexivity].
    apply matches in M as (x' & S' & _).
    pose proof (Hmin pre' rest' x' E' S'). lia.
Qed.

Lemma nowhere_search (text : jsstring) :
  nowhere shape text -> Regex.search r text = None.
Proof.
  intros N. apply search_none. intros pre rest E.
  destruct (Regex.matchAt r rest) as [caps|] eqn:M; [|reflexivity].
  apply matches in M as (x & S & _). destruct (N pre rest x E S).
Qed.

Lemma search_shape (text : jsstring) (caps : Regex.captures) :
  Regex.search r text = Some caps ->
  exists x, leftmost shape text x /\ caps = enc x.
Proof.
  intros H. apply search_leftmost in H as (pre & rest & E & M & Hmin).
  apply matches in M as (x & S & ->). exists x. split; [|reflexivity].
  exists pre, rest. split; [exact E|]. split; [exact S|].
  intros pre' rest' x' E' S'.
  destruct (Nat.le_gt_cases (length pre) (length pre')) as [L|L]; [exact L|].
  exfalso. pose proof (Hmin pre' rest' E' L) as M'.
  assert (Regex.matchAt r rest' = Some (enc x')) as M'' by (apply matches; eauto).
  congruence.
Qed.

End Shapes.

(** A literal that starts outside a class does not start a text that
    starts inside it. *)
Lemma class_not_literal (p : char -> bool) (l : jsstring) (c : char) (t : jsstring) :
  p c = true ->
  match l with a :: _ => p a = false | [] => False end ->
  startsWith l (c :: t) = false.
Proof.
  intros Hc. destruct l as [|a l]; [contradiction|]. intros Ha.
  cbn. destruct (N.eqb_spec a c) as [->|]; [congruence | reflexivity].
Qed.

Lemma firstn_skipped (n : nat) (v : jsstring) :
  (n <= length v)%nat -> firstn (length v - length (skipn n v)) v = firstn n v.
Proof. intros L. rewrite length_skipn. f_equal. lia. Qed.

Lemma firstn_of_run (p : char -> bool) (n : nat) (v : jsstring) :
  (n <= length (leadingRun p v))%nat ->
  Forall (fun c => p c = true) (firstn n v) /\ length (firstn n v) = n.
Proof.
  intros L. pose proof (run_split p v) as E. pose proof (leadingRun_forall p v) as F.
  rewrite E. rewrite firstn_app.
  replace (n - length (leadingRun p v))%nat with 0%nat by lia.
  cbn [firstn]. rewrite app_nil_r. split.
  - apply Forall_take, F.
  - apply firstn_length_le. exact L.
Qed.

(** The resolution pattern at the start of a text. *)
Lemma matchAt_resolution_shape (t : jsstring) (caps : Regex.captures) :
  Regex.matchAt Regex.resolutionRe t = Some caps <->
  exists wh, resolutionStarts wh t /\ caps = [fst wh; snd wh].
Proof.
  unfold Regex.matchAt, Regex.resolutionRe, Regex.seq. cbn [fold_left].
  rewrite !rmatch_Seq. cbn [Regex.rmatch Regex.d].
  rewrite rep_strict
    by (intros c t' Hc;
        rewrite (class_not_literal Num.isDigit); [reflexivity | exact Hc | reflexivity]).
  rewrite firstn_run.
  set (w := leadingRun Num.isDigit t). set (u := afterRun Num.isDigit t).
  assert (Et : t = w ++ u) by apply run_split.
  assert (Fw : Forall (fun c => Num.isDigit c = true) w) by apply leadingRun_forall.
  assert (Su : stopsAt Num.isDigit u) by apply afterRun_stops.
  change (length (lit "x")) with 1%nat.
  set (v := skipn 1 u).
  rewrite (rep_greedy_upto Num.isDigit
             (fun rest => ([] ++ [w]) ++ [firstn (length v - length rest) v])).
  set (n := Nat.min (length (leadingRun Num.isDigit v)) 4).
  assert (Ln : (n <= length (leadingRun Num.isDigit v))%nat) by apply Nat.le_min_l.
  assert (Lv : (n <= length v)%nat).
  { pose proof (f_equal (@length char) (run_split Num.isDigit v)) as El.
    rewrite length_app in El. lia. }
  rewrite (firstn_skipped n v Lv). cbn [app].
  destruct (firstn_of_run Num.isDigit n v Ln) as [Fh Lh].
  split.
  - intros H.
    destruct ((3 <=? length w)%nat && (length w <=? 4)%nat) eqn:Cw; [|discriminate].
    apply andb_true_iff in Cw as [Lw1 Lw2]. apply Nat.leb_le in Lw1, Lw2.
    destruct (startsWith (lit "x") u) eqn:Sx; [|discriminate].
    apply startsWith_spec in Sx as [v' Eu].
    assert (v' = v) by (unfold v; rewrite Eu; reflexivity). subst v'.
    destruct (3 <=? n)%nat eqn:Cn; [|discriminate]. apply Nat.leb_le in Cn.
    injection H as <-. exists (w, firstn n v). split; [|reflexivity].
    exists (skipn n v). cbn [fst snd]. split.
    { rewrite firstn_skipn. rewrite <- Eu. exact Et. }
    split; [split; [exact Fw | lia]|].
    split; [split; [exact Fh | rewrite Lh; unfold n; lia]|].
    rewrite Lh. destruct (Nat.eq_dec n 4%nat) as [|Hn]; [left; assumption | right].
    assert (n = length (leadingRun Num.isDigit v)) by (unfold n in *; lia).
    pose proof (run_split Num.isDigit v) as Ev. pose proof (afterRun_stops Num.isDigit v) as Sv.
    rewrite Ev at 1. rewrite H. rewrite skipn_app, Nat.sub_diag, skipn_all. exact Sv.
  - intros ((w', h) & (post & E & (Fw' & Lw') & (Fh' & Lh') & M) & ->).
    cbn [fst snd] in *.
    assert (Sx : stopsAt Num.isDigit (lit "x" ++ h ++ post)) by reflexivity.
    destruct (run_exact Num.isDigit w' _ Fw' Sx) as [Rw Ru].
    rewrite <- E in Rw, Ru. fold w in Rw. fold u in Ru. subst w'.
    replace ((3 <=? length w)%nat && (length w <=? 4)%nat) with true
      by (symmetry; apply andb_true_iff; split; apply Nat.leb_le; lia).
    rewrite Ru, startsWith_app.
    assert (Ev : v = h ++ post) by (unfold v; rewrite Ru; reflexivity).
    assert (En : n = length h).
    { unfold n. rewrite Ev. destruct (run_app Num.isDigit h post Fh') as [-> _].
      rewrite length_app. destruct M as [M|M]; [lia|].
      destruct (run_stopped Num.isDigit post M) as [-> _]. cbn [length]. lia. }
    rewrite En, Ev, take_app_length.
    replace (3 <=? length h)%nat with true by (symmetry; apply Nat.leb_le; lia).
    reflexivity.
Qed.

(** Blanks, if any, and then a literal that does not start with a blank. *)
Lemma blanks_then_literal {A} (l : jsstring) (s : jsstring) (a : A) :
  match l with c :: _ => Num.isWhiteSpace c = false | [] => False end ->
  Regex.rep Num.isWhiteSpace 0 None s
    (fun rest => if startsWith l rest then Some a else None)
  = if startsWith l (afterRun Num.isWhiteSpace s) then Some a else None.
Proof.
  intros Hl. rewrite rep_strict.
  - reflexivity.
  - intros c t Hc. rewrite (class_not_literal Num.isWhiteSpace); auto.
Qed.

(** The same, at a text that goes on with a digit: no match. *)
Lemma blanks_then_literal_digit {A} (l : jsstring) (c : char) (t : jsstring) (a : A) :
  match l with x :: _ => Num.isWhiteSpace x = false | [] => False end ->
  match l with x :: _ => Num.isDigit x = false | [] => False end ->
  Num.isDigit c = true ->
  Regex.rep Num.isWhiteSpace 0 None (c :: t)
    (fun rest => if startsWith l rest then Some a else None)
  = None.
Proof.
  intros Hw Hd Hc. rewrite blanks_then_literal by exact Hw.
  cbn [afterRun]. rewrite (isDigit_not_space c Hc).
  rewrite (class_not_literal Num.isDigit); auto.
Qed.

(** The bitrate pattern at the start of a text. *)
Lemma matchAt_bitrate_shape (t : jsstring) (caps : Regex.captures) :
  Regex.matchAt Regex.bitrateRe t = Some caps <->
  exists ds, bitrateStarts ds t /\ caps = [ds].
Proof.
  unfold Regex.matchAt, Regex.bitrateRe, Regex.seq. cbn [fold_left].
  rewrite !rmatch_Seq. cbn [Regex.rmatch Regex.d].
  change (length (lit "bitrate: ")) with 9%nat. set (v := skipn 9 t).
  rewrite rep_strict
    by (intros c t' Hc; apply blanks_then_literal_digit; [reflexivity | reflexivity | exact Hc]).
  rewrite blanks_then_literal by reflexivity. rewrite firstn_run. cbn [app andb].
  set (ds := leadingRun Num.isDigit v). set (u := afterRun Num.isDigit v).
  set (ws := leadingRun Num.isWhiteSpace u). set (z := afterRun Num.isWhiteSpace u).
  assert (Ev : v = ds ++ u) by apply run_split.
  assert (Eu : u = ws ++ z) by apply run_split.
  assert (Fd : Forall (fun c => Num.isDigit c = true) ds) by apply leadingRun_forall.
  assert (Fw : blank ws) by apply leadingRun_forall.
  split.
  - intros H. destruct (startsWith (lit "bitrate: ") t) eqn:S; [|discriminate].
    apply startsWith_spec in S as [v' Et].
    assert (v' = v) by (unfold v; rewrite Et; reflexivity). subst v'.
    rewrite andb_true_r in H.
    destruct (1 <=? length ds)%nat eqn:L; [|discriminate]. apply Nat.leb_le in L.
    destruct (startsWith (lit "kb/s") z) eqn:Z; [|discriminate].
    apply startsWith_spec in Z as [post Ez]. injection H as <-.
    exists ds. split; [|reflexivity]. exists ws, post.
    split; [rewrite Et, Ev, Eu, Ez; reflexivity|].
    split; [|exact Fw]. split; [|exact Fd]. intros X. rewrite X in L. cbn in L. lia.
  - intros (ds' & (ws' & post & Et & [Nd Fd'] & Fw') & ->).
    rewrite Et, startsWith_app.
    assert (Ev' : v = ds' ++ ws' ++ lit "kb/s" ++ post) by (unfold v; rewrite Et; reflexivity).
    assert (S1 : stopsAt Num.isDigit (ws' ++ lit "kb/s" ++ post)).
    { destruct ws' as [|c ws']; [reflexivity|]. inversion Fw'; subst. cbn.
      destruct (Num.isDigit c) eqn:D; [|reflexivity].
      rewrite (isDigit_not_space c D) in *. discriminate. }
    destruct (run_exact Num.isDigit ds' _ Fd' S1) as [R1 R2].
    rewrite <- Ev' in R1, R2. fold ds in R1. fold u in R2. subst ds'.
    assert (S2 : stopsAt Num.isWhiteSpace (lit "kb/s" ++ post)) by reflexivity.
    destruct (run_exact Num.isWhiteSpace ws' _ Fw' S2) as [_ R4].
    rewrite <- R2 in R4. fold z in R4. rewrite R4, startsWith_app.
    destruct ds as [|c ds0]; [congruence|]. reflexivity.
Qed.

Lemma firstn_consumed_eq (t w rest : jsstring) :
  t = w ++ rest -> firstn (length t - length rest) t = w.
Proof. intros ->. apply firstn_consumed. Qed.

Lemma blanks_stop_digits (ws rest : jsstring) :
  blank ws -> stopsAt Num.isDigit rest -> stopsAt Num.isDigit (ws ++ rest).
Proof.
  intros F S. destruct ws as [|c ws]; [exact S|]. inversion F; subst. cbn.
  destruct (Num.isDigit c) eqn:D; [|reflexivity].
  rewrite (isDigit_not_space c D) in *. discriminate.
Qed.

Lemma blanks_no_point (ws : jsstring) (l post : jsstring) :
  blank ws -> startsWith (lit ".") (l ++ post) = false ->
  startsWith (lit ".") (ws ++ l ++ post) = false.
Proof.
  intros F S. destruct ws as [|c ws]; [exact S|]. inversion F; subst.
  apply (class_not_literal Num.isWhiteSpace); [assumption | reflexivity].
Qed.

(** The frame-rate pattern at the start of a text. *)
Lemma matchAt_fps_shape (t : jsstring) (caps : Regex.captures) :
  Regex.matchAt Regex.fpsRe t = Some caps <->
  exists n, frameRateStarts n t /\ caps = [decimalText (fst n) (snd n)].
Proof.
  unfold Regex.matchAt, Regex.fpsRe, Regex.seq. cbn [fold_left].
  rewrite !rmatch_Seq. cbn [Regex.rmatch Regex.d].
  rewrite rep_strict.
  2:{ intros c t' Hc. rewrite (class_not_literal Num.isDigit) by (auto; reflexivity).
      apply blanks_then_literal_digit; [reflexivity | reflexivity | exact Hc]. }
  cbn [app andb]. rewrite andb_true_r. change (length (lit ".")) with 1%nat.
  set (ip := leadingRun Num.isDigit t). set (u := afterRun Num.isDigit t).
  assert (Et : t = ip ++ u) by apply run_split.
  assert (Fi : Forall (fun c => Num.isDigit c = true) ip) by apply leadingRun_forall.
  rewrite (blanks_then_literal (lit "fps") u) by reflexivity.
  assert (Tu : firstn (length t - length u) t = ip)
    by (apply firstn_consumed_eq, Et).
  rewrite Tu.
  destruct (startsWith (lit ".") u) eqn:Sd.
  - (* a point follows the digits *)
    apply startsWith_spec in Sd as [u' Eu].
    assert (Eu' : skipn 1 u = u') by (rewrite Eu; reflexivity). rewrite Eu'.
    rewrite rep_strict
      by (intros c t' Hc; apply blanks_then_literal_digit;
          [reflexivity | reflexivity | exact Hc]).
    cbn [andb]. rewrite andb_true_r.
    set (fp := leadingRun Num.isDigit u'). set (u2 := afterRun Num.isDigit u').
    assert (E2 : u' = fp ++ u2) by apply run_split.
    assert (Ff : Forall (fun c => Num.isDigit c = true) fp) by apply leadingRun_forall.
    rewrite (blanks_then_literal (lit "fps") u2) by reflexivity.
    assert (T2 : firstn (length t - length u2) t = ip ++ lit "." ++ fp).
    { apply firstn_consumed_eq. rewrite Et at 1. rewrite Eu, E2, <- !app_assoc.
      reflexivity. }
    rewrite T2.
    assert (Fb : startsWith (lit "fps") (afterRun Num.isWhiteSpace u) = false)
      by (rewrite Eu; reflexivity).
    rewrite Fb.
    set (ws := leadingRun Num.isWhiteSpace u2). set (z := afterRun Num.isWhiteSpace u2).
    assert (Ez : u2 = ws ++ z) by apply run_split.
    assert (Fw : blank ws) by apply leadingRun_forall.
    split.
    + intros H. destruct (1 <=? length ip)%nat eqn:L1; [|discriminate].
      apply Nat.leb_le in L1.
      destruct (1 <=? length fp)%nat eqn:L2; [|discriminate]. apply Nat.leb_le in L2.
      destruct (startsWith (lit "fps") z) eqn:Sz; [|discriminate].
      apply startsWith_spec in Sz as [post Ep]. injection H as <-.
      exists (ip, fp). cbn [fst snd]. unfold decimalText.
      destruct fp as [|c fp0] eqn:Efp; [cbn in L2; lia|]. split; [|reflexivity].
      exists ws, post. split.
      { cbn [fst snd]. unfold decimalText. rewrite <- !app_assoc.
        rewrite Et at 1. rewrite Eu, E2, Ez, Ep. reflexivity. }
      cbn [fst snd].
      split; [|split; [exact Ff | exact Fw]].
      split; [|exact Fi]. intros X. rewrite X in L1. cbn in L1. lia.
    + intros ((ip', fp') & (ws' & post & Et' & [Ni Fi'] & Ff' & Fw') & ->).
      cbn [fst snd] in *.
      destruct fp' as [|c fp0].
      * (* the shape has no point, the text has one *)
        exfalso. unfold decimalText in Et'. rewrite app_nil_r in Et'.
        assert (S1 : stopsAt Num.isDigit (ws' ++ lit "fps" ++ post))
          by (apply blanks_stop_digits; [exact Fw' | reflexivity]).
        destruct (run_exact Num.isDigit ip' _ Fi' S1) as [_ R2].
        rewrite <- Et' in R2. fold u in R2.
        assert (startsWith (lit ".") u = false) as X
          by (rewrite R2; apply blanks_no_point; [exact Fw' | reflexivity]).
        rewrite Eu in X. discriminate.
      * unfold decimalText in Et'. rewrite <- !app_assoc in Et'.
        assert (S1 : stopsAt Num.isDigit (lit "." ++ (c :: fp0) ++ ws' ++ lit "fps" ++ post))
          by reflexivity.
        destruct (run_exact Num.isDigit ip' _ Fi' S1) as [R1 R2].
        rewrite <- Et' in R1, R2. fold ip in R1. fold u in R2. subst ip'.
        assert (u' = (c :: fp0) ++ ws' ++ lit "fps" ++ post) as Eu2.
        { rewrite Eu in R2. injection R2 as R2. exact R2. }
        assert (S2 : stopsAt Num.isDigit (ws' ++ lit "fps" ++ post))
          by (apply blanks_stop_digits; [exact Fw' | reflexivity]).
        destruct (run_exact Num.isDigit (c :: fp0) _ Ff' S2) as [R3 R4].
        rewrite <- Eu2 in R3, R4. fold fp in R3. fold u2 in R4.
        assert (S3 : stopsAt Num.isWhiteSpace (lit "fps" ++ post)) by reflexivity.
        destruct (run_exact Num.isWhiteSpace ws' _ Fw' S3) as [_ R6].
        rewrite <- R4 in R6. fold z in R6.
        rewrite R6, startsWith_app, R3. unfold decimalText.
        destruct ip as [|a ip0]; [congruence|]. reflexivity.
  - (* no point *)
    set (ws := leadingRun Num.isWhiteSpace u). set (z := afterRun Num.isWhiteSpace u).
    assert (Ez : u = ws ++ z) by apply run_split.
    assert (Fw : blank ws) by apply leadingRun_forall.
    split.
    + intros H. destruct (1 <=? length ip)%nat eqn:L1; [|discriminate].
      apply Nat.leb_le in L1.
      destruct (startsWith (lit "fps") z) eqn:Sz; [|discriminate].
      apply startsWith_spec in Sz as [post Ep]. injection H as <-.
      exists (ip, []). cbn [fst snd]. unfold decimalText. rewrite app_nil_r.
      split; [|reflexivity]. exists ws, post. split.
      { cbn [fst snd]. unfold decimalText. rewrite app_nil_r.
        rewrite Et at 1. rewrite Ez, Ep. reflexivity. }
      cbn [fst snd].
      split; [|split; [constructor | exact Fw]].
      split; [|exact Fi]. intros X. rewrite X in L1. cbn in L1. lia.
    + intros ((ip', fp') & (ws' & post & Et' & [Ni Fi'] & Ff' & Fw') & ->).
      cbn [fst snd] in *.
      destruct fp' as [|c fp0].
      * unfold decimalText in *. rewrite app_nil_r in *.
        assert (S1 : stopsAt Num.isDigit (ws' ++ lit "fps" ++ post))
          by (apply blanks_stop_digits; [exact Fw' | reflexivity]).
        destruct (run_exact Num.isDigit ip' _ Fi' S1) as [R1 R2].
        rewrite <- Et' in R1, R2. fold ip in R1. fold u in R2. subst ip'.
        assert (S3 : stopsAt Num.isWhiteSpace (lit "fps" ++ post)) by reflexivity.
        destruct (run_exact Num.isWhiteSpace ws' _ Fw' S3) as [_ R6].
        rewrite <- R2 in R6. fold z in R6. rewrite R6, startsWith_app.
        destruct ip as [|a ip0]; [congruence|]. reflexivity.
      * (* the shape has a point, the text has none *)
        exfalso. unfold decimalText in Et'. rewrite <- !app_assoc in Et'.
        assert (S1 : stopsAt Num.isDigit (lit "." ++ (c :: fp0) ++ ws' ++ lit "fps" ++ post))
          by reflexivity.
        destruct (run_exact Num.isDigit ip' _ Fi' S1) as [_ R2].
        rewrite <- Et' in R2. fold u in R2. rewrite R2 in Sd. discriminate.
Qed.

(** ** The numbers the captured texts denote *)

Lemma digits_numeral (ds : jsstring) :
  Forall (fun c => Num.isDigit c = true) ds ->
  forall a : Z,
    Num.digits 10 Num.digit10 ds (Some a)
    = Some (fold_left (fun a c => a * 10 + (Z.of_N c - 48)) ds a).
Proof.
  induction 1 as [|c ds Hc _ IH]; intros a; [reflexivity|].
  cbn [Num.digits fold_left]. unfold Num.digit10 at 1. rewrite Hc. apply IH.
Qed.

Lemma digits_numeral_first (ds : jsstring) :
  allDigits ds -> Num.digits 10 Num.digit10 ds None = Some (numeral ds).
Proof.
  intros [Hne F]. destruct ds as [|c ds]; [congruence|].
  inversion F as [|? ? Hc Fds]; subst.
  cbn [Num.digits]. unfold Num.digit10 at 1. rewrite Hc.
  rewrite (digits_numeral ds Fds). reflexivity.
Qed.

(** [parseInt] reads a run of digits as the number it denotes. *)
Lemma parseInt_numeral (ds : jsstring) :
  allDigits ds -> Num.parseInt ds = Some (numeral ds).
Proof.
  intros D. rewrite (parseInt_as_digits ds D). apply digits_numeral_first, D.
Qed.

Lemma decimalValue_numeral (ds : jsstring) :
  Forall (fun c => Num.isDigit c = true) ds -> Num.decimalValue ds = numeral ds.
Proof.
  intros F. unfold Num.decimalValue. destruct ds as [|c ds]; [reflexivity|].
  rewrite digits_numeral_first; [reflexivity|]. split; [discriminate | exact F].
Qed.

Lemma spanDigits_exact (w rest : jsstring) :
  Forall (fun c => Num.isDigit c = true) w -> stopsAt Num.isDigit rest ->
  Num.spanDigits (w ++ rest) = (w, rest).
Proof.
  intros F S. induction F as [|c w Hc _ IH].
  - destruct rest as [|c r]; [reflexivity|]. cbn in *. rewrite S. reflexivity.
  - cbn. rewrite Hc, IH. reflexivity.
Qed.

Lemma spanDigits_all (w : jsstring) :
  Forall (fun c => Num.isDigit c = true) w -> Num.spanDigits w = (w, []).
Proof.
  intros F. rewrite <- (app_nil_r w) at 1. apply spanDigits_exact; [exact F | exact I].
Qed.

(** [parseFloat] reads the text of a decimal number as the number it
    denotes. *)
Lemma parseFloat_decimalText (ip fp : jsstring) :
  allDigits ip -> Forall (fun c => Num.isDigit c = true) fp ->
  Num.parseFloat (decimalText ip fp) = decimalNumber ip fp.
Proof.
  intros [Hne Fi] Ff. destruct ip as [|c ip]; [congruence|].
  inversion Fi as [|? ? Hc Fip]; subst.
  unfold Num.parseFloat, decimalText. cbn [app Num.trimStart].
  rewrite (isDigit_not_space c Hc).
  assert (S : forall s, Num.sign (c :: s) = (false, c :: s)).
  { intros s. apply isDigit_cases in Hc.
    repeat destruct Hc as [Hc|Hc]; subst; reflexivity. }
  rewrite S.
  assert (X : forall s, startsWith (lit "Infinity") (c :: s) = false).
  { intros s. apply (class_not_literal Num.isDigit); [exact Hc | reflexivity]. }
  rewrite X. unfold decimalNumber.
  destruct fp as [|d fp].
  - rewrite app_nil_r. rewrite (spanDigits_all (c :: ip) Fi). cbn [length Z.of_nat].
    rewrite (decimalValue_numeral _ (Forall_app_2 _ _ _ Fi Ff)). reflexivity.
  - change (c :: ip ++ lit "." ++ d :: fp) with ((c :: ip) ++ lit "." ++ d :: fp).
    rewrite (spanDigits_exact (c :: ip) _ Fi) by reflexivity.
    change (lit ".") with [Num.DOT]. cbn [app]. rewrite N.eqb_refl.
    rewrite (spanDigits_all (d :: fp) Ff).
    pose proof (decimalValue_numeral _ (Forall_app_2 _ _ _ Fi Ff)) as E.
    cbn [app] in E |- *. rewrite E. reflexivity.
Qed.

(** C8. The parser turns the leftmost [Duration: hh:mm:ss.cc] of the text
    into hours*3600 + minutes*60 + seconds + hundredths/100 seconds, and a
    text without any duration is rejected.  The other fields are each read
    off the leftmost place where their own shape starts, whatever the rest
    of the text holds, and are null when it starts nowhere: width and height
    from [w]x[h] with three or four digits each, the frame rate from the
    decimal number in front of [fps], the bitrate from the digits between
    [bitrate: ] and [kb/s]. *)
Theorem parseInfo_duration (text name : jsstring) (size : N) :
  (forall H M S C : Z,
      firstDuration text H M S C ->
      exists md,
        parseInfo text name size = Some md /\
        md_duration md
        = Num.Fin (Qplus (inject_Z (H * 3600 + M * 60 + S))
                         (Qdiv (inject_Z C) (inject_Z 100))) /\
        (forall w h, leftmost resolutionStarts text (w, h) ->
           md_width md = Some (Some (numeral w)) /\
           md_height md = Some (Some (numeral h))) /\
        (nowhere resolutionStarts text ->
           md_width md = None /\ md_height md = None) /\
        (forall ip fp, leftmost frameRateStarts text (ip, fp) ->
           md_fps md = Some (decimalNumber ip fp)) /\
        (nowhere frameRateStarts text -> md_fps md = None) /\
        (forall ds, leftmost bitrateStarts text ds ->
           md_bitrate md = Some (Num.toNumber (inject_Z (numeral ds)))) /\
        (nowhere bitrateStarts text -> md_bitrate md = None)) /\
  (~ hasDuration text -> parseInfo text name size = None).
Proof.
  split.
  - intros H M S C F.
    apply firstDuration_search in F as (h & m & s & c & E & Hh & Hm & Hs & Hc).
    unfold parseInfo. rewrite E. eexists. split; [reflexivity|].
    cbn [md_duration md_width md_height md_fps md_bitrate].
    unfold Regex.group. cbn [Nat.sub nth].
    rewrite (parseInt_twoDigits _ _ Hh), (parseInt_twoDigits _ _ Hm),
            (parseInt_twoDigits _ _ Hs), (parseInt_twoDigits _ _ Hc).
    split; [reflexivity|].
    refine (conj _ (conj _ (conj _ (conj _ (conj _ _))))).
    + intros w0 h0 L.
      rewrite (leftmost_search _ _ (fun wh => [fst wh; snd wh])
                 matchAt_resolution_shape _ _ L).
      destruct L as (_ & _ & _ & (_ & _ & (Fw & Lw) & (Fh & Lh) & _) & _).
      cbn [option_map fst snd nth] in *.
      rewrite !parseInt_numeral; [split; reflexivity | |];
        (split; [intros ->; cbn in *; lia | assumption]).
    + intros L.
      rewrite (nowhere_search _ _ (fun wh => [fst wh; snd wh])
                 matchAt_resolution_shape _ L).
      split; reflexivity.
    + intros ip fp L.
      rewrite (leftmost_search _ _ (fun n => [decimalText (fst n) (snd n)])
                 matchAt_fps_shape _ _ L).
      destruct L as (_ & _ & _ & (_ & _ & _ & Di & Ff & _) & _).
      cbn [option_map fst snd nth] in *. rewrite parseFloat_decimalText; auto.
    + intros L.
      rewrite (nowhere_search _ _ (fun n => [decimalText (fst n) (snd n)])
                 matchAt_fps_shape _ L).
      reflexivity.
    + intros ds L.
      rewrite (leftmost_search _ _ (fun ds => [ds]) matchAt_bitrate_shape _ _ L).
      destruct L as (_ & _ & _ & (_ & _ & _ & Dd & _) & _).
      cbn [option_map nth]. rewrite parseInt_numeral by exact Dd. reflexivity.
    + intros L.
      rewrite (nowhere_search _ _ (fun ds => [ds]) matchAt_bitrate_shape _ L).
      reflexivity.
  - apply parseInfo_without_duration.
Qed.

Example parseInfo_resolution :
  exists md,
    parseInfo (lit "Duration: 00:00:05.00, Video: h264, 1280x720, 25 fps")
      (lit "clip.mp4") 2048 = Some md /\
    md_width md = Some (Some 1280) /\ md_height md = Some (Some 720) /\
    md_bitrate md = None.
Proof. eexists. vm_compute. repeat split. Qed.

Lemma parseInfo_duration_witness :
  exists md,
    parseInfo Sample.streamText (lit "clip.mp4") 2048 = Some md /\
    md_duration md
    = Num.Fin (Qplus (inject_Z (0 * 3600 + 1 * 60 + 5)) (Qdiv (inject_Z 50) (inject_Z 100))) /\
    Qeq (Qplus (inject_Z (0 * 3600 + 1 * 60 + 5)) (Qdiv (inject_Z 50) (inject_Z 100)))
        (Qmake 131 2) /\
    md_width md = Some (Some 1280) /\ md_height md = Some (Some 720) /\
    md_fps md = Some (Num.Fin (inject_Z 25)) /\
    md_bitrate md = Some (Num.Fin (inject_Z 1205)).
Proof.
  destruct (proj1 (parseInfo_duration Sample.streamText (lit "clip.mp4") 2048) 0 1 5 50)
    as (md & Hp & Hd & Hres & _ & Hfps & _ & Hbit & _).
  - exists [].
    split.
    + exists (lit "00"), (lit "01"), (lit "05"), (lit "50"). eexists.
      split; [reflexivity|].
      repeat split; do 2 eexists; repeat split; reflexivity.
    + intros. simpl. lia.
  - destruct (search_shape _ _ (fun wh => [fst wh; snd wh]) matchAt_resolution_shape
                Sample.streamText [lit "1280"; lit "720"]) as ([w h] & Lr & Er);
      [vm_compute; reflexivity|].
    cbn [fst snd] in Er. injection Er as <- <-.
    destruct (search_shape _ _ (fun n => [decimalText (fst n) (snd n)]) matchAt_fps_shape
                Sample.streamText [lit "25"]) as ([ip fp] & Lf & Ef);
      [vm_compute; reflexivity|].
    destruct (search_shape _ _ (fun ds => [ds]) matchAt_bitrate_shape
                Sample.streamText [lit "1205"]) as (ds & Lb & Eb);
      [vm_compute; reflexivity|].
    injection Eb as <-.
    destruct (Hres _ _ Lr) as [Hw Hh].
    exists md. split; [exact Hp|]. split; [exact Hd|]. split; [reflexivity|].
    split; [exact Hw|]. split; [exact Hh|]. split; [|exact (Hbit _ Lb)].
    rewrite (Hfps _ _ Lf).
    rewrite <- (parseFloat_decimalText ip fp).
    + cbn [fst snd] in Ef. injection Ef as <-. reflexivity.
    + destruct Lf as (_ & _ & _ & (_ & _ & _ & Di & _) & _). exact Di.
    + destruct Lf as (_ & _ & _ & (_ & _ & _ & _ & Ff & _) & _). exact Ff.
Defined.

(** ** ParameterNormalizer: what is read from the form *)

(** C6, counterexample. The field [fps=0] parses to 0; the specification
    clamps it to 5, the code replaces it by the default 15. *)
Lemma normalize_zero_is_defaulted :
  Num.parseInt (toString (body_fps Sample.zeroForm)) = Some 0 /\
  SpecNormalize.fps (body_fps Sample.zeroForm) = 5 /\
  fps (normalize Sample.zeroForm) = 15 /\
  fps (normalize Sample.zeroForm) <> SpecNormalize.fps (body_fps Sample.zeroForm) /\
  scale (normalize Sample.zeroForm) <> SpecNormalize.scale (body_scale Sample.zeroForm).
Proof. vm_compute. repeat split; congruence. Qed.

Lemma seconds_same (f : field) :
  Num.same
    (Num.max (Num.ofZ 0) (Num.or (Num.parseFloat (toString f)) (Num.ofZ 0)))
    (SpecNormalize.seconds f).
Proof.
  unfold SpecNormalize.seconds, Num.or.
  destruct (Num.parseFloat (toString f)) as [|[|]|q]; simpl; try reflexivity.
  destruct (Qeq_bool q 0) eqn:E; simpl.
  - apply Qeq_bool_eq in E.
    assert (L : Qle_bool (inject_Z 0) q = true).
    { apply Qle_bool_iff. rewrite E. apply Qle_refl. }
    rewrite L. simpl. symmetry. exact E.
  - destruct (Qle_bool (inject_Z 0) q); simpl; reflexivity.
Qed.

(** ** What [parseInt] reads *)

Lemma trimStart_blank (ws u : jsstring) :
  blank ws -> stopsAt Num.isWhiteSpace u -> Num.trimStart (ws ++ u) = u.
Proof.
  intros F S. induction F as [|c ws Hc _ IH].
  - destruct u as [|c u]; [reflexivity|]. cbn in *. rewrite S. reflexivity.
  - cbn. rewrite Hc. exact IH.
Qed.

Lemma trimStart_run (t : jsstring) : Num.trimStart t = afterRun Num.isWhiteSpace t.
Proof.
  induction t as [|c t IH]; [reflexivity|]. cbn. destruct (Num.isWhiteSpace c); auto.
Qed.

Lemma signedText_sign (t : jsstring) (neg : bool) (u : jsstring) :
  signedText t neg u -> Num.sign (Num.trimStart t) = (neg, u).
Proof.
  intros [ws u' F Sw Ss | ws u' F | ws u' F].
  - rewrite (trimStart_blank ws u' F Sw). destruct u' as [|c r]; [reflexivity|].
    cbn [stopsAt] in Ss. unfold isSign in Ss. apply orb_false_iff in Ss as [Sm Sp].
    cbn [Num.sign]. rewrite Sm, Sp. reflexivity.
  - rewrite (trimStart_blank ws _ F) by reflexivity. reflexivity.
  - rewrite (trimStart_blank ws _ F) by reflexivity. reflexivity.
Qed.

Lemma hexPrefixed_startsWith (u : jsstring) :
  startsWith (lit "0x") u || startsWith (lit "0X") u = true <-> hexPrefixed u.
Proof.
  rewrite orb_true_iff, !startsWith_spec. split.
  - intros [[post ->]|[post ->]]; eexists _, post; split; try reflexivity; auto.
  - intros (x & rest & -> & [-> | ->]); [left | right]; exists rest; reflexivity.
Qed.

Lemma digit16_hex (c : char) :
  Num.digit16 c = if isHexDigit c then Some (hexValue c) else None.
Proof.
  unfold Num.digit16, isHexDigit, hexValue.
  destruct (Num.isDigit c); [reflexivity|]. cbn [orb].
  destruct ((97 <=? c)%N && (c <=? 102)%N) eqn:L.
  - apply andb_true_iff in L as [-> _]. reflexivity.
  - cbn [orb]. destruct ((65 <=? c)%N && (c <=? 70)%N) eqn:U; [|reflexivity].
    destruct (97 <=? c)%N eqn:A; [|reflexivity].
    apply andb_true_iff in U as [_ U]. apply N.leb_le in A, U. lia.
Qed.

(** The digits of a radix, read up to the first character that is none. *)
Lemma digits_run (radix : Z) (digit : char -> option Z) (p : char -> bool)
    (value : char -> Z) (ds rest : jsstring) :
  (forall c, digit c = if p c then Some (value c) else None) ->
  Forall (fun c => p c = true) ds -> stopsAt p rest ->
  forall acc : option Z,
    Num.digits radix digit (ds ++ rest) acc
    = match ds with
      | [] => acc
      | _ => Some (fold_left (fun a c => a * radix + value c) ds
                     (match acc with Some a => a | None => 0 end))
      end.
Proof.
  intros D F S. induction F as [|c ds Hc _ IH]; intros acc.
  - destruct rest as [|c r]; [reflexivity|]. cbn in S |- *. rewrite D, S. reflexivity.
  - cbn [app Num.digits fold_left]. rewrite D, Hc, IH.
    destruct ds as [|d ds]; destruct acc; cbn [fold_left]; try reflexivity.
Qed.

Lemma magnitude_digits (u : jsstring) (m : option Z) :
  magnitude u m ->
  (let '(radix, digit, s2) :=
     if startsWith (lit "0x") u || startsWith (lit "0X") u
     then (16, Num.digit16, skipn 2 u)
     else (10, Num.digit10, u) in
   Num.digits radix digit s2 None) = m.
Proof.
  intros [x hs rest Hx Hne Fh Sr | x rest Hx Sr | ds rest [Hne Fd] Sr Nh | u' Su].
  - replace (startsWith (lit "0x") (48%N :: x :: hs ++ rest)
             || startsWith (lit "0X") (48%N :: x :: hs ++ rest)) with true
      by (symmetry; apply hexPrefixed_startsWith; eexists _, _; eauto).
    cbn [skipn].
    rewrite (digits_run 16 Num.digit16 isHexDigit hexValue hs rest digit16_hex Fh Sr).
    destruct hs; [congruence | reflexivity].
  - replace (startsWith (lit "0x") (48%N :: x :: rest)
             || startsWith (lit "0X") (48%N :: x :: rest)) with true
      by (symmetry; apply hexPrefixed_startsWith; eexists _, _; eauto).
    cbn [skipn].
    apply (digits_run 16 Num.digit16 isHexDigit hexValue [] rest digit16_hex);
      [constructor | exact Sr].
  - destruct (startsWith (lit "0x") (ds ++ rest) || startsWith (lit "0X") (ds ++ rest))
      eqn:H; [apply hexPrefixed_startsWith in H; contradiction|].
    rewrite (digits_run 10 Num.digit10 Num.isDigit (fun c => Z.of_N c - 48) ds rest);
      [destruct ds; [congruence | reflexivity] | reflexivity | exact Fd | exact Sr].
  - destruct (startsWith (lit "0x") u' || startsWith (lit "0X") u') eqn:H.
    + apply hexPrefixed_startsWith in H as (x & rest & -> & _). discriminate Su.
    + apply (digits_run 10 Num.digit10 Num.isDigit (fun c => Z.of_N c - 48) [] u');
        [reflexivity | constructor | exact Su].
Qed.

(** [parseInt] returns what it is documented to return. *)
Lemma parseInt_reads (t : jsstring) (v : option Z) :
  integerRead t v -> Num.parseInt t = v.
Proof.
  intros (neg & u & m & S & M & ->). unfold Num.parseInt.
  rewrite (signedText_sign t neg u S).
  pose proof (magnitude_digits u m M) as D.
  destruct (startsWith (lit "0x") u || startsWith (lit "0X") u);
    rewrite D; destruct m; reflexivity.
Qed.

Lemma magnitude_total (u : jsstring) : exists m, magnitude u m.
Proof.
  destruct (startsWith (lit "0x") u || startsWith (lit "0X") u) eqn:H.
  - apply hexPrefixed_startsWith in H as (x & rest & -> & Hx).
    pose proof (run_split isHexDigit rest) as E.
    pose proof (leadingRun_forall isHexDigit rest) as F.
    pose proof (afterRun_stops isHexDigit rest) as S.
    remember (afterRun isHexDigit rest) as post eqn:Ep. clear Ep.
    destruct (leadingRun isHexDigit rest) as [|h hs].
    + cbn [app] in E. subst post. exists None. apply hex_nothing; assumption.
    + rewrite E. eexists. apply hex_magnitude; [assumption | discriminate | | ]; assumption.
  - assert (Nh : ~ hexPrefixed u).
    { intros X. apply hexPrefixed_startsWith in X. congruence. }
    pose proof (run_split Num.isDigit u) as E.
    pose proof (leadingRun_forall Num.isDigit u) as F.
    pose proof (afterRun_stops Num.isDigit u) as S.
    remember (afterRun Num.isDigit u) as post eqn:Ep. clear Ep.
    destruct (leadingRun Num.isDigit u) as [|d ds].
    + cbn [app] in E. subst post. exists None. apply no_magnitude. exact S.
    + subst u. eexists. apply decimal_magnitude; [split; [discriminate | exact F] | | ];
        assumption.
Qed.

Lemma signedText_total (t : jsstring) : exists neg u, signedText t neg u.
Proof.
  pose proof (run_split Num.isWhiteSpace t) as E.
  pose proof (leadingRun_forall Num.isWhiteSpace t) as F.
  pose proof (afterRun_stops Num.isWhiteSpace t) as S.
  remember (afterRun Num.isWhiteSpace t) as r eqn:Er. clear Er.
  remember (leadingRun Num.isWhiteSpace t) as ws eqn:Ew. clear Ew. subst t.
  destruct r as [|c r].
  - exists false, []. apply unsigned_text; [exact F | exact I | exact I].
  - destruct (N.eqb_spec c Num.MINUS) as [->|Nm].
    + exists true, r. apply minus_text. exact F.
    + destruct (N.eqb_spec c Num.PLUS) as [->|Np].
      * exists false, r. apply plus_text. exact F.
      * exists false, (c :: r). apply unsigned_text; [exact F | exact S |].
        cbn. unfold isSign. apply orb_false_iff. split; apply N.eqb_neq; assumption.
Qed.

(** Every text is read as a number or as none: the relation leaves no text
    out, and [parseInt] is the function it describes. *)
Lemma parseInt_integerRead (t : jsstring) : integerRead t (Num.parseInt t).
Proof.
  destruct (signedText_total t) as (neg & u & S).
  destruct (magnitude_total u) as (m & M).
  assert (R : integerRead t (option_map (fun z => if neg then - z else z) m))
    by (exists neg, u, m; auto).
  rewrite (parseInt_reads t _ R). exact R.
Qed.

(** ** What [parseFloat] reads from a decimal number *)

Lemma parseFloat_signed (pre : jsstring) (neg : bool) (ip fp : jsstring) :
  Num.sign (Num.trimStart (pre ++ decimalText ip fp)) = (neg, decimalText ip fp) ->
  allDigits ip -> Forall (fun c => Num.isDigit c = true) fp ->
  Num.parseFloat (pre ++ decimalText ip fp)
  = Num.toNumber (Qmult (inject_Z (if neg then - numeral (ip ++ fp) else numeral (ip ++ fp)))
                        (Qpower (inject_Z 10) (- Z.of_nat (length fp)))).
Proof.
  intros Sg [Hne Fi] Ff. unfold Num.parseFloat. rewrite Sg.
  destruct ip as [|c ip]; [congruence|].
  inversion Fi as [|? ? Hc Fip]; subst. unfold decimalText. cbn [app].
  rewrite (class_not_literal Num.isDigit (lit "Infinity") c _ Hc) by reflexivity.
  destruct fp as [|d fp].
  - rewrite app_nil_r. rewrite (spanDigits_all (c :: ip) Fi). cbn [length Z.of_nat].
    rewrite (decimalValue_numeral _ (Forall_app_2 _ _ _ Fi Ff)), ?app_nil_r.
    reflexivity.
  - change (c :: ip ++ lit "." ++ d :: fp) with ((c :: ip) ++ lit "." ++ d :: fp).
    rewrite (spanDigits_exact (c :: ip) _ Fi) by reflexivity.
    change (lit ".") with [Num.DOT]. cbn [app]. rewrite N.eqb_refl.
    rewrite (spanDigits_all (d :: fp) Ff).
    pose proof (decimalValue_numeral _ (Forall_app_2 _ _ _ Fi Ff)) as E.
    cbn [app] in E |- *. rewrite E. reflexivity.
Qed.

Lemma sign_of_digit (c : char) (s : jsstring) :
  Num.isDigit c = true -> Num.sign (c :: s) = (false, c :: s).
Proof.
  intros Hc. apply isDigit_cases in Hc.
  repeat destruct Hc as [Hc|Hc]; subst; reflexivity.
Qed.

(** A number with a minus sign in front. *)
Lemma parseFloat_negative (ip fp : jsstring) :
  allDigits ip -> Forall (fun c => Num.isDigit c = true) fp ->
  Num.parseFloat (Num.MINUS :: decimalText ip fp)
  = Num.toNumber (Qmult (inject_Z (- numeral (ip ++ fp)))
                        (Qpower (inject_Z 10) (- Z.of_nat (length fp)))).
Proof.
  intros Di Ff.
  apply (parseFloat_signed [Num.MINUS] true ip fp); [reflexivity | exact Di | exact Ff].
Qed.

Lemma numeral_nonneg (ds : jsstring) :
  Forall (fun c => Num.isDigit c = true) ds -> 0 <= numeral ds.
Proof.
  intros F. rewrite <- (decimalValue_numeral ds F). apply decimalValue_nonneg.
Qed.

Lemma power_of_ten_nonneg (e : Z) : Qle 0 (Qpower (inject_Z 10) e).
Proof. apply Qpower_0_le. discriminate. Qed.

(** [Math.max(0, x || 0)] of a number that is not negative is the number. *)
Lemma seconds_of_nonneg (q : Q) :
  Qle 0 q ->
  Num.same (Num.max (Num.ofZ 0) (Num.or (Num.toNumber q) (Num.ofZ 0))) (Num.toNumber q).
Proof.
  intros H. destruct (toNumber_nonneg q H) as [-> | (r & -> & Hr)]; [reflexivity|].
  unfold Num.or, Num.truthy. destruct (Qeq_bool r 0) eqn:E; cbn [negb].
  - apply Qeq_bool_eq in E. cbn. symmetry. exact E.
  - unfold Num.max, Num.ofZ. cbn [Num.leb].
    apply Qle_bool_iff in Hr. change (inject_Z 0) with 0%Q. rewrite Hr. cbn.
    reflexivity.
Qed.

(** [Math.max(0, x || 0)] of a number that is not positive is 0. *)
Lemma seconds_of_nonpos (q : Q) :
  Qle q 0 ->
  Num.same (Num.max (Num.ofZ 0) (Num.or (Num.toNumber q) (Num.ofZ 0))) (Num.ofZ 0).
Proof.
  intros H. unfold Num.toNumber.
  destruct (Qle_bool Num.overflowFrom (Qabs q)) eqn:O.
  - destruct (Qle_bool 0 q) eqn:P; [|reflexivity].
    exfalso. apply Qle_bool_iff in P, O.
    assert (Z0 : Qeq q 0) by (apply Qle_antisym; assumption).
    rewrite Z0 in O. vm_compute in O. apply O. reflexivity.
  - destruct (Qle_bool (Qabs q) Num.underflowTo); [reflexivity|].
    unfold Num.or, Num.truthy. destruct (Qeq_bool q 0) eqn:E; cbn [negb]; [reflexivity|].
    unfold Num.max, Num.ofZ. cbn [Num.leb]. change (inject_Z 0) with 0%Q.
    destruct (Qle_bool 0 q) eqn:P; [|reflexivity].
    exfalso. apply Qle_bool_iff in P.
    assert (Z0 : Qeq q 0) by (apply Qle_antisym; assumption).
    apply Qeq_bool_neq in E. contradiction.
Qed.

Lemma negated_product (n : Z) (p : Q) :
  0 <= n -> Qle 0 p -> Qle (Qmult (inject_Z (- n)) p) 0.
Proof.
  intros Hn Hp. destruct p as [a b]. unfold Qle in *. cbn in *. nia.
Qed.

Lemma integerField_normalized (f : field) (d lo hi : Z) :
  lo <= d <= hi ->
  integerField f d lo hi (Z.max lo (Z.min hi (Num.orZ (Num.parseInt (toString f)) d))).
Proof.
  intros Hd. split.
  - intros ->. change (Num.parseInt (toString Undefined)) with (@None Z).
    cbn [Num.orZ]. lia.
  - intros v R. rewrite (parseInt_reads _ _ R), orZ_cases. unfold SpecNormalize.clampZ.
    destruct v as [z|]; [destruct (z =? 0)|]; lia.
Qed.

Lemma secondsField_normalized (f : field) :
  secondsField f
    (Num.max (Num.ofZ 0) (Num.or (Num.parseFloat (toString f)) (Num.ofZ 0))).
Proof.
  split; [apply seconds_same|]. split.
  - intros ->. reflexivity.
  - intros ip fp Di Ff. split; intros ->; cbn [toString].
    + rewrite (parseFloat_decimalText ip fp Di Ff). unfold decimalNumber.
      apply seconds_of_nonneg. apply Qmult_le_0_compat.
      * change 0%Q with (inject_Z 0). rewrite <- Zle_Qle. apply numeral_nonneg.
        apply Forall_app_2; [apply Di | exact Ff].
      * apply power_of_ten_nonneg.
    + rewrite (parseFloat_negative ip fp Di Ff).
      apply seconds_of_nonpos, negated_product.
      * apply numeral_nonneg, Forall_app_2; [apply Di | exact Ff].
      * apply power_of_ten_nonneg.
Qed.

(** C6, amended. For a request whose form carries a text field, so that
    [req.body] exists, each setting is read from its field as follows.  The
    frame rate and the scale are the default (15, 480) when the field is
    absent, when [parseInt] reads no number from it, and also when the number
    read is 0; otherwise they are the number read, clamped to [5,30] and to
    [240,1920].  What [parseInt] reads is the number denoted by the longest
    run of digits after leading white space and an optional sign, in radix
    16 after [0x].  The start offset and the duration are as the
    specification words them: 0 when the field is absent or no number is
    read, the number read when it is not negative, 0 when it is. *)
Theorem normalize_default_then_clamp (form : option body) (s : settings) :
  settingsOf form = Some s ->
  exists b,
    form = Some b /\
    integerField (body_fps b) 15 5 30 (fps s) /\
    integerField (body_scale b) 480 240 1920 (scale s) /\
    secondsField (body_startTime b) (startTime s) /\
    secondsField (body_duration b) (duration s).
Proof.
  unfold settingsOf. destruct form as [b|]; [|discriminate].
  intros H. injection H as <-. exists b. split; [reflexivity|].
  unfold normalize. cbn [fps scale startTime duration].
  split; [apply integerField_normalized; lia|].
  split; [apply integerField_normalized; lia|].
  split; apply secondsField_normalized.
Qed.

Lemma normalize_default_then_clamp_witness :
  fps (normalize Sample.postForm) = 12 /\
  scale (normalize Sample.postForm) = 320 /\
  startTime (normalize Sample.postForm) = Num.ofZ 0.
Proof.
  destruct (normalize_default_then_clamp (Some Sample.postForm) _ eq_refl)
    as (b & E & (_ & Hf) & (_ & Hs) & (_ & Ht & _) & _).
  injection E as <-.
  assert (R : forall ds : jsstring,
             allDigits ds -> stopsAt Num.isWhiteSpace ds -> stopsAt isSign ds ->
             ~ hexPrefixed (ds ++ []) ->
             integerRead ds (Some (numeral ds))).
  { intros ds D Sw Ss Nh. exists false, ds, (Some (numeral ds)).
    split; [exact (unsigned_text [] ds (List.Forall_nil _) Sw Ss)|].
    split; [|reflexivity].
    rewrite <- (app_nil_r ds) at 1. apply decimal_magnitude; [exact D | exact I | exact Nh]. }
  split; [|split].
  - apply (Hf (Some 12)). apply (R (lit "12")).
    + split; [discriminate | repeat constructor].
    + reflexivity.
    + reflexivity.
    + intros (x & rest & E & _). discriminate E.
  - apply (Hs (Some 320)). apply (R (lit "320")).
    + split; [discriminate | repeat constructor].
    + reflexivity.
    + reflexivity.
    + intros (x & rest & E & _). discriminate E.
  - apply Ht. reflexivity.
Defined.

(** ** The [/video-info] reply *)

(** The callback answers "FFmpeg info extraction failed" when its [stderr]
    argument is empty, however the probe ended. *)
Lemma infoCallback_empty (inp : jsstring) (v : upload) (e : proc_end) (st : state) :
  replies (infoCallback inp v e [] st)
  = replies st ++ [Json 500 (lit "FFmpeg info extraction failed")].
Proof.
  unfold infoCallback.
  destruct (unlinkIfExists_total (Some inp) st) as [st1 E]. rewrite E.
  apply unlinkIfExists_response in E as [R _].
  cbn [json replies]. rewrite R. reflexivity.
Qed.

(** C10. The reply of [/video-info] does not depend on the diagnostic text
    of ffmpeg: the command ends in [2>&1], the text reaches the callback as
    [stdout], and the callback reads [stderr] only.  For an accepted upload
    and a shell that wrote nothing on its own error stream, the reply is
    "FFmpeg info extraction failed" however the probe ended and whatever
    ffmpeg printed, a line with a duration included; no metadata payload is
    sent. *)
Theorem info_endpoint_never_reads_the_diagnostics (dir : jsstring) (now : N)
    (req : request) (v : upload) (sz : N) (st : state) :
  video req = Some v -> isValidVideoFile (name v) = true ->
  moveRejects v = false -> fs st !! tempFilePath v = Some sz ->
  forall (e : proc_end) (out text : jsstring),
    replies (infoEndpoint dir now req
               {| probeEnding := e; ffmpegOutput := out; ffmpegDiagnostics := text;
                  shellComplaint := [] |} st)
    = replies st ++ [Json 500 (lit "FFmpeg info extraction failed")].
Proof.
  intros V I M T e out text. unfold infoEndpoint, infoHandler, execStderr.
  cbn [probeEnding shellComplaint]. rewrite V, I. cbn [negb].
  unfold mv. rewrite M, T. rewrite infoCallback_empty. reflexivity.
Qed.

Lemma info_endpoint_never_reads_the_diagnostics_witness :
  hasDuration Sample.streamText /\
  replies (Sample.probeRun (Exited 0) Sample.streamText)
  = [] ++ [Json 500 (lit "FFmpeg info extraction failed")].
Proof.
  split.
  - exists [], 0, 1, 5, 50.
    exists (lit "00"), (lit "01"), (lit "05"), (lit "50").
    eexists. split; [reflexivity|].
    repeat split; do 2 eexists; repeat split; reflexivity.
  - exact (info_endpoint_never_reads_the_diagnostics (lit "/tmp") 1700000000000
             Sample.post Sample.clip 2048 (arrive Sample.files)
             eq_refl eq_refl eq_refl eq_refl (Exited 0) [] Sample.streamText).
Defined.

(** What the callback does read is the error stream of the shell.  A text
    there that is not empty and holds no duration, such as the complaint of
    the shell about a quote left open, is answered "Could not extract video
    information". *)
Lemma info_reply_without_duration (inp : jsstring) (v : upload) (e : proc_end)
    (text : jsstring) (st : state) :
  text <> [] -> ~ hasDuration text ->
  replies (infoCallback inp v e text st)
  = replies st ++ [Json 500 (lit "Could not extract video information")].
Proof.
  intros Hne Hd. unfold infoCallback.
  destruct (unlinkIfExists_total (Some inp) st) as [st1 E]. rewrite E.
  apply unlinkIfExists_response in E as [R _].
  destruct text as [|c t]; [congruence|].
  rewrite (parseInfo_without_duration (c :: t) (name v) (size v) Hd).
  cbn [json replies]. rewrite R. reflexivity.
Qed.

(** * Further properties of the code *)

(** ** escapeShellPath *)

(** A quoted plain path, wherever a word may start, is read as one word. *)
Lemma lex_escapeShellPath (p : jsstring) (acc : list jsstring) (rest : jsstring) :
  forallb Shell.plainInQuotes p = true ->
  Shell.lex Shell.Plain None acc (escapeShellPath p ++ rest)
  = Shell.lex Shell.Plain (Some p) acc rest.
Proof.
  intros Hp. unfold escapeShellPath. rewrite <- !app_assoc.
  cbn [app Shell.lex]. cbn. unfold Shell.start.
  rewrite (lex_escapeQuotes p Hp). cbn. reflexivity.
Qed.

Lemma lex_blank (w : jsstring) (acc : list jsstring) (rest : jsstring) :
  Shell.lex Shell.Plain (Some w) acc (32%N :: rest)
  = Shell.lex Shell.Plain None (acc ++ [w]) rest.
Proof. reflexivity. Qed.

(** X1. A path without backslash, dollar sign and backquote (spaces, single
    and double quotes allowed) is passed by the shell as one argument equal
    to the path, alone or followed by further words on the command line. *)
Theorem quoted_path_is_one_argument (p : jsstring) :
  forallb Shell.plainInQuotes p = true ->
  Shell.words (escapeShellPath p) = Shell.Args [p] /\
  forall (acc : list jsstring) (rest : jsstring),
    Shell.lex Shell.Plain None acc (escapeShellPath p ++ 32%N :: rest)
    = Shell.lex Shell.Plain None (acc ++ [p]) rest.
Proof.
  intros Hp. split.
  - unfold Shell.words. rewrite <- (app_nil_r (escapeShellPath p)).
    rewrite (lex_escapeShellPath p [] [] Hp). reflexivity.
  - intros acc rest. rewrite (lex_escapeShellPath p acc _ Hp). apply lex_blank.
Qed.

Lemma quoted_path_is_one_argument_witness :
  Shell.words (escapeShellPath Sample.quotedPath) = Shell.Args [Sample.quotedPath].
Proof.
  apply (proj1 (quoted_path_is_one_argument Sample.quotedPath eq_refl)).
Defined.

Lemma escapeQuotes_inj (p q : jsstring) :
  escapeQuotes p = escapeQuotes q -> p = q.
Proof.
  revert q. induction p as [|c p IH]; intros [|d q] H; cbn [escapeQuotes] in H.
  - reflexivity.
  - destruct (d =? DQUOTE)%N; discriminate.
  - destruct (c =? DQUOTE)%N; discriminate.
  - destruct (N.eqb_spec c DQUOTE) as [->|Hc], (N.eqb_spec d DQUOTE) as [->|Hd].
    + injection H as H. f_equal. apply IH, H.
    + injection H as Hd' H. exfalso. destruct q as [|e q]; cbn [escapeQuotes] in H.
      * discriminate.
      * destruct (N.eqb_spec e DQUOTE) as [->|He]; injection H as H _.
        -- discriminate.
        -- congruence.
    + injection H as Hc' H. exfalso. destruct p as [|e p]; cbn [escapeQuotes] in H.
      * discriminate.
      * destruct (N.eqb_spec e DQUOTE) as [->|He]; injection H as H _.
        -- discriminate.
        -- congruence.
    + injection H as -> H. f_equal. apply IH, H.
Qed.

(** X2. Quoting loses nothing: two different paths never get the same
    quoted text. *)
Theorem escapeShellPath_injective (p q : jsstring) :
  escapeShellPath p = escapeShellPath q -> p = q.
Proof.
  unfold escapeShellPath. intros H. injection H as H.
  apply app_inv_tail in H. apply escapeQuotes_inj, H.
Qed.

Lemma escapeShellPath_injective_witness :
  lit "/tmp/my clip" ++ [DQUOTE] ++ lit ".mp4" = Sample.quotedPath.
Proof. apply escapeShellPath_injective. vm_compute. reflexivity. Defined.

(** X3. Inside the quoted text every double quote of the path is kept, and
    each has a backslash character immediately in front of it.  Whether
    that backslash escapes the quote for the shell depends on what stands
    in front of the backslash: after a backslash of the path it does not. *)
Theorem escaped_quotes_follow_backslash (p : jsstring) :
  (forall pre post,
      escapeQuotes p = pre ++ DQUOTE :: post ->
      exists pre', pre = pre' ++ [BACKSLASH]) /\
  count_occ N.eq_dec (escapeQuotes p) DQUOTE = count_occ N.eq_dec p DQUOTE.
Proof.
  split.
  - induction p as [|c p IH]; intros pre post H; cbn [escapeQuotes] in H.
    + destruct pre; discriminate.
    + destruct (N.eqb_spec c DQUOTE) as [->|Hc].
      * destruct pre as [|x [|y pre]]; cbn in H.
        -- discriminate.
        -- injection H as <- _. exists []. reflexivity.
        -- injection H as <- <- H. apply IH in H as [pre' ->].
           exists (BACKSLASH :: DQUOTE :: pre'). reflexivity.
      * destruct pre as [|x pre]; cbn in H.
        -- injection H as H _. congruence.
        -- injection H as <- H. apply IH in H as [pre' ->].
           exists (c :: pre'). reflexivity.
  - induction p as [|c p IH]; [reflexivity|]. cbn [escapeQuotes].
    destruct (N.eqb_spec c DQUOTE) as [->|Hc].
    + cbn. rewrite IH. destruct (N.eq_dec DQUOTE DQUOTE); [|congruence].
      destruct (N.eq_dec BACKSLASH DQUOTE); [discriminate|]. reflexivity.
    + cbn. rewrite IH. reflexivity.
Qed.

(** ** isValidVideoFile *)

Lemma str_eqb_eq (a b : jsstring) : str_eqb a b = true <-> a = b.
Proof. unfold str_eqb. destruct (decide (a = b)); split; congruence. Qed.

Lemma dropTrailing_split (p : jsstring) :
  exists slashes,
    p = dropTrailing p ++ slashes /\ Forall (fun c => c = SLASH) slashes.
Proof.
  induction p as [|c p (sl & E & F)]; [exists []; split; [reflexivity | constructor]|].
  cbn [dropTrailing]. destruct (dropTrailing p) as [|d r] eqn:D.
  - destruct (N.eqb_spec c SLASH) as [->|Hc].
    + exists (SLASH :: sl). simpl in E. subst p. split; [reflexivity|].
      constructor; [reflexivity | exact F].
    + exists sl. simpl in E. subst p. split; [reflexivity | exact F].
  - exists sl. split; [|exact F]. rewrite E at 1. reflexivity.
Qed.

Lemma dropTrailing_noslash (s : jsstring) : ~ In SLASH s -> dropTrailing s = s.
Proof.
  induction s as [|c s IH]; intros H; [reflexivity|]. cbn [dropTrailing].
  rewrite IH by (intros X; apply H; right; exact X).
  destruct s; [|reflexivity].
  destruct (N.eqb_spec c SLASH) as [->|]; [|reflexivity].
  exfalso. apply H. left. reflexivity.
Qed.

Lemma lastSegment_split (p acc : jsstring) :
  exists pre, acc ++ p = pre ++ lastSegment p acc.
Proof.
  revert acc. induction p as [|c p IH]; intros acc; cbn [lastSegment].
  - exists []. rewrite app_nil_r. reflexivity.
  - destruct (c =? SLASH)%N.
    + destruct (IH []) as [pre E]. exists (acc ++ c :: pre).
      rewrite <- app_assoc. cbn [app] in *. rewrite <- E. reflexivity.
    + destruct (IH (acc ++ [c])) as [pre E]. exists pre.
      rewrite <- E, <- app_assoc. reflexivity.
Qed.

Lemma lastSegment_noslash (s acc : jsstring) :
  ~ In SLASH s -> lastSegment s acc = acc ++ s.
Proof.
  revert acc. induction s as [|c s IH]; intros acc H; cbn [lastSegment].
  - rewrite app_nil_r. reflexivity.
  - destruct (N.eqb_spec c SLASH) as [->|].
    + exfalso. apply H. left. reflexivity.
    + rewrite IH by (intros X; apply H; right; exact X).
      rewrite <- app_assoc. reflexivity.
Qed.

Lemma lastDot_split (s : jsstring) (first : bool) (e : jsstring) (b : bool) :
  lastDot s first = Some (e, b) ->
  exists pre, s = pre ++ e /\ exists r, e = Num.DOT :: r.
Proof.
  revert first. induction s as [|c s IH]; intros first H; cbn [lastDot] in H.
  - discriminate.
  - destruct (lastDot s false) as [[e' b']|] eqn:L.
    + injection H as -> ->. destruct (IH false L) as (pre & -> & r & ->).
      exists (c :: pre). split; [reflexivity | eauto].
    + destruct (N.eqb_spec c Num.DOT) as [->|]; [|discriminate].
      injection H as <- _. exists []. split; [reflexivity | eauto].
Qed.

Lemma lastDot_none (s : jsstring) (first : bool) :
  ~ In Num.DOT s -> lastDot s first = None.
Proof.
  revert first. induction s as [|c s IH]; intros first H; cbn [lastDot]; [reflexivity|].
  rewrite IH by (intros X; apply H; right; exact X).
  destruct (N.eqb_spec c Num.DOT) as [->|]; [|reflexivity].
  exfalso. apply H. left. reflexivity.
Qed.

Lemma lastDot_app (stem rest : jsstring) (first : bool) :
  stem <> [] -> ~ In Num.DOT rest ->
  lastDot (stem ++ Num.DOT :: rest) first = Some (Num.DOT :: rest, true).
Proof.
  intros Hs Hr. revert first. induction stem as [|c stem IH]; [congruence|].
  intros first. cbn [app lastDot]. destruct stem as [|d stem].
  - cbn [app lastDot]. rewrite (lastDot_none rest false Hr). reflexivity.
  - rewrite IH by discriminate. reflexivity.
Qed.

Lemma extname_of_plain_name (stem rest : jsstring) :
  stem <> [] -> ~ In SLASH stem -> rest <> [] ->
  ~ In Num.DOT rest -> ~ In SLASH rest ->
  extname (stem ++ Num.DOT :: rest) = Num.DOT :: rest.
Proof.
  intros Hs Hss Hr Hrd Hrs. unfold extname.
  assert (NS : ~ In SLASH (stem ++ Num.DOT :: rest)).
  { rewrite in_app_iff. intros [X|[X|X]]; [auto | discriminate | auto]. }
  rewrite (dropTrailing_noslash _ NS), (lastSegment_noslash _ [] NS). cbn [app].
  unfold str_eqb.
  match goal with |- context [decide ?P] => destruct (decide P) as [E|_] end.
  - exfalso. apply (f_equal (@length char)) in E. rewrite length_app in E.
    destruct stem, rest; try congruence; cbn in E; lia.
  - rewrite (lastDot_app stem rest true Hs Hrd). reflexivity.
Qed.

Lemma lowerChar_dot (c : char) : lowerChar c = Num.DOT <-> c = Num.DOT.
Proof.
  unfold lowerChar, Num.DOT.
  destruct ((65 <=? c)%N && (c <=? 90)%N) eqn:A.
  - apply andb_true_iff in A as [A B]. apply N.leb_le in A, B. lia.
  - destruct (N.eqb_spec c 8490); lia.
Qed.

Lemma lowerChar_slash (c : char) : lowerChar c = SLASH <-> c = SLASH.
Proof.
  unfold lowerChar, SLASH.
  destruct ((65 <=? c)%N && (c <=? 90)%N) eqn:A.
  - apply andb_true_iff in A as [A B]. apply N.leb_le in A, B. lia.
  - destruct (N.eqb_spec c 8490); lia.
Qed.

Lemma toLowerCase_keeps (x : char) (s : jsstring) :
  (forall c, lowerChar c = x <-> c = x) ->
  In x s <-> In x (toLowerCase s).
Proof.
  intros Hx. unfold toLowerCase. rewrite in_map_iff. split.
  - intros H. exists x. split; [apply Hx; reflexivity | exact H].
  - intros (c & E & H). apply (proj1 (Hx c)) in E. subst c. exact H.
Qed.

Lemma validExtensions_shape (x : jsstring) :
  In x validExtensions ->
  exists rest, x = Num.DOT :: rest /\ rest <> [] /\
               ~ In Num.DOT rest /\ ~ In SLASH rest.
Proof.
  unfold validExtensions. cbn [In]. intros H.
  repeat destruct H as [H|H]; try contradiction; subst x;
    (eexists; split; [vm_compute; reflexivity|];
     split; [discriminate|]; split; vm_compute; intuition discriminate).
Qed.

(** An extension whose lower-case form is on the allow-list is a dot
    followed by letters and digits. *)
Lemma allowed_extension_shape (e : jsstring) :
  In (toLowerCase e) validExtensions ->
  exists rest, e = Num.DOT :: rest /\ rest <> [] /\
               ~ In Num.DOT rest /\ ~ In SLASH rest.
Proof.
  intros H. apply validExtensions_shape in H as (r & E & Hr & Hd & Hs).
  destruct e as [|c rest]; [discriminate|].
  cbn [toLowerCase List.map] in E. injection E as Hc E.
  apply (proj1 (lowerChar_dot c)) in Hc. subst c. exists rest.
  split; [reflexivity|]. subst r. split; [|split].
  - intros ->. apply Hr. reflexivity.
  - rewrite (toLowerCase_keeps Num.DOT rest lowerChar_dot). exact Hd.
  - rewrite (toLowerCase_keeps SLASH rest lowerChar_slash). exact Hs.
Qed.

Lemma isValidVideoFile_spec (filename : jsstring) :
  isValidVideoFile filename = true <->
  In (toLowerCase (extname filename)) validExtensions.
Proof.
  unfold isValidVideoFile. rewrite existsb_exists. split.
  - intros (x & Hx & E). apply str_eqb_eq in E. rewrite E. exact Hx.
  - intros H. exists (toLowerCase (extname filename)).
    split; [exact H | apply str_eqb_eq; reflexivity].
Qed.

(** X4. A base name made of a non-empty stem and an extension that is on
    the allow-list up to the case of its letters ([clip.mp4], [My.Clip.MOV])
    is accepted. *)
Theorem allowed_extension_is_accepted (stem e : jsstring) :
  stem <> [] -> ~ In SLASH stem -> In (toLowerCase e) validExtensions ->
  isValidVideoFile (stem ++ e) = true.
Proof.
  intros Hs Hss He. apply isValidVideoFile_spec.
  destruct (allowed_extension_shape e He) as (rest & -> & Hr & Hd & Hsl).
  rewrite (extname_of_plain_name stem rest Hs Hss Hr Hd Hsl). exact He.
Qed.

Lemma allowed_extension_is_accepted_witness :
  isValidVideoFile (lit "My.Clip" ++ lit ".MOV") = true.
Proof.
  apply allowed_extension_is_accepted.
  - discriminate.
  - vm_compute. intuition discriminate.
  - vm_compute. tauto.
Defined.

(** X5. A name without a dot has no extension and is rejected. *)
Theorem name_without_dot_is_rejected (filename : jsstring) :
  ~ In Num.DOT filename -> isValidVideoFile filename = false.
Proof.
  intros H. destruct (isValidVideoFile filename) eqn:V; [|reflexivity].
  exfalso. apply isValidVideoFile_spec in V.
  assert (E : extname filename = []).
  { unfold extname.
    destruct (str_eqb (lastSegment (dropTrailing filename) []) (lit "..")); [reflexivity|].
    rewrite lastDot_none; [reflexivity|].
    intros X. apply H.
    destruct (dropTrailing_split filename) as (sl & E1 & _).
    destruct (lastSegment_split (dropTrailing filename) []) as (pre & E2).
    rewrite E1. cbn [app] in E2. rewrite E2, !in_app_iff. auto. }
  rewrite E in V. cbn in V. intuition discriminate.
Qed.

Lemma name_without_dot_is_rejected_witness :
  isValidVideoFile (lit "clip-mp4") = false.
Proof.
  apply name_without_dot_is_rejected. vm_compute. intuition discriminate.
Defined.

(** X6. Whatever is accepted ends, trailing slashes aside, in an extension
    that is on the allow-list up to the case of its letters. *)
Theorem accepted_name_has_allowed_extension (filename : jsstring) :
  isValidVideoFile filename = true ->
  exists e, In (toLowerCase e) validExtensions /\ endsWithExt filename e.
Proof.
  intros V. apply isValidVideoFile_spec in V.
  exists (extname filename). split; [exact V|].
  unfold extname in *.
  destruct (dropTrailing_split filename) as (sl & E1 & F).
  destruct (lastSegment_split (dropTrailing filename) []) as (pre & E2).
  cbn [app] in E2.
  destruct (str_eqb (lastSegment (dropTrailing filename) []) (lit ".."));
    [cbn in V; intuition discriminate|].
  destruct (lastDot (lastSegment (dropTrailing filename) []) true)
    as [[e b]|] eqn:L; [|cbn in V; intuition discriminate].
  destruct b; [|cbn in V; intuition discriminate].
  apply lastDot_split in L as (pre2 & E3 & _).
  exists (pre ++ pre2), sl. split; [|exact F].
  rewrite E1 at 1. rewrite E2, E3, <- !app_assoc. reflexivity.
Qed.

Lemma accepted_name_has_allowed_extension_witness :
  exists e, In (toLowerCase e) validExtensions /\ endsWithExt (lit "a.b/Clip.WebM/") e.
Proof. apply accepted_name_has_allowed_extension. reflexivity. Defined.

(** ** cleanup *)

(** X7. After [cleanup] neither temporary file exists, every other file is
    as it was, and the response is untouched. *)
Theorem cleanup_removes_both_files_only (i o : jsstring) (st : state) :
  (forall p, fs (cleanup (Some i) (Some o) st) !! p
             = if decide (p = i \/ p = o) then None else fs st !! p) /\
  replies (cleanup (Some i) (Some o) st) = replies st /\
  headersSent (cleanup (Some i) (Some o) st) = headersSent st.
Proof.
  rewrite cleanup_eq. cbn [fs replies headersSent]. split; [|auto].
  intros p. destruct (decide (p = i \/ p = o)) as [[->| ->]|N].
  - destruct (decide (i = o)) as [->|Hne].
    + apply lookup_delete_eq.
    + rewrite lookup_delete_ne by congruence. apply lookup_delete_eq.
  - apply lookup_delete_eq.
  - rewrite !lookup_delete_ne by (intros ->; tauto). reflexivity.
Qed.

(** X8. A second [cleanup] changes nothing: it finds no file and unlinks
    nothing, whether the paths are set or still null. *)
Theorem cleanup_twice_is_cleanup_once (i o : option jsstring) (st : state) :
  cleanup i o (cleanup i o st) = cleanup i o st.
Proof.
  destruct i as [i|], o as [o|].
  - rewrite (cleanup_eq i o (cleanup (Some i) (Some o) st)).
    rewrite (cleanup_eq i o st). cbn [fs headersSent replies unlinks].
    unfold existsSync. cbn [fs].
    assert (A : delete o (delete i (fs st)) !! i = None).
    { destruct (decide (i = o)) as [->|Hne].
      - apply lookup_delete_eq.
      - rewrite lookup_delete_ne by congruence. apply lookup_delete_eq. }
    assert (B : delete i (delete o (delete i (fs st))) !! o = None).
    { rewrite (delete_id _ _ A). apply lookup_delete_eq. }
    rewrite A, B, (delete_id _ _ A).
    rewrite (delete_id (delete o (delete i (fs st))) o) by apply lookup_delete_eq.
    rewrite !app_nil_r. reflexivity.
  - assert (E : forall s, cleanup (Some i) None s
                          = {| fs := delete i (fs s); headersSent := headersSent s;
                               replies := replies s;
                               unlinks := unlinks s ++ (if existsSync i s then [i] else []) |}).
    { intros s. unfold cleanup. rewrite unlinkIfExists_eq. reflexivity. }
    rewrite !E. unfold existsSync. cbn [fs headersSent replies unlinks].
    rewrite lookup_delete_eq, app_nil_r.
    rewrite (delete_id (delete i (fs st)) i) by apply lookup_delete_eq. reflexivity.
  - assert (E : forall s, cleanup None (Some o) s
                          = {| fs := delete o (fs s); headersSent := headersSent s;
                               replies := replies s;
                               unlinks := unlinks s ++ (if existsSync o s then [o] else []) |}).
    { intros s. unfold cleanup. change (unlinkIfExists None s) with (Some s).
      cbv beta iota. rewrite unlinkIfExists_eq. reflexivity. }
    rewrite !E. unfold existsSync. cbn [fs headersSent replies unlinks].
    rewrite lookup_delete_eq, app_nil_r.
    rewrite (delete_id (delete o (fs st)) o) by apply lookup_delete_eq. reflexivity.
  - reflexivity.
Qed.

(** X9. [cleanup] calls [unlinkSync] exactly on those of the two paths that
    exist, the input path first, and never on a missing file. *)
Theorem cleanup_unlinks_what_exists (i o : jsstring) (st : state) :
  i <> o ->
  unlinks (cleanup (Some i) (Some o) st)
  = unlinks st ++ List.filter (fun p => existsSync p st) [i; o].
Proof.
  intros Hne. rewrite cleanup_eq. cbn [unlinks List.filter].
  rewrite lookup_delete_ne by exact Hne. unfold existsSync.
  destruct (fs st !! i), (fs st !! o); cbn; rewrite <- ?app_assoc, ?app_nil_r; reflexivity.
Qed.

Lemma cleanup_unlinks_what_exists_witness :
  unlinks (cleanup (Some Sample.clipInput) (Some Sample.clipOutput)
             (arrive {[ Sample.clipInput := 2048%N ]}))
  = [] ++ List.filter (fun p => existsSync p (arrive {[ Sample.clipInput := 2048%N ]}))
            [Sample.clipInput; Sample.clipOutput].
Proof.
  apply (cleanup_unlinks_what_exists Sample.clipInput Sample.clipOutput
           (arrive {[ Sample.clipInput := 2048%N ]})).
  vm_compute. discriminate.
Defined.

(** ** Temporary paths, continued *)

(** X10. For upload names that are base names, the path of an input file
    tells the millisecond and the upload name of its job, and the path of an
    output file tells the millisecond: two jobs share an input path only if
    both coincide, on [/gif] and on [/video-info] alike. *)
Theorem temp_path_determines_job (dir : jsstring) (t1 t2 : N) (n1 n2 : jsstring) :
  ~ In SLASH n1 -> ~ In SLASH n2 ->
  (gifInputPath dir t1 n1 = gifInputPath dir t2 n2 <-> t1 = t2 /\ n1 = n2) /\
  (infoInputPath dir t1 n1 = infoInputPath dir t2 n2 <-> t1 = t2 /\ n1 = n2) /\
  (gifOutputPath dir t1 = gifOutputPath dir t2 <-> t1 = t2).
Proof.
  intros _ _. split; [|split]; split.
  - apply stamped_name_inj.
  - intros [-> ->]. reflexivity.
  - apply stamped_name_inj.
  - intros [-> ->]. reflexivity.
  - apply gifOutputPath_inj.
  - intros ->. reflexivity.
Qed.

Lemma temp_path_determines_job_witness :
  gifInputPath (lit "/tmp") 1700000000000 (lit "a.mp4")
  = gifInputPath (lit "/tmp") 1700000000000 (lit "a.mp4")
  <-> 1700000000000%N = 1700000000000%N /\ lit "a.mp4" = lit "a.mp4".
Proof.
  apply (temp_path_determines_job (lit "/tmp") 1700000000000 1700000000000
           (lit "a.mp4") (lit "a.mp4")).
  - vm_compute. intuition discriminate.
  - vm_compute. intuition discriminate.
Defined.

(** X11. For upload names that are base names, the three kinds of temporary
    file never collide, whatever the timestamps: an input file of [/gif] is
    no output file, and the input file of [/video-info] is neither. *)
Theorem temp_paths_of_different_roles_differ (dir : jsstring) (t1 t2 : N)
    (n1 n2 : jsstring) :
  ~ In SLASH n1 -> ~ In SLASH n2 ->
  gifInputPath dir t1 n1 <> gifOutputPath dir t2 /\
  infoInputPath dir t1 n1 <> gifInputPath dir t2 n2 /\
  infoInputPath dir t1 n1 <> gifOutputPath dir t2.
Proof.
  intros _ _. unfold gifInputPath, gifOutputPath, infoInputPath, path_join.
  repeat split; intros H; apply app_inv_head in H; cbn in H; discriminate.
Qed.

Lemma temp_paths_of_different_roles_differ_witness :
  gifInputPath (lit "/tmp") 5 (lit "a.mp4") <> gifOutputPath (lit "/tmp") 5.
Proof.
  apply (temp_paths_of_different_roles_differ (lit "/tmp") 5 5 (lit "a.mp4") (lit "a.mp4")).
  - vm_compute. intuition discriminate.
  - vm_compute. intuition discriminate.
Defined.

(** ** The [/gif] handler as a whole *)

Lemma afterChild_response (j : gif_job) (r : run) (st : state) :
  replies (afterChild j r st) = replies st /\
  headersSent (afterChild j r st) = headersSent st /\
  unlinks (afterChild j r st) = unlinks st.
Proof. unfold afterChild. destruct (written r); auto. Qed.

(** What the asynchronous part adds to the replies: one or two, never a 400;
    two only after SIGTERM or a failed transmission. *)
Lemma gifAsync_replies (j : gif_job) (r : run) (st : state) :
  exists new,
    replies (gifAsync j r st) = replies st ++ new /\
    (1 <= length new <= 2)%nat /\ Forall not400 new /\
    (length new = 2%nat ->
     ending r = Signaled SIGTERM \/ exists b, stream r = StreamError b).
Proof.
  destruct (afterChild_response j r st) as (R0 & S0 & _).
  unfold gifAsync. destruct (ending r) as [c|sig] eqn:E.
  - cbn [onExit]. unfold execCallback.
    destruct (execError (Exited c)).
    + eexists [_]. cbn [json replies fst]. rewrite R0.
      repeat split; cbn; try lia; repeat constructor; cbn; lia.
    + destruct (fs (afterChild j r st) !! outputPath j) as [sz|].
      * destruct (sz =? 0)%N.
        -- eexists [_]. cbn [json replies]. rewrite R0.
           repeat split; cbn; try lia; repeat constructor; cbn; lia.
        -- unfold onStream. destruct (stream r) as [|flushed|] eqn:St.
           ++ eexists [_].
              match goal with |- context [cleanup ?i ?o ?s] =>
                destruct (cleanup_response i o s) as [R _] end.
              rewrite R. cbn [replies withHeadersSent]. rewrite R0.
              repeat split; cbn; try lia; repeat constructor; cbn; lia.
           ++ match goal with |- context [cleanup ?i ?o ?s] =>
                destruct (cleanup_response i o s) as [R _];
                destruct (headersSent (cleanup i o s))
              end; cbn [negb].
              ** eexists [_]. rewrite R. cbn [replies withHeadersSent]. rewrite R0.
                 repeat split; cbn; try lia; eauto; repeat constructor; cbn; lia.
              ** eexists [_; _]. cbn [json replies]. rewrite R.
                 cbn [replies withHeadersSent]. rewrite R0, <- app_assoc.
                 repeat split; cbn; try lia; eauto; repeat constructor; cbn; lia.
           ++ eexists [_]. cbn [replies]. rewrite R0.
              repeat split; cbn; try lia; repeat constructor; cbn; lia.
      * eexists [_]. cbn [json replies]. rewrite R0.
        repeat split; cbn; try lia; repeat constructor; cbn; lia.
  - cbn [onExit]. unfold execCallback. cbn [execError].
    destruct (str_eqb sig SIGTERM) eqn:T.
    + apply str_eqb_eq in T. subst sig.
      match goal with |- context [cleanup ?i ?o ?s] =>
        destruct (cleanup_response i o s) as [R _];
        destruct (headersSent (cleanup i o s))
      end; cbn [negb].
      * eexists [_]. cbn [json replies]. rewrite R, R0.
        repeat split; cbn; try lia; eauto; repeat constructor; cbn; lia.
      * eexists [_; _]. cbn [json replies]. rewrite R, R0, <- app_assoc.
        repeat split; cbn; try lia; eauto; repeat constructor; cbn; lia.
    + eexists [_]. cbn [json replies]. rewrite R0.
      repeat split; cbn; try lia; repeat constructor; cbn; lia.
Qed.

Lemma mv_response (u : upload) (dest : jsstring) (st st' : state) :
  mv u dest st = Some st' ->
  replies st' = replies st /\ headersSent st' = headersSent st /\
  unlinks st' = unlinks st /\
  exists sz, fs st !! tempFilePath u = Some sz /\
             fs st' = <[dest := sz]> (delete (tempFilePath u) (fs st)).
Proof.
  unfold mv. destruct (moveRejects u); [discriminate|].
  destruct (fs st !! tempFilePath u) as [sz|]; [|discriminate].
  intros H. injection H as <-. cbn. eauto 6.
Qed.

(** The synchronous part either launches the child without a reply, or
    replies once and launches nothing. *)
Lemma gifSync_cases (dir : jsstring) (now : N) (req : request) (st : state) :
  (rejected req /\
   exists m, gifSync dir now req st = (json 400 m st, None)) \/
  (~ rejected req /\
   exists v st1, video req = Some v /\
     ((exists j, gifSync dir now req st = (st1, Some j) /\
                 replies st1 = replies st /\ unlinks st1 = unlinks st /\
                 inputPath j = gifInputPath dir now (name v) /\
                 outputPath j = gifOutputPath dir now) \/
      (gifSync dir now req st
       = (json 500 (lit "Internal server error")
            (cleanup (Some (gifInputPath dir now (name v)))
                     (Some (gifOutputPath dir now)) st1), None) /\
       replies st1 = replies st /\ unlinks st1 = unlinks st))).
Proof.
  unfold gifSync, settingsOf, rejected. destruct (video req) as [v|] eqn:V.
  - destruct (isValidVideoFile (name v)) eqn:I; cbn [negb].
    + right. split.
      { intros [X|(v' & X & Y)]; [discriminate|]. injection X as <-. congruence. }
      destruct (form req) as [b|]; cbn [option_map];
        [|exists v, st; split; [reflexivity|]; right; auto].
      destruct (mv v (gifInputPath dir now (name v)) st) as [st1|] eqn:M.
      * apply mv_response in M as (R & _ & U & _).
        exists v, st1. split; [reflexivity|].
        destruct (fs st1 !! gifInputPath dir now (name v)) as [sz|].
        -- destruct (sz =? 0)%N.
           ++ right. auto.
           ++ left. eexists. repeat split; auto.
        -- right. auto.
      * exists v, st. split; [reflexivity|]. right. auto.
    + left. split; [right; eauto | eauto].
  - left. split; [left; reflexivity | eauto].
Qed.

(** X12. On [/gif] a 400 is issued exactly when no file was uploaded or its
    name has no allowed extension; it is then the only reply, no child is
    launched, and no file is created, moved or unlinked. *)
Theorem gif_rejection_touches_nothing (dir : jsstring) (now : N) (req : request)
    (r : run) (st : state) :
  exists new,
    replies (gifHandler dir now req r st) = replies st ++ new /\
    ((exists m, In (Json 400 m) new) <-> rejected req) /\
    (rejected req ->
     (exists m, new = [Json 400 m]) /\
     fs (gifHandler dir now req r st) = fs st /\
     unlinks (gifHandler dir now req r st) = unlinks st).
Proof.
  unfold gifHandler.
  destruct (gifSync_cases dir now req st)
    as [(Rj & m & ->) | (Nr & v & st1 & V & [(j & -> & R & U & _) | (-> & R & U)])].
  - exists [Json 400 m]. cbn [json replies fs unlinks]. repeat split; eauto.
    intros _. exists m. left. reflexivity.
  - destruct (gifAsync_replies j r st1) as (new & E & _ & F & _).
    exists new. rewrite E, R. repeat split; try tauto.
    intros (m & Hin). exfalso. rewrite List.Forall_forall in F.
    apply F in Hin. cbn in Hin. congruence.
  - eexists [_]. cbn [json replies].
    match goal with |- context [cleanup ?i ?o ?s] =>
      destruct (cleanup_response i o s) as [Rc _] end.
    rewrite Rc, R. repeat split; try tauto.
    intros (m & [Hin|[]]). discriminate.
Qed.

Lemma gif_rejection_touches_nothing_witness :
  exists new,
    replies (gifHandler (lit "/tmp") 5
               {| video := None; form := form Sample.post |}
               Sample.goodRun (arrive Sample.files))
    = replies (arrive Sample.files) ++ new /\
    (exists m, new = [Json 400 m]) /\
    fs (gifHandler (lit "/tmp") 5 {| video := None; form := form Sample.post |}
          Sample.goodRun (arrive Sample.files)) = Sample.files.
Proof.
  destruct (gif_rejection_touches_nothing (lit "/tmp") 5
              {| video := None; form := form Sample.post |}
              Sample.goodRun (arrive Sample.files)) as (new & E & _ & H).
  exists new. split; [exact E|].
  destruct (H (or_introl eq_refl)) as (Hm & Hf & _). split; [exact Hm | exact Hf].
Defined.

(** X13. Every [/gif] request is answered: the handler issues one reply,
    or two; two only when the child was ended by SIGTERM or the transmission
    of the file failed. *)
Theorem gif_request_is_answered (dir : jsstring) (now : N) (req : request)
    (r : run) (st : state) :
  exists new,
    replies (gifHandler dir now req r st) = replies st ++ new /\
    (1 <= length new <= 2)%nat /\
    (length new = 2%nat ->
     ending r = Signaled SIGTERM \/ exists b, stream r = StreamError b).
Proof.
  unfold gifHandler.
  destruct (gifSync_cases dir now req st)
    as [(Rj & m & ->) | (Nr & v & st1 & V & [(j & -> & R & U & _) | (-> & R & U)])].
  - exists [Json 400 m]. cbn [json replies length]. repeat split; try lia.
  - destruct (gifAsync_replies j r st1) as (new & E & L & _ & T).
    exists new. rewrite E, R. auto.
  - eexists [_]. cbn [json replies].
    match goal with |- context [cleanup ?i ?o ?s] =>
      destruct (cleanup_response i o s) as [Rc _] end.
    rewrite Rc, R. cbn [length]. repeat split; try lia.
Qed.

(** X14. Once the output file has been checked and the transmission
    started, the temporary files are removed by the listeners of the read
    stream and by nothing else.  When the stream emits [end] or [error],
    both temporary files are gone when the request is over and every other
    file is as the child left it.  When it emits neither, the client having
    closed the connection, no file is unlinked: the input and the output
    file both stay. *)
Theorem gif_transmission_removes_files (j : gif_job) (r : run) (st : state) (sz : N) :
  ending r = Exited 0 ->
  fs (afterChild j r st) !! outputPath j = Some sz -> sz <> 0%N ->
  (stream r <> StreamAborted ->
   forall p,
     fs (gifAsync j r st) !! p
     = if decide (p = inputPath j \/ p = outputPath j) then None
       else fs (afterChild j r st) !! p) /\
  (stream r = StreamAborted ->
   fs (gifAsync j r st) = fs (afterChild j r st) /\
   unlinks (gifAsync j r st) = unlinks (afterChild j r st) /\
   fs (gifAsync j r st) !! outputPath j = Some sz).
Proof.
  intros E F Hsz. unfold gifAsync. rewrite E. cbn [onExit].
  unfold execCallback. cbn [execError]. rewrite F.
  apply N.eqb_neq in Hsz. rewrite Hsz. unfold onStream.
  destruct (stream r) as [|flushed|].
  - split; [intros _ p | discriminate].
    rewrite cleanup_lookup. reflexivity.
  - split; [intros _ p | discriminate].
    match goal with |- context [if negb ?b then _ else _] => destruct b end;
      cbn [negb json fs]; rewrite cleanup_lookup; reflexivity.
  - split; [congruence | intros _]. cbn [fs unlinks]. auto.
Qed.

Lemma gif_transmission_removes_files_witness :
  fs (gifAsync
        {| inputPath := Sample.clipInput; outputPath := Sample.clipOutput;
           stamp := 1700000000000%N; params := normalize Sample.postForm |}
        Sample.goodRun (arrive {[ Sample.clipInput := 2048%N ]})) !! Sample.clipInput
  = None /\
  fs (gifAsync
        {| inputPath := Sample.clipInput; outputPath := Sample.clipOutput;
           stamp := 1700000000000%N; params := normalize Sample.postForm |}
        Sample.abortedRun (arrive {[ Sample.clipInput := 2048%N ]})) !! Sample.clipOutput
  = Some 4096%N.
Proof.
  split.
  - exact (proj1 (gif_transmission_removes_files
             {| inputPath := Sample.clipInput; outputPath := Sample.clipOutput;
                stamp := 1700000000000%N; params := normalize Sample.postForm |}
             Sample.goodRun (arrive {[ Sample.clipInput := 2048%N ]}) 4096%N
             eq_refl eq_refl ltac:(discriminate)) ltac:(discriminate) Sample.clipInput).
  - exact (proj2 (proj2 (proj2 (gif_transmission_removes_files
             {| inputPath := Sample.clipInput; outputPath := Sample.clipOutput;
                stamp := 1700000000000%N; params := normalize Sample.postForm |}
             Sample.abortedRun (arrive {[ Sample.clipInput := 2048%N ]}) 4096%N
             eq_refl eq_refl ltac:(discriminate)) eq_refl))).
Defined.

(** X15. When the child is ended by SIGTERM, both temporary files are gone
    when the request is over, whatever the child had printed or written;
    every other file is as the child left it. *)
Theorem gif_timeout_removes_files (j : gif_job) (r : run) (st : state) :
  ending r = Signaled SIGTERM ->
  forall p,
    fs (gifAsync j r st) !! p
    = if decide (p = inputPath j \/ p = outputPath j) then None
      else fs (afterChild j r st) !! p.
Proof.
  intros E p. unfold gifAsync. rewrite E. cbn [onExit].
  replace (str_eqb SIGTERM SIGTERM) with true by reflexivity.
  unfold execCallback. cbn [execError].
  match goal with |- context [if negb ?b then _ else _] => destruct b end;
    cbn [negb json fs]; rewrite cleanup_lookup; reflexivity.
Qed.

Lemma gif_timeout_removes_files_witness :
  fs (gifAsync
        {| inputPath := Sample.clipInput; outputPath := Sample.clipOutput;
           stamp := 1700000000000%N; params := normalize Sample.postForm |}
        Sample.timeoutRun (arrive {[ Sample.clipInput := 2048%N ]})) !! Sample.clipOutput
  = None.
Proof.
  exact (gif_timeout_removes_files
           {| inputPath := Sample.clipInput; outputPath := Sample.clipOutput;
              stamp := 1700000000000%N; params := normalize Sample.postForm |}
           Sample.timeoutRun (arrive {[ Sample.clipInput := 2048%N ]})
           eq_refl Sample.clipOutput).
Defined.

(** X16. When the stored upload is missing or empty, the handler answers
    500 "Internal server error" once, launches no child, and leaves no file
    at the input path. *)
Theorem gif_unusable_upload (dir : jsstring) (now : N) (req : request) (r : run)
    (st : state) (v : upload) :
  video req = Some v -> isValidVideoFile (name v) = true ->
  fs st !! tempFilePath v = None \/ fs st !! tempFilePath v = Some 0%N ->
  snd (gifSync dir now req st) = None /\
  replies (gifHandler dir now req r st)
  = replies st ++ [Json 500 (lit "Internal server error")] /\
  fs (gifHandler dir now req r st) !! gifInputPath dir now (name v) = None.
Proof.
  intros V I T. unfold gifHandler, gifSync, settingsOf. rewrite V, I. cbn [negb].
  assert (C : snd (json 500 (lit "Internal server error")
                     (cleanup (Some (gifInputPath dir now (name v)))
                        (Some (gifOutputPath dir now)) st), @None gif_job) = None /\
              replies (json 500 (lit "Internal server error")
                         (cleanup (Some (gifInputPath dir now (name v)))
                            (Some (gifOutputPath dir now)) st))
              = replies st ++ [Json 500 (lit "Internal server error")] /\
              fs (json 500 (lit "Internal server error")
                    (cleanup (Some (gifInputPath dir now (name v)))
                       (Some (gifOutputPath dir now)) st))
                !! gifInputPath dir now (name v) = None).
  { cbn [snd json replies fs]. rewrite cleanup_lookup.
    destruct (cleanup_response (Some (gifInputPath dir now (name v)))
                (Some (gifOutputPath dir now)) st) as [R _].
    rewrite R. repeat split. destruct (decide _) as [|N]; [reflexivity|].
    exfalso. apply N. left. reflexivity. }
  destruct (form req) as [b|]; cbn [option_map]; [|exact C].
  unfold mv. destruct (moveRejects v); [exact C|].
  destruct T as [T|T]; rewrite T.
  - exact C.
  - cbn [fs withFs]. rewrite lookup_insert_eq. cbn [N.eqb snd json replies fs].
    rewrite cleanup_lookup.
    match goal with |- context [cleanup ?i ?o ?s] =>
      destruct (cleanup_response i o s) as [R _] end.
    rewrite R. cbn [replies withFs]. repeat split.
    destruct (decide _) as [|N]; [reflexivity|].
    exfalso. apply N. left. reflexivity.
Qed.

Lemma gif_unusable_upload_witness :
  replies (gifHandler (lit "/tmp") 1700000000000 Sample.post Sample.goodRun
             (arrive {[ tempFilePath Sample.clip := 0%N ]}))
  = [] ++ [Json 500 (lit "Internal server error")].
Proof.
  apply (gif_unusable_upload (lit "/tmp") 1700000000000 Sample.post Sample.goodRun
           (arrive {[ tempFilePath Sample.clip := 0%N ]}) Sample.clip).
  - reflexivity.
  - reflexivity.
  - right. vm_compute. reflexivity.
Defined.

(** ** The [/video-info] handler as a whole *)

(** X17. Every [/video-info] request gets exactly one reply.  It is a 400
    exactly when no file was uploaded or its name has no allowed extension,
    and then no file is moved or unlinked. *)
Theorem info_request_gets_one_reply (dir : jsstring) (now : N) (req : request)
    (e : proc_end) (text : jsstring) (st : state) :
  exists x,
    replies (infoHandler dir now req e text st) = replies st ++ [x] /\
    ((exists m, x = Json 400 m) <-> rejected req) /\
    (rejected req ->
     fs (infoHandler dir now req e text st) = fs st /\
     unlinks (infoHandler dir now req e text st) = unlinks st).
Proof.
  unfold infoHandler, rejected. destruct (video req) as [v|] eqn:V.
  - destruct (isValidVideoFile (name v)) eqn:I; cbn [negb].
    + assert (NR : ~ (Some v = None \/
                      exists v', Some v = Some v' /\ isValidVideoFile (name v') = false)).
      { intros [X|(v' & X & Y)]; [discriminate|]. injection X as <-. congruence. }
      destruct (mv v (infoInputPath dir now (name v)) st) as [st1|] eqn:M.
      * apply mv_response in M as (R & _ & _ & _).
        unfold infoCallback. rewrite unlinkIfExists_eq.
        destruct text as [|c t].
        -- eexists. cbn [json replies]. rewrite R. split; [reflexivity|].
           split; [|tauto]. split; [intros (msg & X); discriminate | tauto].
        -- destruct (parseInfo (c :: t) (name v) (size v)) as [md|].
           ++ eexists. cbn [replies]. rewrite R. split; [reflexivity|].
              split; [|tauto]. split; [intros (msg & X); discriminate | tauto].
           ++ eexists. cbn [json replies]. rewrite R. split; [reflexivity|].
              split; [|tauto]. split; [intros (msg & X); discriminate | tauto].
      * rewrite unlinkIfExists_eq. eexists. cbn [json replies].
        split; [reflexivity|].
        split; [|tauto]. split; [intros (msg & X); discriminate | tauto].
    + eexists. cbn [json replies fs unlinks]. split; [reflexivity|].
      split; [|auto]. split; eauto.
  - eexists. cbn [json replies fs unlinks]. split; [reflexivity|].
    split; [|auto]. split; eauto.
Qed.

(** X18. For every accepted upload, no file is left at the input path when
    [/video-info] has replied, however the probe ended and whatever it
    printed.  The stored upload is gone too unless the operating system
    refused the move: then the handler unlinks the input path only, and the
    stored upload stays where the middleware put it. *)
Theorem info_leaves_no_file (dir : jsstring) (now : N) (req : request)
    (e : proc_end) (text : jsstring) (st : state) (v : upload) :
  video req = Some v -> isValidVideoFile (name v) = true ->
  fs (infoHandler dir now req e text st) !! infoInputPath dir now (name v) = None /\
  (moveRejects v = false ->
   fs (infoHandler dir now req e text st) !! tempFilePath v = None) /\
  (moveRejects v = true -> tempFilePath v <> infoInputPath dir now (name v) ->
   fs (infoHandler dir now req e text st) !! tempFilePath v = fs st !! tempFilePath v /\
   replies (infoHandler dir now req e text st)
   = replies st ++ [Json 500 (lit "Internal server error ")]).
Proof.
  intros V I. unfold infoHandler. rewrite V, I. cbn [negb].
  set (inp := infoInputPath dir now (name v)).
  unfold mv. destruct (moveRejects v).
  { rewrite unlinkIfExists_eq. cbn [json fs replies].
    split; [apply lookup_delete_eq|]. split; [discriminate|].
    intros _ Hne. rewrite lookup_delete_ne by congruence. auto. }
  destruct (fs st !! tempFilePath v) as [sz|] eqn:T.
  - unfold infoCallback. rewrite unlinkIfExists_eq.
    assert (F : forall s : state,
               fs s = delete inp (<[inp := sz]> (delete (tempFilePath v) (fs st))) ->
               fs s !! inp = None /\ fs s !! tempFilePath v = None).
    { intros s ->. split; [apply lookup_delete_eq|].
      destruct (decide (tempFilePath v = inp)) as [->|Hne].
      - apply lookup_delete_eq.
      - rewrite lookup_delete_ne, lookup_insert_ne by congruence.
        apply lookup_delete_eq. }
    assert (G : forall (s : state) (P : Prop),
               fs s = delete inp (<[inp := sz]> (delete (tempFilePath v) (fs st))) ->
               fs s !! inp = None /\
               (false = false -> fs s !! tempFilePath v = None) /\
               (false = true -> P)).
    { intros s P Hs. destruct (F s Hs). repeat split; auto; discriminate. }
    destruct text as [|c t]; [apply G; reflexivity|].
    destruct (parseInfo (c :: t) (name v) (size v)); apply G; reflexivity.
  - rewrite unlinkIfExists_eq. cbn [json fs]. split; [apply lookup_delete_eq|].
    split; [|discriminate]. intros _.
    destruct (decide (tempFilePath v = inp)) as [->|Hne].
    + apply lookup_delete_eq.
    + rewrite lookup_delete_ne by congruence. exact T.
Qed.

Lemma info_leaves_no_file_witness :
  (fs (Sample.probe (Exited 1) []) !! Sample.clipInfoInput = None /\
   fs (Sample.probe (Exited 1) []) !! tempFilePath Sample.clip = None) /\
  fs (infoHandler (lit "/tmp") 1700000000000
        {| video := Some Sample.stuckClip; form := None |} (Exited 1) []
        (arrive Sample.files)) !! tempFilePath Sample.stuckClip
  = Some 2048%N.
Proof.
  split.
  - destruct (info_leaves_no_file (lit "/tmp") 1700000000000 Sample.post (Exited 1)
                [] (arrive Sample.files) Sample.clip eq_refl eq_refl)
      as (A & B & _).
    split; [exact A | exact (B eq_refl)].
  - destruct (info_leaves_no_file (lit "/tmp") 1700000000000
                {| video := Some Sample.stuckClip; form := None |} (Exited 1) []
                (arrive Sample.files) Sample.stuckClip eq_refl eq_refl)
      as (_ & _ & C).
    destruct (C eq_refl ltac:(vm_compute; discriminate)) as [D _].
    rewrite D. vm_compute. reflexivity.
Defined.

(** ** The ffmpeg command line *)

Lemma isBare_cases (c : char) :
  isBare c = true ->
  Shell.isBlank c = false /\ (c =? DQUOTE)%N = false /\
  (c =? Shell.SQUOTE)%N = false /\ (c =? BACKSLASH)%N = false /\
  (c =? Shell.DOLLAR)%N = false /\ (c =? Shell.BACKQUOTE)%N = false /\
  Shell.isOperator c = false.
Proof.
  unfold isBare. rewrite negb_true_iff, !orb_false_iff. tauto.
Qed.

Lemma lex_bare_more (w u : jsstring) (acc : list jsstring) (rest : jsstring) :
  forallb isBare w = true ->
  Shell.lex Shell.Plain (Some u) acc (w ++ rest)
  = Shell.lex Shell.Plain (Some (u ++ w)) acc rest.
Proof.
  revert u. induction w as [|c w IH]; intros u H.
  - rewrite app_nil_r. reflexivity.
  - cbn [forallb] in H. apply andb_true_iff in H as [Hc Hw].
    apply isBare_cases in Hc as (B & Q & S & K & D & G & O).
    cbn [app Shell.lex]. rewrite B, Q, S, K, D, G, O. cbn [orb].
    unfold Shell.push. rewrite (IH _ Hw), <- app_assoc. reflexivity.
Qed.

Lemma lex_bare (w : jsstring) (acc : list jsstring) (rest : jsstring) :
  w <> [] -> forallb isBare w = true ->
  Shell.lex Shell.Plain None acc (w ++ rest)
  = Shell.lex Shell.Plain (Some w) acc rest.
Proof.
  intros Hne H. destruct w as [|c w]; [congruence|].
  cbn [forallb] in H. apply andb_true_iff in H as [Hc Hw].
  apply isBare_cases in Hc as (B & Q & S & K & D & G & O).
  cbn [app Shell.lex]. rewrite B, Q, S, K, D, G, O. cbn [orb].
  unfold Shell.push. apply (lex_bare_more w [c] acc rest Hw).
Qed.

Lemma lex_token (t : token) (acc : list jsstring) (rest : jsstring) :
  wellTyped t ->
  Shell.lex Shell.Plain None acc (tokenText t ++ rest)
  = Shell.lex Shell.Plain (Some (tokenValue t)) acc rest.
Proof.
  destruct t as [w|p]; cbn [wellTyped tokenText tokenValue].
  - intros [Hne H]. apply lex_bare; assumption.
  - apply lex_escapeShellPath.
Qed.

(** Words typed bare or quoted and joined by spaces are read back as
    themselves. *)
Lemma lex_render (l : list token) (acc : list jsstring) :
  Forall wellTyped l ->
  Shell.lex Shell.Plain None acc (render l) = Shell.Args (acc ++ List.map tokenValue l).
Proof.
  intros F. revert acc. induction F as [|t l Ht F IH]; intros acc.
  - cbn. rewrite app_nil_r. reflexivity.
  - destruct l as [|t' l].
    + cbn [render List.map]. rewrite <- (app_nil_r (tokenText t)).
      rewrite (lex_token t acc [] Ht). reflexivity.
    + change (render (t :: t' :: l)) with (tokenText t ++ 32%N :: render (t' :: l)).
      rewrite (lex_token t acc _ Ht), lex_blank, IH.
      cbn [List.map]. rewrite <- app_assoc. reflexivity.
Qed.

Lemma escapeQuotes_id (s : jsstring) : ~ In DQUOTE s -> escapeQuotes s = s.
Proof.
  induction s as [|c s IH]; intros H; [reflexivity|]. cbn [escapeQuotes].
  destruct (N.eqb_spec c DQUOTE) as [->|].
  - exfalso. apply H. left. reflexivity.
  - rewrite IH by (intros X; apply H; right; exact X). reflexivity.
Qed.

Lemma isDigit_quotable (c : char) : Num.isDigit c = true -> quotable c = true.
Proof.
  intros H. apply isDigit_cases in H.
  repeat destruct H as [H|H]; subst; reflexivity.
Qed.

Lemma show_quotable (n : N) : forallb quotable (show n) = true.
Proof.
  apply forallb_forall. intros c Hc.
  apply isDigit_quotable. revert c Hc. apply List.Forall_forall, show_digits.
Qed.

Lemma showZ_quotable (z : Z) : forallb quotable (showZ z) = true.
Proof.
  unfold showZ. destruct (z <? 0); [cbn [forallb]|]; rewrite show_quotable; reflexivity.
Qed.

Lemma filterComplex_quotable (f s : Z) : forallb quotable (filterComplex f s) = true.
Proof.
  unfold filterComplex. rewrite !forallb_app, !showZ_quotable. reflexivity.
Qed.

Lemma quotable_text (s : jsstring) :
  forallb quotable s = true ->
  forallb Shell.plainInQuotes s = true /\ ~ In DQUOTE s.
Proof.
  intros H. split.
  - apply forallb_forall. intros c Hc.
    apply (proj1 (forallb_forall _ _) H) in Hc.
    apply andb_true_iff in Hc. tauto.
  - intros Hin. apply (proj1 (forallb_forall _ _) H) in Hin.
    apply andb_true_iff in Hin as [_ X]. discriminate.
Qed.

Lemma gifCommand_render (numberToString : Num.number -> jsstring)
    (ffmpegPath : jsstring) (j : gif_job) :
  gifCommand numberToString ffmpegPath j
  = render (gifTokens numberToString ffmpegPath j).
Proof.
  unfold gifCommand, gifTokens.
  assert (Q : escapeShellPath (filterComplex (fps (params j)) (scale (params j)))
              = [DQUOTE] ++ filterComplex (fps (params j)) (scale (params j)) ++ [DQUOTE]).
  { unfold escapeShellPath. rewrite escapeQuotes_id; [reflexivity|].
    apply quotable_text, filterComplex_quotable. }
  destruct (isPositive (startTime (params j))), (isPositive (duration (params j)));
    cbn [app render tokenText]; rewrite Q; unfold escapeShellPath;
    rewrite <- ?app_assoc; cbn; reflexivity.
Qed.

(** X19. When the three paths hold no backslash, dollar sign or backquote
    (and the printed start offset and duration are plain number texts), the
    shell splits the command of [/gif] into exactly the intended arguments:
    the program, [-ss start] only for a positive start offset, [-i] and the
    input path, [-t duration] only for a positive duration, the filter graph
    as one argument, [-y], and the output path last. *)
Theorem gifCommand_arguments (numberToString : Num.number -> jsstring)
    (ffmpegPath : jsstring) (j : gif_job) :
  (forall n, numberToString n <> [] /\ forallb isBare (numberToString n) = true) ->
  forallb Shell.plainInQuotes ffmpegPath = true ->
  forallb Shell.plainInQuotes (inputPath j) = true ->
  forallb Shell.plainInQuotes (outputPath j) = true ->
  Shell.words (gifCommand numberToString ffmpegPath j)
  = Shell.Args (gifArgv numberToString ffmpegPath j).
Proof.
  intros Hn Hf Hi Ho. rewrite gifCommand_render. unfold Shell.words.
  rewrite lex_render.
  - unfold gifTokens, gifArgv. cbn [app].
    destruct (isPositive (startTime (params j))), (isPositive (duration (params j)));
      reflexivity.
  - unfold gifTokens.
    assert (B : forall w, w <> [] -> forallb isBare w = true -> wellTyped (Bare w))
      by (intros; split; assumption).
    assert (Qf : wellTyped (Quoted (filterComplex (fps (params j)) (scale (params j)))))
      by (apply quotable_text, filterComplex_quotable).
    destruct (isPositive (startTime (params j))), (isPositive (duration (params j)));
      cbn [app]; repeat constructor; try assumption; try discriminate;
      try apply Hn.
Qed.

Lemma gifCommand_arguments_witness :
  Shell.words
    (gifCommand (fun _ => lit "1.5") (lit "/usr/bin/ffmpeg")
       {| inputPath := Sample.quotedPath; outputPath := Sample.clipOutput;
          stamp := 1700000000000%N;
          params := {| fps := 12; scale := 320;
                       startTime := Num.Fin (Qmake 3 2); duration := Num.ofZ 0 |} |})
  = Shell.Args
      [lit "/usr/bin/ffmpeg"; lit "-ss"; lit "1.5"; lit "-i"; Sample.quotedPath;
       lit "-filter_complex"; filterComplex 12 320; lit "-y"; Sample.clipOutput].
Proof.
  apply (gifCommand_arguments (fun _ => lit "1.5") (lit "/usr/bin/ffmpeg")
           {| inputPath := Sample.quotedPath; outputPath := Sample.clipOutput;
              stamp := 1700000000000%N;
              params := {| fps := 12; scale := 320;
                           startTime := Num.Fin (Qmake 3 2); duration := Num.ofZ 0 |} |}).
  - intros n. split; [discriminate | reflexivity].
  - reflexivity.
  - reflexivity.
  - reflexivity.
Defined.

(** ** MetadataParser, continued *)

Lemma twoDigits_range (a b : char) :
  Num.isDigit a = true -> Num.isDigit b = true ->
  0 <= 10 * (Z.of_N a - 48) + (Z.of_N b - 48) <= 99.
Proof.
  unfold Num.isDigit. rewrite !andb_true_iff, !N.leb_le. lia.
Qed.

(** X20. A reported duration is never NaN: it is
    hours*3600 + minutes*60 + seconds + hundredths/100 for four fields between
    0 and 99, hence at least 0 and below 360000 seconds. *)
Theorem reported_duration_is_a_number (text name : jsstring) (size : N) (md : metadata) :
  parseInfo text name size = Some md ->
  exists H M S C : Z,
    0 <= H <= 99 /\ 0 <= M <= 99 /\ 0 <= S <= 99 /\ 0 <= C <= 99 /\
    md_duration md
    = Num.Fin (Qplus (inject_Z (H * 3600 + M * 60 + S))
                     (Qdiv (inject_Z C) (inject_Z 100))) /\
    md_filename md = name /\ md_fileSize md = size.
Proof.
  unfold parseInfo. intros P.
  destruct (Regex.search Regex.durationRe text) as [m|] eqn:E; [|discriminate].
  injection P as <-. apply search_found in E as (pre & rest & _ & M).
  apply matchAt_duration in M
    as (a1 & a2 & b1 & b2 & c1 & c2 & d1 & d2 & post & _ & -> & F).
  repeat match goal with
         | H : Forall _ (_ :: _) |- _ => inversion_clear H
         end.
  cbn [md_duration md_filename md_fileSize]. unfold Regex.group. cbn [Nat.sub nth].
  rewrite (parseInt_twoDigits _ _ (twoDigits_intro a1 a2 ltac:(assumption) ltac:(assumption))),
          (parseInt_twoDigits _ _ (twoDigits_intro b1 b2 ltac:(assumption) ltac:(assumption))),
          (parseInt_twoDigits _ _ (twoDigits_intro c1 c2 ltac:(assumption) ltac:(assumption))),
          (parseInt_twoDigits _ _ (twoDigits_intro d1 d2 ltac:(assumption) ltac:(assumption))).
  do 4 eexists. repeat split; try reflexivity; apply twoDigits_range; assumption.
Qed.

Lemma reported_duration_is_a_number_witness :
  exists H M S C : Z,
    0 <= H <= 99 /\ 0 <= M <= 99 /\ 0 <= S <= 99 /\ 0 <= C <= 99 /\
    Num.Fin (Qplus (inject_Z 65) (Qdiv (inject_Z 50) (inject_Z 100)))
    = Num.Fin (Qplus (inject_Z (H * 3600 + M * 60 + S))
                     (Qdiv (inject_Z C) (inject_Z 100))) /\
    lit "clip.mp4" = lit "clip.mp4" /\ 2048%N = 2048%N.
Proof.
  exact (reported_duration_is_a_number Sample.durationLine (lit "clip.mp4") 2048 _ eq_refl).
Defined.

Lemma lang_digits (lo : nat) (hi : option nat) (w : jsstring) :
  (1 <= lo)%nat -> lang (Regex.d lo hi) w -> allDigits w /\ (lo <= length w)%nat /\
  match hi with Some h => (length w <= h)%nat | None => True end.
Proof.
  intros Hlo (F & L & U). split; [|auto]. split; [|exact F].
  intros ->. cbn in L. lia.
Qed.

(** The resolution pattern captures two runs of three or four digits. *)
Lemma matchAt_resolution (t : jsstring) (caps : Regex.captures) :
  Regex.matchAt Regex.resolutionRe t = Some caps ->
  exists w h, caps = [w; h] /\
              allDigits w /\ (length w <= 4)%nat /\
              allDigits h /\ (length h <= 4)%nat.
Proof.
  unfold Regex.matchAt, Regex.resolutionRe, Regex.seq. cbn [fold_left].
  rewrite !rmatch_Seq. intros H.
  apply group_sound in H as (w & rest & -> & Lw & K); [|reflexivity].
  rewrite rmatch_Lit in K. destruct (startsWith (lit "x") rest); [|discriminate].
  apply group_sound in K as (h & rest2 & _ & Lh & K); [|reflexivity].
  injection K as <-.
  apply lang_digits in Lw as (Dw & _ & Uw); [|lia].
  apply lang_digits in Lh as (Dh & _ & Uh); [|lia].
  exists w, h. auto.
Qed.

Lemma parseInt_upto4 (w : jsstring) :
  allDigits w -> (length w <= 4)%nat ->
  exists z, Num.parseInt w = Some z /\ 0 <= z <= 9999.
Proof.
  intros D L. destruct (parseInt_allDigits w D) as (z & E & Hz).
  exists z. split; [exact E|].
  assert (10 ^ Z.of_nat (length w) <= 10 ^ 4) by (apply Z.pow_le_mono_r; lia).
  lia.
Qed.

(** X21. Width and height are reported together or not at all, and when
    they are reported they are integers between 0 and 9999, never NaN. *)
Theorem reported_resolution_is_bounded (text name : jsstring) (size : N) (md : metadata) :
  parseInfo text name size = Some md ->
  (md_width md = None /\ md_height md = None) \/
  (exists w h : Z,
      md_width md = Some (Some w) /\ md_height md = Some (Some h) /\
      0 <= w <= 9999 /\ 0 <= h <= 9999).
Proof.
  unfold parseInfo. intros P.
  destruct (Regex.search Regex.durationRe text) as [m|]; [|discriminate].
  injection P as <-. cbn [md_width md_height].
  destruct (Regex.search Regex.resolutionRe text) as [rm|] eqn:E; [|left; auto].
  right. apply search_found in E as (pre & rest & _ & M).
  apply matchAt_resolution in M as (w & h & -> & Dw & Lw & Dh & Lh).
  unfold Regex.group. cbn [Nat.sub nth option_map].
  destruct (parseInt_upto4 w Dw Lw) as (zw & Ew & Hw).
  destruct (parseInt_upto4 h Dh Lh) as (zh & Eh & Hh).
  exists zw, zh. rewrite Ew, Eh. auto.
Qed.

Lemma reported_resolution_is_bounded_witness :
  (@None (option Z) = None /\ @None (option Z) = None) \/
  (exists w h : Z,
      @None (option Z) = Some (Some w) /\ @None (option Z) = Some (Some h) /\
      0 <= w <= 9999 /\ 0 <= h <= 9999).
Proof.
  exact (reported_resolution_is_bounded Sample.durationLine (lit "clip.mp4") 2048 _ eq_refl).
Defined.

(** The frame-rate pattern captures a text that starts with a digit. *)
Lemma matchAt_fps (t : jsstring) (caps : Regex.captures) :
  Regex.matchAt Regex.fpsRe t = Some caps ->
  exists c w, caps = [c :: w] /\ Num.isDigit c = true.
Proof.
  unfold Regex.matchAt, Regex.fpsRe, Regex.seq. cbn [fold_left].
  rewrite !rmatch_Seq. intros H.
  apply group_sound in H as (w & rest & -> & Lw & K); [|reflexivity].
  cbn [Regex.rmatch] in K. apply rep_sound in K as (sp & rest2 & _ & _ & K).
  destruct (startsWith (lit "fps") rest2); [|discriminate].
  injection K as <-.
  destruct Lw as (u & v & -> & Lu & _).
  apply lang_digits in Lu as ((Hne & F) & _ & _); [|lia].
  destruct u as [|c u]; [congruence|]. inversion F; subst.
  exists c, (u ++ v). auto.
Qed.

(** The bitrate pattern captures a run of digits. *)
Lemma matchAt_bitrate (t : jsstring) (caps : Regex.captures) :
  Regex.matchAt Regex.bitrateRe t = Some caps ->
  exists w, caps = [w] /\ allDigits w.
Proof.
  unfold Regex.matchAt, Regex.bitrateRe, Regex.seq. cbn [fold_left].
  rewrite !rmatch_Seq. intros H. rewrite rmatch_Lit in H.
  destruct (startsWith (lit "bitrate: ") t); [|discriminate].
  apply group_sound in H as (w & rest & _ & Lw & K); [|reflexivity].
  cbn [Regex.rmatch] in K. apply rep_sound in K as (sp & rest2 & _ & _ & K).
  destruct (startsWith (lit "kb/s") rest2); [|discriminate].
  injection K as <-.
  apply lang_digits in Lw as (D & _ & _); [|lia]. eauto.
Qed.

(** X22. A reported frame rate and a reported bitrate are never NaN and
    never negative.  The frame rate is a finite number or, for a digit run
    too long for binary64, the positive infinity; the bitrate is a whole
    number or the positive infinity. *)
Theorem reported_rates_are_numbers (text name : jsstring) (size : N) (md : metadata) :
  parseInfo text name size = Some md ->
  (forall f, md_fps md = Some f ->
     f = Num.Infinity false \/ exists q, f = Num.Fin q /\ Qle 0 q) /\
  (forall b, md_bitrate md = Some b ->
     b = Num.Infinity false \/ exists z, b = Num.Fin (inject_Z z) /\ 0 <= z).
Proof.
  unfold parseInfo. intros P.
  destruct (Regex.search Regex.durationRe text) as [m|]; [|discriminate].
  injection P as <-. cbn [md_fps md_bitrate]. split.
  - intros f Hf. destruct (Regex.search Regex.fpsRe text) as [fm|] eqn:E;
      [|discriminate].
    apply search_found in E as (pre & rest & _ & M).
    apply matchAt_fps in M as (c & w & -> & Hc).
    cbn [option_map] in Hf. injection Hf as <-.
    unfold Regex.group. cbn [Nat.sub nth]. apply parseFloat_digit_first, Hc.
  - intros b Hb. destruct (Regex.search Regex.bitrateRe text) as [bm|] eqn:E;
      [|discriminate].
    apply search_found in E as (pre & rest & _ & M).
    apply matchAt_bitrate in M as (w & -> & D).
    cbn [option_map] in Hb. injection Hb as <-.
    unfold Regex.group. cbn [Nat.sub nth].
    destruct (parseInt_allDigits w D) as (z & Ez & Hz). rewrite Ez.
    cbn [Num.ofParsed]. apply toNumber_natural. lia.
Qed.

(** The infinity is reached: a bitrate of 400 digits is reported as
    [Infinity], which JSON prints as null. *)
Example long_bitrate_is_infinite :
  exists md,
    parseInfo Sample.longBitrate (lit "clip.mp4") 2048 = Some md /\
    md_bitrate md = Some (Num.Infinity false).
Proof. eexists. split; [vm_compute; reflexivity|]. reflexivity. Qed.

Lemma reported_rates_are_numbers_witness :
  (Num.Fin (inject_Z 25) = Num.Infinity false \/
   exists q, Num.Fin (inject_Z 25) = Num.Fin q /\ Qle 0 q) /\
  (Num.Fin (inject_Z 1205) = Num.Infinity false \/
   exists z, Num.Fin (inject_Z 1205) = Num.Fin (inject_Z z) /\ 0 <= z).
Proof.
  assert (P : parseInfo Sample.streamText (lit "clip.mp4") 2048
              = Some {| md_duration := Num.Fin (Qplus (inject_Z 65)
                                         (Qdiv (inject_Z 50) (inject_Z 100)));
                        md_width := Some (Some 1280); md_height := Some (Some 720);
                        md_fps := Some (Num.Fin (inject_Z 25));
                        md_bitrate := Some (Num.Fin (inject_Z 1205));
                        md_filename := lit "clip.mp4"; md_fileSize := 2048%N |}).
  { vm_compute. reflexivity. }
  destruct (reported_rates_are_numbers _ _ _ _ P) as [F B].
  split; [exact (F _ eq_refl) | exact (B _ eq_refl)].
Defined.

(** ** The version probe *)

(** The version pattern at the start of a text. *)
Lemma matchAt_version (t : jsstring) :
  Regex.matchAt versionRe t
  = if startsWith (lit "ffmpeg version ") t then
      match leadingRun notSpace (skipn 15 t) with
      | [] => None
      | v => Some [v]
      end
    else None.
Proof.
  unfold Regex.matchAt, versionRe, Regex.seq. cbn [fold_left].
  rewrite rmatch_Seq, rmatch_Lit.
  destruct (startsWith (lit "ffmpeg version ") t); [|reflexivity].
  change (length (lit "ffmpeg version ")) with 15%nat.
  set (s := skipn 15 t). cbn [Regex.rmatch].
  change (fun c : char => negb (Num.isWhiteSpace c)) with notSpace.
  rewrite (rep_greedy notSpace (fun rest => [] ++ [firstn (length s - length rest) s])).
  rewrite firstn_run.
  destruct (leadingRun notSpace s); reflexivity.
Qed.

(** X23. The version that [/test-ffmpeg] and the start-up banner report is
    the whole run of non-blank characters that follows the leftmost
    [ffmpeg version ] with such a run after it: no occurrence that starts
    earlier in the text is followed by a non-blank character.  Without any
    such occurrence, it is the fallback text. *)
Theorem reported_version_is_the_next_word (unknown stdout : jsstring) :
  (exists pre rest,
      stdout = pre ++ lit "ffmpeg version " ++ rest /\
      leadingRun notSpace rest <> [] /\
      versionOr unknown stdout = leadingRun notSpace rest /\
      forall pre' rest',
        stdout = pre' ++ lit "ffmpeg version " ++ rest' ->
        (length pre' < length pre)%nat ->
        leadingRun notSpace rest' = []) \/
  ((forall pre rest,
       stdout = pre ++ lit "ffmpeg version " ++ rest ->
       leadingRun notSpace rest = []) /\
   versionOr unknown stdout = unknown).
Proof.
  unfold versionOr. destruct (Regex.search versionRe stdout) as [m|] eqn:E.
  - left. apply search_leftmost in E as (pre & t & -> & M & L).
    rewrite matchAt_version in M.
    destruct (startsWith (lit "ffmpeg version ") t) eqn:S; [|discriminate].
    apply startsWith_spec in S as [rest ->].
    change 15%nat with (length (lit "ffmpeg version ")) in M.
    rewrite skipn_literal in M.
    destruct (leadingRun notSpace rest) as [|c v] eqn:R; [discriminate|].
    injection M as <-. exists pre, rest. rewrite R.
    split; [reflexivity|]. split; [discriminate|]. split; [reflexivity|].
    intros pre' rest' E' Hlt. pose proof (L pre' _ E' Hlt) as M'.
    rewrite matchAt_version, startsWith_app in M'.
    change 15%nat with (length (lit "ffmpeg version ")) in M'.
    rewrite skipn_literal in M'.
    destruct (leadingRun notSpace rest'); [reflexivity | discriminate].
  - right. split; [|reflexivity]. intros pre rest ->.
    pose proof (proj1 (search_none versionRe _) E pre _ eq_refl) as M.
    rewrite matchAt_version, startsWith_app in M.
    change 15%nat with (length (lit "ffmpeg version ")) in M.
    rewrite skipn_literal in M.
    destruct (leadingRun notSpace rest); [reflexivity | discriminate].
Qed.

Lemma reported_version_is_the_next_word_witness :
  testFfmpeg (lit "/usr/bin/ffmpeg") None
    (lit "ffmpeg version 6.1.1-static Copyright (c) 2000-2023")
  = Working (lit "6.1.1-static") (lit "/usr/bin/ffmpeg").
Proof.
  destruct (reported_version_is_the_next_word (lit "Unknown")
              (lit "ffmpeg version 6.1.1-static Copyright (c) 2000-2023"))
    as [_|[_ _]]; reflexivity.
Defined.

(** ** Numbers sent as decimal text *)

Lemma digits_of_uint (d : Decimal.uint) :
  forall acc : positive,
    Num.digits 10 Num.digit10 (lit (NilEmpty.string_of_uint d)) (Some (Z.pos acc))
    = Some (Z.pos (Pos.of_uint_acc d acc)).
Proof.
  induction d; intros acc; cbn [NilEmpty.string_of_uint Pos.of_uint_acc];
    try reflexivity;
    change (lit (String ?a ?s)) with (N_of_ascii a :: lit s);
    cbn [Num.digits]; cbv [Num.digit10 Num.isDigit N_of_ascii N_of_digits];
    cbn -[Num.digits Z.mul Z.add Pos.of_uint_acc lit];
    rewrite <- IHd; f_equal; f_equal; lia.
Qed.

Lemma digits_of_uint_zero (d : Decimal.uint) :
  d <> Decimal.Nil ->
  Num.digits 10 Num.digit10 (lit (NilEmpty.string_of_uint d)) (Some 0)
  = Some (Z.of_N (Pos.of_uint d)) /\
  Num.digits 10 Num.digit10 (lit (NilEmpty.string_of_uint d)) None
  = Some (Z.of_N (Pos.of_uint d)).
Proof.
  induction d; intros Hne; try congruence;
    cbn [NilEmpty.string_of_uint Pos.of_uint];
    change (lit (String ?a ?s)) with (N_of_ascii a :: lit s);
    cbn [Num.digits]; cbv [Num.digit10 Num.isDigit N_of_ascii N_of_digits];
    cbn -[Num.digits Z.mul Z.add Pos.of_uint_acc Pos.of_uint lit];
    try (split; apply digits_of_uint).
  destruct d; [split; reflexivity | | | | | | | | | |];
    (split; apply IHd; discriminate).
Qed.

Lemma to_uint_nonnil (n : N) : N.to_uint n <> Decimal.Nil.
Proof.
  destruct n as [|p]; [discriminate|].
  apply Stdlib.Numbers.DecimalPos.Unsigned.to_uint_nonnil.
Qed.

Lemma show_allDigits (n : N) : allDigits (show n).
Proof.
  split; [|apply show_digits].
  unfold show. pose proof (to_uint_nonnil n) as H.
  destruct (N.to_uint n); try congruence; discriminate.
Qed.

Lemma parseInt_show (n : N) : Num.parseInt (show n) = Some (Z.of_N n).
Proof.
  rewrite (parseInt_as_digits _ (show_allDigits n)). unfold show.
  rewrite (proj2 (digits_of_uint_zero _ (to_uint_nonnil n))).
  change (Pos.of_uint (N.to_uint n)) with (N.of_uint (N.to_uint n)).
  rewrite Unsigned.of_to. reflexivity.
Qed.

(** X24. A frame rate or a scale sent as a plain decimal number is used as
    sent when it lies in the range, and pulled to the nearest bound when it
    does not, except 0, which gives the default (15, 480). *)
Theorem decimal_fields_are_clamped (b : body) (f s : N) :
  body_fps b = Str (show f) -> body_scale b = Str (show s) ->
  fps (normalize b)
  = (if (f =? 0)%N then 15 else Z.max 5 (Z.min 30 (Z.of_N f))) /\
  scale (normalize b)
  = (if (s =? 0)%N then 480 else Z.max 240 (Z.min 1920 (Z.of_N s))).
Proof.
  intros Ef Es. unfold normalize. cbn [fps scale]. rewrite Ef, Es.
  cbn [toString]. rewrite !parseInt_show, !orZ_cases.
  split.
  - destruct f; reflexivity.
  - destruct s; reflexivity.
Qed.

Lemma decimal_fields_are_clamped_witness :
  fps (normalize Sample.postForm) = 12 /\ scale (normalize Sample.postForm) = 320.
Proof.
  exact (decimal_fields_are_clamped Sample.postForm 12 320 eq_refl eq_refl).
Defined.

Lemma escaped_quotes_follow_backslash_witness :
  exists pre', lit "/tmp/my clip" ++ [BACKSLASH] = pre' ++ [BACKSLASH].
Proof.
  apply (proj1 (escaped_quotes_follow_backslash Sample.quotedPath)
           (lit "/tmp/my clip" ++ [BACKSLASH]) (lit ".mp4")).
  reflexivity.
Defined.

Lemma info_request_gets_one_reply_witness :
  exists x,
    replies (infoHandler (lit "/tmp") 5 {| video := None; form := form Sample.post |}
               (Exited 0) [] (arrive Sample.files))
    = replies (arrive Sample.files) ++ [x] /\
    fs (infoHandler (lit "/tmp") 5 {| video := None; form := form Sample.post |}
          (Exited 0) [] (arrive Sample.files)) = Sample.files.
Proof.
  destruct (info_request_gets_one_reply (lit "/tmp") 5
              {| video := None; form := form Sample.post |} (Exited 0) []
              (arrive Sample.files)) as (x & E & _ & H).
  exists x. split; [exact E|]. apply (H (or_introl eq_refl)).
Defined.

(** X25. A name that is nothing but an extension ([.mp4]) is rejected: the
    dot that opens a base name starts no extension. *)
Theorem bare_extension_is_rejected (rest : jsstring) :
  ~ In Num.DOT rest -> ~ In SLASH rest ->
  isValidVideoFile (Num.DOT :: rest) = false.
Proof.
  intros Hd Hs. destruct (isValidVideoFile (Num.DOT :: rest)) eqn:V; [|reflexivity].
  exfalso. apply isValidVideoFile_spec in V.
  assert (NS : ~ In SLASH (Num.DOT :: rest)).
  { intros [X|X]; [discriminate | auto]. }
  assert (E : extname (Num.DOT :: rest) = []).
  { unfold extname.
    rewrite (dropTrailing_noslash _ NS), (lastSegment_noslash _ [] NS). cbn [app].
    destruct (str_eqb (Num.DOT :: rest) (lit "..")); [reflexivity|].
    cbn [lastDot]. rewrite (lastDot_none rest false Hd). reflexivity. }
  rewrite E in V. cbn in V. intuition discriminate.
Qed.

Lemma bare_extension_is_rejected_witness :
  isValidVideoFile (lit ".mp4") = false.
Proof.
  apply (bare_extension_is_rejected (lit "mp4")); vm_compute; intuition discriminate.
Defined.

(** X26. The child process is launched only for an accepted upload whose
    stored file exists, is not empty and could be moved, in a request whose
    form has a text field; at that moment the file sits at the input path
    with its size, nothing has been replied and nothing unlinked, and the
    settings are those read from the form. *)
Theorem child_runs_on_a_moved_upload (dir : jsstring) (now : N) (req : request)
    (st st1 : state) (j : gif_job) :
  gifSync dir now req st = (st1, Some j) ->
  exists v sz b,
    video req = Some v /\ isValidVideoFile (name v) = true /\
    fs st !! tempFilePath v = Some sz /\ sz <> 0%N /\
    inputPath j = gifInputPath dir now (name v) /\
    outputPath j = gifOutputPath dir now /\
    fs st1 !! inputPath j = Some sz /\
    (tempFilePath v <> inputPath j -> fs st1 !! tempFilePath v = None) /\
    replies st1 = replies st /\ unlinks st1 = unlinks st /\
    form req = Some b /\ params j = normalize b /\ moveRejects v = false.
Proof.
  unfold gifSync, settingsOf. intros H.
  destruct (video req) as [v|]; [|discriminate].
  destruct (isValidVideoFile (name v)) eqn:I; cbn [negb] in H; [|discriminate].
  destruct (form req) as [b|]; cbn [option_map] in H; [|discriminate].
  destruct (mv v (gifInputPath dir now (name v)) st) as [s1|] eqn:M; [|discriminate].
  pose proof M as M'. apply mv_response in M' as (R & _ & U & sz & T & F).
  assert (MR : moveRejects v = false).
  { unfold mv in M. destruct (moveRejects v); [discriminate | reflexivity]. }
  destruct (fs s1 !! gifInputPath dir now (name v)) as [sz'|] eqn:L; [|discriminate].
  destruct (sz' =? 0)%N eqn:Z; [discriminate|].
  injection H as <- <-. cbn [inputPath outputPath params].
  assert (sz' = sz).
  { rewrite F, lookup_insert_eq in L. congruence. }
  subst sz'. apply N.eqb_neq in Z.
  exists v, sz, b. repeat split; auto.
  intros Hne. rewrite F, lookup_insert_ne by congruence. apply lookup_delete_eq.
Qed.

Lemma child_runs_on_a_moved_upload_witness :
  exists v sz,
    video Sample.post = Some v /\ isValidVideoFile (name v) = true /\
    Sample.files !! tempFilePath v = Some sz /\ sz <> 0%N.
Proof.
  destruct (child_runs_on_a_moved_upload (lit "/tmp") 1700000000000 Sample.post
              (arrive Sample.files) _ _ eq_refl)
    as (v & sz & b & V & I & T & Z & _).
  exists v, sz. auto.
Defined.
